(** * ActivitySim workflow state and tour OD sampling: a shallow embedding

    The development follows two source files:

    - [activitysim/core/workflow/state.py]: the [State] class, a key-value
      context with predicate-driven cache invalidation, the table registry
      and the checkpoint-aware [get_table];
    - [activitysim/abm/models/util/tour_od.py]: [choose_MAZ_for_TAZ] and the
      segment loop of [run_tour_od].

    Python objects are represented by explicit data: the context is a finite
    map from strings to values, exceptions are values of an error type, and
    methods that mutate the state are functions in a state-and-exception
    monad.  *)

From Stdlib Require Import ZArith QArith Qcanon Ascii.
From Stdlib Require DecimalString DecimalZ DecimalPos.
From stdpp Require Import base gmap strings list fin_maps sets sorting.

Local Open Scope string_scope.
Local Open Scope list_scope.

(** ** Tables as pandas sees them *)

Module Pandas.

(** A cell of a column.  [NaN] stands for every null marker pandas knows
    (NaN, None, NaT); numeric payloads are kept as integers, so the
    int64-to-float64 upcast of a column only changes its [dtype] tag. *)
Inductive cell :=
| NaN
| CStr (s : string)
| CNum (z : Z)
| CBool (b : bool).

Inductive dtype := DObject | DInt64 | DFloat64 | DBool.

Record Series := { dtype_of : dtype; values : list cell }.

(** A frame: row labels and an ordered list of named columns. *)
Record DataFrame := { index : list Z; columns : list (string * Series) }.

#[global] Instance cell_eq_dec : EqDecision cell.
Proof. solve_decision. Defined.

#[global] Instance dtype_eq_dec : EqDecision dtype.
Proof. solve_decision. Defined.

Definition isna (c : cell) : bool :=
  match c with NaN => true | _ => false end.

(** [df[name]]: the first column of that name. *)
Fixpoint lookup_column (cols : list (string * Series)) (name : string) : option Series :=
  match cols with
  | [] => None
  | (n, col) :: cols => if decide (n = name) then Some col else lookup_column cols name
  end.

Definition column_names (df : DataFrame) : list string := (columns df).*1.

(** [name in df.columns] *)
Definition has_column (df : DataFrame) (name : string) : bool :=
  bool_decide (name ∈ column_names df).

(** The label occurs more than once among the labels. *)
Definition repeated (c : string) (labels : list string) : Prop :=
  (1 < length (filter (eq c) labels))%nat.

#[global] Instance repeated_dec c labels : Decision (repeated c labels).
Proof. unfold repeated. apply _. Defined.

(** [a.index.intersection(b.index)]: the labels of [a] that [b] has too,
    each once. *)
Definition index_intersection (a b : list Z) : list Z :=
  remove_dups (filter (λ x, x ∈ b) a).

(** The dtype of a column that [pd.concat] builds from two pieces, which
    is numpy's promotion: booleans and numbers give numbers (pandas 1.x;
    pandas 2 gives [object]). *)
Definition common_dtype (a b : dtype) : dtype :=
  match a, b with
  | DObject, _ | _, DObject => DObject
  | DBool, DBool => DBool
  | DFloat64, _ | _, DFloat64 => DFloat64
  | _, _ => DInt64
  end.

(** The cast of a cell to the dtype of the column it goes into: in a
    numeric column [True] and [False] become 1 and 0. *)
Definition astype (dt : dtype) (c : cell) : cell :=
  match dt, c with
  | (DInt64 | DFloat64), CBool b => CNum (if b then 1 else 0)
  | _, _ => c
  end.

(** The dtype of a column after [pd.concat] has filled rows with NaN. *)
Definition dtype_with_nulls (a : dtype) : dtype :=
  match a with
  | DObject | DBool => DObject
  | DInt64 | DFloat64 => DFloat64
  end.

(** A column both frames have. *)
Definition concat_column (col col' : Series) : Series :=
  let dt := common_dtype (dtype_of col) (dtype_of col') in
  {| dtype_of := dt; values := astype dt <$> (values col ++ values col') |}.

(** [pd.concat([a, b], sort=False, axis=0)] for frames whose column labels
    are unique: the rows of [a], then the rows of [b]; the columns of [a]
    in their order, then the columns only [b] has; a frame that lacks a
    column gets NaN there. *)
Definition concat_by_name (a b : DataFrame) : DataFrame :=
  let na := length (index a) in
  let nb := length (index b) in
  let from_a :=
    map (λ '(name, col),
           (name,
            match lookup_column (columns b) name with
            | Some col' => concat_column col col'
            | None =>
                {| dtype_of := dtype_with_nulls (dtype_of col);
                   values := values col ++ replicate nb NaN |}
            end)) (columns a) in
  let only_b :=
    map (λ '(name, col),
           (name, {| dtype_of := dtype_with_nulls (dtype_of col);
                     values := replicate na NaN ++ values col |}))
        (filter (λ '(name, _), name ∉ column_names a) (columns b)) in
  {| index := index a ++ index b; columns := from_a ++ only_b |}.

(** The same for frames that have the same labels in the same order:
    nothing is realigned, the columns are joined by position. *)
Definition concat_aligned (a b : DataFrame) : DataFrame :=
  {| index := index a ++ index b;
     columns := zip_with (λ '(name, col) '(_, col'), (name, concat_column col col'))
                  (columns a) (columns b) |}.

(** [pd.concat([a, b], sort=False, axis=0)].  With a repeated label in
    either frame pandas cannot realign the columns: unless the two frames
    have the same labels it raises [InvalidIndexError], here [None]. *)
Definition concat_rows (a b : DataFrame) : option DataFrame :=
  if decide (NoDup (column_names a) ∧ NoDup (column_names b))
  then Some (concat_by_name a b)
  else if decide (column_names a = column_names b) then Some (concat_aligned a b)
  else None.

(** [pd.concat([a, b], sort=False, axis=1)] for frames with the same
    index. *)
Definition concat_columns (a b : DataFrame) : DataFrame :=
  {| index := index a; columns := columns a ++ columns b |}.

(** [df[names]] *)
Definition select_columns (df : DataFrame) (names : list string) : option DataFrame :=
  cols ← mapM (λ name, (λ col, (name, col)) <$> lookup_column (columns df) name) names;
  Some {| index := index df; columns := cols |}.

(** [s.fillna(value)] *)
Definition fillna (value : cell) (s : Series) : Series :=
  {| dtype_of := dtype_of s;
     values := map (λ c, if isna c then value else c) (values s) |}.

(** [df[name] = df[name].fillna(value)] *)
Definition fillna_column (value : cell) (df : DataFrame) (name : string) : DataFrame :=
  {| index := index df;
     columns := map (λ '(n, col), (n, if decide (n = name) then fillna value col
                                      else col)) (columns df) |}.


End Pandas.

Import Pandas.

(** ** Python values, exceptions and the state monad *)

(** What a context entry can hold.  [PyStatus] is the dictionary kept under
    ["_salient_tables"]; [PyFileSystem] is a [FileSystem] settings object,
    given by the finite map of its attributes (a path, a tuple of paths, or
    [None]); [PyFrame] is a pandas table.  Attributes of any other Python
    object and xarray datasets are outside the model. *)
Inductive attr :=
| AttrNone
| AttrPath (s : string)
| AttrPaths (l : list string).

Inductive pyval :=
| PyNone
| PyBool (b : bool)
| PyInt (z : Z)
| PyStr (s : string)
| PyTuple (l : list string)
| PyStatus (m : gmap string bool)
| PyFileSystem (attrs : gmap string attr)
| PyFrame (df : DataFrame).

Definition is_None (v : pyval) : bool :=
  match v with PyNone => true | _ => false end.

(** Error messages keep the interpolated names apart from the literal text:
    [Fmt s] is a [%s] or [{}] field, [Repr s] a [{!r}] field. *)
Inductive fragment :=
| Lit (s : string)
| Fmt (s : string)
| Repr (s : string).

Abbreviation message := (list fragment).

(** The exceptions the modelled code raises.  [KeyNotInContextError] (a
    subclass of [KeyError]) and [KeyInContextHasNoValueError] (which is
    not) belong to the pypyr library, whose [Context] the state wraps. *)
Inductive exn :=
| KeyError (key : string)
| KeyNotInContextError (msg : message)
| KeyInContextHasNoValueError (msg : message)
| StateAccessError (msg : message)
| RuntimeError (msg : message)
| ValueError (msg : message)
| TypeError (msg : message)
| AssertionError
| IndexError (msg : message)
| UnboundLocalError (name : string)
| NameError (name : string)
| AttributeError (msg : message)
| InvalidIndexError (msg : message)
| RecursionError.

Inductive result (A : Type) :=
| Ok (a : A)
| Raise (e : exn).
Arguments Ok {A} a.
Arguments Raise {A} e.

Abbreviation context := (gmap string pyval).

(** The checkpoint manager ([State.checkpoint]): the entry of the latest
    checkpoint, the log of all entries and the pipeline store.  An entry is
    one dictionary holding the checkpoint's own name under
    ["checkpoint_name"] next to one item per table, whose value is the name
    of the checkpoint the table was last written under, or the empty string
    once the table has been dropped. *)
Record Checkpoints := {
  last_checkpoint : gmap string string;
  checkpoints : list (gmap string string);
  store : gmap string DataFrame
}.

Record State := {
  _context : context;
  checkpoint : Checkpoints
}.

Definition M (A : Type) : Type := State → result A * State.

#[global] Instance M_ret : MRet M := λ A a s, (Ok a, s).

#[global] Instance M_bind : MBind M := λ A B f m s,
  match m s with
  | (Ok a, s') => f a s'
  | (Raise e, s') => (Raise e, s')
  end.

Definition raise {A} (e : exn) : M A := λ s, (Raise e, s).

Definition lift {A} (r : result A) : M A := λ s, (r, s).

(** [try: m except ...: handler] for the exceptions [catches] selects. *)
Definition try_except {A} (m : M A) (catches : exn → bool) (handler : M A) : M A :=
  λ s, match m s with
       | (Raise e, s') => if catches e then handler s' else (Raise e, s')
       | r => r
       end.

Definition assert (b : bool) : M unit :=
  if b then mret tt else raise AssertionError.

(** [for x in l: body x] *)
Fixpoint for_each {A} (l : list A) (body : A → M unit) : M unit :=
  match l with
  | [] => mret tt
  | x :: l => body x ;; for_each l body
  end.

(** *** Context primitives *)

Definition read_context : M context := λ s, (Ok (_context s), s).

Definition write_context (c : context) : M unit :=
  λ s, (Ok tt, {| _context := c; checkpoint := checkpoint s |}).

(** [key in self._context] *)
Definition contains (key : string) : M bool :=
  c ← read_context; mret (bool_decide (is_Some (c !! key))).

(** [self._context.get(key, None)] *)
Definition context_get (key : string) : M pyval :=
  c ← read_context; mret (default PyNone (c !! key)).

(** [self._context[key]]; pypyr's [Context.__missing__] reports a missing
    key. *)
Definition getitem (key : string) : M pyval :=
  c ← read_context;
  match c !! key with
  | Some v => mret v
  | None =>
      raise (KeyNotInContextError [Fmt key; Lit " not found in the pypyr context."])
  end.

(** [self._context[key] = value] *)
Definition setitem (key : string) (value : pyval) : M unit :=
  c ← read_context; write_context (<[key := value]> c).

(** [del self._context[key]] *)
Definition delitem (key : string) : M unit :=
  c ← read_context;
  match c !! key with
  | Some _ => write_context (delete key c)
  | None => raise (KeyError key)
  end.

(** [self._context.pop(key, None)] *)
Definition context_pop (key : string) : M unit :=
  c ← read_context; write_context (delete key c).

(** *** The class-level registries of [State] *)

(** A loader registered in [_LOADABLE_TABLES] or [_LOADABLE_OBJECTS].
    [get] and [_load_or_create_dataset] call it with the live context,
    [self._LOADABLE_TABLES[key](self._context)], and the loaders of the
    repository work on the state that context belongs to: [persons] and
    [accessibility] read other tables from it and store their own with
    [add_table] before they return it.  A loader is therefore an operation
    on the state, which returns a value or raises.  (The decorators that
    register loaders are in [activitysim.core.workflow.steps], which is not
    among the sources.) *)
Definition loader : Type := M pyval.

Record Registry := {
  _RUNNABLE_STEPS : gset string;
  _LOADABLE_TABLES : gmap string loader;
  _LOADABLE_OBJECTS : gmap string loader;
  _PREDICATES : gmap string (list string);
  _TEMP_NAMES : gset string
}.

Definition NO_DEFAULT : pyval := PyStr "throw error if missing".

Definition attr_value (a : attr) : pyval :=
  match a with
  | AttrNone => PyNone
  | AttrPath s => PyStr s
  | AttrPaths l => PyTuple l
  end.

(** [getattr(obj, name, None)] *)
Definition py_getattr (obj : pyval) (name : string) : pyval :=
  match obj with
  | PyFileSystem attrs => from_option attr_value PyNone (attrs !! name)
  | _ => PyNone
  end.

(** [isinstance(v, (xr.Dataset, xr.DataArray, pd.DataFrame, pd.Series))] *)
Definition is_table_like (v : pyval) : bool :=
  match v with PyFrame _ => true | _ => false end.

Definition is_KeyError (e : exn) : bool :=
  match e with
  | KeyError _ | KeyNotInContextError _ => true
  | _ => false
  end.

Definition is_StateAccessError (e : exn) : bool :=
  match e with StateAccessError _ => true | _ => false end.

(** [StateAttr.__get__] for [filesystem = StateAttr(FileSystem)], whose
    [default_init] is false. *)
Definition filesystem : M pyval :=
  try_except (getitem "filesystem") is_KeyError
    (raise (StateAccessError [Fmt "filesystem"; Lit " not initialized for this state"])).

(** [default != NO_DEFAULT] used as a condition.  Comparing a frame with a
    string is element-wise and its truth value is ambiguous. *)
Definition differs_from_NO_DEFAULT (default : pyval) : M bool :=
  match default with
  | PyStr s => mret (negb (String.eqb s "throw error if missing"))
  | PyFrame _ =>
      raise (ValueError [Lit "The truth value of a DataFrame is ambiguous."])
  | _ => mret true
  end.

(** [Context.assert_key_has_value] of the pypyr library, after its
    documented contract: [KeyNotInContextError] when the key does not
    exist, [KeyInContextHasNoValueError] when its value is [None]. *)
Definition assert_key_has_value (key caller : string) : M unit :=
  c ← read_context;
  match c !! key with
  | None =>
      raise (KeyNotInContextError
               [Lit "context["; Repr key; Lit "] doesn't exist. It must exist for ";
                Fmt caller; Lit "."])
  | Some PyNone =>
      raise (KeyInContextHasNoValueError
               [Lit "context["; Repr key; Lit "] must have a value for ";
                Fmt caller; Lit "."])
  | Some _ => mret tt
  end.

Section state.

(** The registries, and pypyr's [Context.get_formatted_value], which
    substitutes [{token}] fields of a string from the context. *)
Context (reg : Registry).
Context (get_formatted_value : context → pyval → result pyval).

Definition predicated_on (key : string) : list string :=
  default [] (_PREDICATES reg !! key).

(** [State.drop], with the depth of the recursion made explicit. *)
Fixpoint drop_rec (depth : nat) (key : string) : M unit :=
  match depth with
  | O => raise RecursionError
  | S depth =>
      delitem key ;;
      for_each (predicated_on key) (λ i,
        b ← contains i;
        if b : bool then drop_rec depth i else mret tt)
  end.

(** Every call of [drop] deletes a key before it recurses, so the number
    of keys in the context bounds the depth of the recursion. *)
Definition drop (key : string) : M unit :=
  λ s, drop_rec (S (size (_context s))) key s.

(** [State.set] *)
Definition set (key : string) (value : pyval) : M unit :=
  setitem key value ;;
  for_each (predicated_on key) (λ i,
    b ← contains i;
    if b : bool then drop i else mret tt).

(** [State.access] *)
Definition access (key : string) (initializer : pyval) : M pyval :=
  b ← contains key;
  (if b : bool then mret tt else set key initializer) ;;
  getitem key.

(** [loader(self._context)] *)
Definition call_loader (f : loader) : M pyval := f.

(** [State.get], for a string [key]: the prelude that resolves a function
    object to its name is skipped by [isinstance(key, str)]. *)
Definition get (key : string) (default : pyval) : M pyval :=
  result ← context_get key;
  result ← (if is_None result
            then try_except (fs ← filesystem; mret (py_getattr fs key))
                   is_StateAccessError (mret PyNone)
            else mret result);
  result ← (if is_None result
            then match _LOADABLE_TABLES reg !! key with
                 | Some f => call_loader f
                 | None =>
                     match _LOADABLE_OBJECTS reg !! key with
                     | Some f => call_loader f
                     | None => mret result
                     end
                 end
            else mret result);
  result ← (if is_None result
            then b ← differs_from_NO_DEFAULT default;
                 if b : bool then mret default
                 else assert_key_has_value key "State" ;; raise (KeyError key)
            else mret result);
  if is_table_like result then mret result
  else c ← read_context; lift (get_formatted_value c result).

(** *** The table registry *)

(** [State.existing_table_status]: the dictionary stored in the context
    under ["_salient_tables"]. *)
Definition existing_table_status : M (gmap string bool) :=
  v ← getitem "_salient_tables";
  match v with
  | PyStatus m => mret m
  | _ => raise (TypeError [Lit "_salient_tables is not a dict"])
  end.

(** [self.existing_table_status[name] = status]; the dictionary is
    updated in place, so the context sees the change. *)
Definition set_table_status (name : string) (status : bool) : M unit :=
  m ← existing_table_status;
  setitem "_salient_tables" (PyStatus (<[name := status]> m)).

(** [State.is_table] *)
Definition is_table (name : string) : M bool :=
  m ← existing_table_status; mret (bool_decide (is_Some (m !! name))).

(** [State.uncheckpointed_table_names] *)
Definition uncheckpointed_table_names : M (list string) :=
  m ← existing_table_status;
  mret (map_to_list (filter (λ '(tablename, table_status),
                      table_status = true ∧ tablename ∉ _TEMP_NAMES reg) m)).*1.

(** [State.add_table] *)
Definition add_table (name : string) (content : pyval) (salient : option bool) : M unit :=
  let salient :=
    match salient with
    | None => bool_decide (name ∉ _TEMP_NAMES reg)
    | Some b => b
    end in
  (if salient then set_table_status name true else mret tt) ;;
  set name content.

(** [State._load_or_create_dataset] with [swallow_errors=False], the way
    the table getters call it. *)
Definition load_or_create_dataset_strict (table_name : string) (overwrite : bool) : M pyval :=
  m ← existing_table_status;
  if bool_decide (is_Some (m !! table_name)) && negb overwrite then
    raise (ValueError [Lit "table "; Fmt table_name; Lit " already loaded"])
  else
    match _LOADABLE_TABLES reg !! table_name with
    | None =>
        raise (ValueError [Lit "table "; Fmt table_name; Lit " has no loading function"])
    | Some f =>
        t ← call_loader f;
        (if is_None t then mret tt else add_table table_name t None) ;;
        mret t
    end.

(** [State.get_dataframe] *)
Definition get_dataframe (tablename : string) (columns : option (list string)) : M DataFrame :=
  t ← context_get tablename;
  t ← (if is_None t then load_or_create_dataset_strict tablename false else mret t);
  match t with
  | PyNone => raise (KeyError tablename)
  | PyFrame df =>
      match columns with
      | None => mret df
      | Some names =>
          match select_columns df names with
          | Some df' => mret df'
          | None => raise (KeyError "columns")
          end
      end
  | _ => raise (TypeError [Lit "cannot convert "; Fmt tablename; Lit " to DataFrame"])
  end.

(** [State._load_or_create_dataset] *)
Definition _load_or_create_dataset (table_name : string) (overwrite swallow_errors : bool)
    : M pyval :=
  m ← existing_table_status;
  if bool_decide (is_Some (m !! table_name)) && negb overwrite then
    if swallow_errors
    then df ← get_dataframe table_name None; mret (PyFrame df)
    else raise (ValueError [Lit "table "; Fmt table_name; Lit " already loaded"])
  else
    match _LOADABLE_TABLES reg !! table_name with
    | None =>
        if swallow_errors then mret PyNone
        else raise (ValueError
                      [Lit "table "; Fmt table_name; Lit " has no loading function"])
    | Some f =>
        t ← try_except (call_loader f)
              (λ e, is_StateAccessError e && swallow_errors) (mret PyNone);
        (if is_None t then mret tt else add_table table_name t None) ;;
        mret t
    end.

(** [State.registered_tables] *)
Definition registered_tables : M (list string) :=
  m ← existing_table_status;
  c ← read_context;
  mret (filter (λ name, is_Some (c !! name)) (map_to_list m).*1).

(** [State.extend_table].  The two axes share the [pd.concat] call in the
    source; here each branch carries its own.  In the comprehension that
    collects [missing_df_str_columns], [table_df[c]] is a frame, which has
    no [dtype], when the label [c] is repeated in [table_df]. *)
Definition extend_table (table_name : string) (df : DataFrame) (axis : Z) : M DataFrame :=
  assert (bool_decide (axis ∈ [0; 1]%Z)) ;;
  b ← is_table table_name;
  df ← (if b : bool then
          table_df ← get_dataframe table_name None;
          if decide (axis = 0%Z) then
            assert (bool_decide
                      (length (index_intersection (index table_df) (index df)) = 0%nat)) ;;
            (if bool_decide (Exists (λ c, negb (has_column df c) ∧
                                        repeated c (column_names table_df))
                               (column_names table_df))
             then raise (AttributeError
                           [Lit "'DataFrame' object has no attribute 'dtype'"])
             else mret tt) ;;
            let missing_df_str_columns :=
              filter (λ c, negb (has_column df c) ∧
                           dtype_of <$> lookup_column (columns table_df) c = Some DObject)
                (column_names table_df) in
            match concat_rows table_df df with
            | Some df => mret (foldl (fillna_column (CStr "")) df missing_df_str_columns)
            | None =>
                raise (InvalidIndexError
                         [Lit "Reindexing only valid with uniquely valued Index objects"])
            end
          else
            assert (bool_decide (index table_df = index df)) ;;
            let new_df_columns :=
              filter (λ c, negb (has_column table_df c)) (column_names df) in
            match select_columns df new_df_columns with
            | Some df => mret (concat_columns table_df df)
            | None => raise (KeyError "columns")
            end
        else mret df);
  add_table table_name (PyFrame df) None ;;
  mret df.

(** *** Checkpoints *)

Definition read_checkpoint : M Checkpoints := λ s, (Ok (checkpoint s), s).

Definition write_checkpoint (cp : Checkpoints) : M unit :=
  λ s, (Ok tt, {| _context := _context s; checkpoint := cp |}).

(** [State.pipeline_table_key] *)
Definition pipeline_table_key (table_name checkpoint_name : string) : string :=
  if decide (checkpoint_name = "") then "/" +:+ table_name
  else table_name +:+ "/" +:+ checkpoint_name.

(** Modelled from the spec: [Checkpoints._read_df] (in
    [activitysim.core.workflow.checkpoint], not among the sources) reads
    from the "append-only named store mapping "{table}/{checkpoint}" to
    stored table snapshots". *)
Definition _read_df (table_name checkpoint_name : string) : M pyval :=
  cp ← read_checkpoint;
  match store cp !! pipeline_table_key table_name checkpoint_name with
  | Some df => mret (PyFrame df)
  | None => raise (KeyError (pipeline_table_key table_name checkpoint_name))
  end.

(** Modelled from the spec: [Checkpoints._write_df], which stores a
    snapshot under the same key. *)
Definition _write_df (df : DataFrame) (table_name checkpoint_name : string) : M unit :=
  cp ← read_checkpoint;
  write_checkpoint
    {| last_checkpoint := last_checkpoint cp;
       checkpoints := checkpoints cp;
       store := <[pipeline_table_key table_name checkpoint_name := df]> (store cp) |}.

(** [self.checkpoint.last_checkpoint[key] = value] *)
Definition set_last_checkpoint (key value : string) : M unit :=
  cp ← read_checkpoint;
  write_checkpoint
    {| last_checkpoint := <[key := value]> (last_checkpoint cp);
       checkpoints := checkpoints cp;
       store := store cp |}.

(** Modelled from the spec: what [Checkpoints.add] does for one table
    edited since the previous checkpoint: its current frame is written
    under the new name, the entry of the latest checkpoint points to that
    version, and the table counts as checkpointed. *)
Definition checkpoint_table (checkpoint_name table_name : string) : M unit :=
  df ← get_dataframe table_name None;
  _write_df df table_name checkpoint_name ;;
  set_last_checkpoint table_name checkpoint_name ;;
  set_table_status table_name false.

(** Modelled from the spec: [Checkpoints.add], the [add_checkpoint(name)]
    transition of the checkpoint manager.  The tables left alone since the
    previous checkpoint keep the reference they had; a copy of the entry,
    which carries the name of the checkpoint, is appended to the log. *)
Definition add_checkpoint (checkpoint_name : string) : M unit :=
  names ← uncheckpointed_table_names;
  for_each names (checkpoint_table checkpoint_name) ;;
  set_last_checkpoint "checkpoint_name" checkpoint_name ;;
  cp ← read_checkpoint;
  write_checkpoint
    {| last_checkpoint := last_checkpoint cp;
       checkpoints := checkpoints cp ++ [last_checkpoint cp];
       store := store cp |}.

(** [next((x for x in checkpoints if x["checkpoint_name"] == name), None)];
    an entry without a name makes the subscript raise. *)
Fixpoint find_checkpoint (log : list (gmap string string)) (checkpoint_name : string)
    : result (option (gmap string string)) :=
  match log with
  | [] => Ok None
  | x :: log =>
      match x !! "checkpoint_name" with
      | None => Raise (KeyError "checkpoint_name")
      | Some n => if decide (n = checkpoint_name) then Ok (Some x)
                  else find_checkpoint log checkpoint_name
      end
  end.

(** [State.get_table] *)
Definition get_table (table_name : string) (checkpoint_name : option string) : M pyval :=
  cp ← read_checkpoint;
  uncheckpointed ← (if bool_decide (last_checkpoint cp !! table_name = None)
                    then is_table table_name else mret false);
  if uncheckpointed : bool then
    match checkpoint_name with
    | Some name =>
        raise (RuntimeError
                 [Lit "get_table: checkpoint_name ("; Repr name;
                  Lit ") not supported for non-checkpointed table "; Repr table_name])
    | None => context_get table_name
    end
  else
    match checkpoint_name with
    | None =>
        match last_checkpoint cp !! table_name with
        | None =>
            raise (RuntimeError [Lit "table '"; Fmt table_name; Lit "' never checkpointed."])
        | Some "" =>
            raise (RuntimeError [Lit "table '"; Fmt table_name; Lit "' was dropped."])
        | Some _ => context_get table_name
        end
    | Some name =>
        checkpoint ← lift (find_checkpoint (checkpoints cp) name);
        match checkpoint with
        | None =>
            raise (RuntimeError [Lit "checkpoint '"; Fmt name; Lit "' not in checkpoints."])
        | Some checkpoint =>
            match checkpoint !! table_name with
            | None | Some "" =>
                raise (RuntimeError
                         [Lit "table '"; Fmt table_name; Lit "' not in checkpoint '";
                          Fmt name; Lit "'."])
            | Some last_checkpoint_name =>
                if decide (last_checkpoint cp !! table_name = Some last_checkpoint_name)
                then context_get table_name
                else _read_df table_name last_checkpoint_name
            end
        end
    end.

(** [State.drop_table] *)
Definition drop_table (table_name : string) : M unit :=
  b ← is_table table_name;
  (if b : bool then
     context_pop table_name ;;
     m ← existing_table_status;
     setitem "_salient_tables" (PyStatus (delete table_name m))
   else mret tt) ;;
  cp ← read_checkpoint;
  if bool_decide (is_Some (last_checkpoint cp !! table_name))
  then set_last_checkpoint table_name ""
  else mret tt.

End state.

(** ** Running monadic code *)

Definition with_context (s : State) (c : context) : State :=
  {| _context := c; checkpoint := checkpoint s |}.

Lemma with_context_id s : with_context s (_context s) = s.
Proof. by destruct s. Qed.

Lemma with_context_twice s c1 c2 :
  with_context (with_context s c1) c2 = with_context s c2.
Proof. done. Qed.

Lemma bind_run {A B} (m : M A) (f : A → M B) s :
  (m ≫= f) s =
  match m s with
  | (Ok a, s') => f a s'
  | (Raise e, s') => (Raise e, s')
  end.
Proof. done. Qed.

Lemma ret_run {A} (a : A) s : @mret M _ A a s = (Ok a, s).
Proof. done. Qed.

Lemma assert_run b s :
  assert b s = if b then (Ok tt, s) else (Raise AssertionError, s).
Proof. by destruct b. Qed.

Lemma contains_run key s :
  contains key s = (Ok (bool_decide (is_Some (_context s !! key))), s).
Proof. done. Qed.

Lemma setitem_run key v s :
  setitem key v s = (Ok tt, with_context s (<[key := v]> (_context s))).
Proof. done. Qed.

Lemma delitem_run key s :
  is_Some (_context s !! key) →
  delitem key s = (Ok tt, with_context s (delete key (_context s))).
Proof.
  intros [v Hv]. unfold delitem. rewrite bind_run. simpl. by rewrite Hv.
Qed.

(** ** The invalidation cascade *)

Section cascade.

Context (reg : Registry).

(** [cascades c k d]: dropping [k] from the context [c] reaches [d] through
    registered dependents, each of them present in [c]. *)
Inductive cascades (c : context) : string → string → Prop :=
| cascades_here k :
    is_Some (c !! k) → cascades c k k
| cascades_step k i d :
    is_Some (c !! k) → i ∈ predicated_on reg k → cascades c i d →
    cascades c k d.

(** [depends_on k d]: [d] is registered as predicated on [k], directly or
    through other keys, whatever the context holds. *)
Inductive depends_on : string → string → Prop :=
| depends_direct k d :
    d ∈ predicated_on reg k → depends_on k d
| depends_trans k i d :
    i ∈ predicated_on reg k → depends_on i d → depends_on k d.

(** The keys a write to [k] invalidates in the context [c]. *)
Definition invalidated (c : context) (k d : string) : Prop :=
  ∃ i, i ∈ predicated_on reg k ∧ cascades c i d.

(** [c'] is [c] without exactly the keys that satisfy [R]. *)
Definition drops (c c' : context) (R : string → Prop) : Prop :=
  c' ⊆ c ∧
  (∀ d, R d → c' !! d = None) ∧
  (∀ d, is_Some (c !! d) → c' !! d = None → R d).

Lemma cascades_present c k d : cascades c k d → is_Some (c !! d).
Proof. induction 1; auto. Qed.

Lemma cascades_start c k d : cascades c k d → is_Some (c !! k).
Proof. destruct 1; auto. Qed.

Lemma cascades_trans c k i d :
  cascades c k i → cascades c i d → cascades c k d.
Proof.
  induction 1; [done|]. intros. eapply cascades_step; eauto.
Qed.

Lemma cascades_mono c c' k d : c' ⊆ c → cascades c' k d → cascades c k d.
Proof.
  intros Hsub. induction 1 as [k [v Hk]|k i d [v Hk] Hi _ IH].
  - apply cascades_here. exists v. by eapply lookup_weaken.
  - eapply cascades_step; eauto. exists v. by eapply lookup_weaken.
Qed.

Lemma cascades_depends c k i d :
  i ∈ predicated_on reg k → cascades c i d → depends_on k d.
Proof.
  intros Hi Hc. revert k Hi.
  induction Hc as [i _|i j d _ Hj _ IH]; intros k Hi.
  - by apply depends_direct.
  - eapply depends_trans; eauto.
Qed.

(** A path that starts at [a] either ends at [k], or leaves [k] for the
    last time through one of its dependents, or avoids [k] altogether. *)
Lemma cascades_delete c k a d :
  cascades c a d →
  d = k ∨
  (∃ i, i ∈ predicated_on reg k ∧ cascades (delete k c) i d) ∨
  (a ≠ k ∧ cascades (delete k c) a d).
Proof.
  induction 1 as [a Ha|a i d Ha Hi _ IH].
  - destruct (decide (a = k)) as [->|Hne]; [by left|].
    right; right. split; [done|]. apply cascades_here.
    by rewrite lookup_delete_ne.
  - destruct IH as [->|[IH|[Hik IH]]]; [by left|by (right; left)|].
    destruct (decide (a = k)) as [->|Hne].
    + right; left. eauto.
    + right; right. split; [done|]. eapply cascades_step; eauto.
      by rewrite lookup_delete_ne.
Qed.

(** Once a set of keys closed under the cascade has been removed, a path of
    the old context either ends in a removed key or survives as a whole. *)
Lemma cascades_shrink c c' k d :
  c' ⊆ c →
  (∀ x y, is_Some (c !! x) → c' !! x = None → cascades c x y → c' !! y = None) →
  cascades c k d →
  c' !! d = None ∨ cascades c' k d.
Proof.
  intros Hsub Hclosed. induction 1 as [k Hk|k i d Hk Hi Hid IH].
  - destruct (c' !! k) as [v|] eqn:E; [|by left].
    right. apply cascades_here. by rewrite E.
  - destruct IH as [IH|IH]; [by left|].
    destruct (c' !! k) as [v|] eqn:E.
    + right. eapply cascades_step; eauto.
    + left. eapply (Hclosed k d); eauto. eapply cascades_step; eauto.
Qed.

End cascade.

Section cascade_run.

Context (reg : Registry).

Lemma drops_nothing c : drops c c (λ _, False).
Proof.
  split; [done|]. split; [done|].
  intros d [v Hv] Hd. congruence.
Qed.

Lemma drops_ext c c' (R R' : string → Prop) :
  (∀ d, R d ↔ R' d) → drops c c' R → drops c c' R'.
Proof.
  intros HR (Hsub & Hgone & Hwhy). split; [done|].
  split; intros d; [rewrite <- HR|rewrite <- HR]; auto.
Qed.

(** One cascade after another: the second runs in the context the first
    left behind. *)
Lemma drops_seq c c1 c2 i (R : context → string → Prop) :
  (∀ c c' d, c' ⊆ c → R c' d → R c d) →
  (∀ c d, R c d → ∃ j, cascades reg c j d) →
  (∀ c1, c1 ⊆ c →
     (∀ x y, is_Some (c !! x) → c1 !! x = None → cascades reg c x y →
             c1 !! y = None) →
     ∀ d, R c d → c1 !! d = None ∨ R c1 d) →
  drops c c1 (cascades reg c i) →
  drops c1 c2 (R c1) →
  drops c c2 (λ d, cascades reg c i d ∨ R c d).
Proof.
  intros Hmono _ Hshrink (Hsub1 & Hgone1 & Hwhy1) (Hsub2 & Hgone2 & Hwhy2).
  assert (Hclosed : ∀ x y, is_Some (c !! x) → c1 !! x = None →
                           cascades reg c x y → c1 !! y = None).
  { intros x y Hx Hx1 Hxy. apply Hgone1.
    eapply cascades_trans; [by apply Hwhy1|done]. }
  split; [by etrans|]. split.
  - intros d [Hd|Hd].
    + eapply lookup_weaken_None; [by apply Hgone1|done].
    + destruct (Hshrink c1 Hsub1 Hclosed d Hd) as [Hd1|Hd1].
      * by eapply lookup_weaken_None.
      * by apply Hgone2.
  - intros d Hd Hd2. destruct (c1 !! d) as [v|] eqn:E.
    + right. eapply Hmono; [done|]. apply Hwhy2; [by rewrite E|done].
    + left. by apply Hwhy1.
Qed.

(** The loop shared by [set] and [drop]: each dependent still in the
    context is dropped by [body]. *)
Lemma cascade_loop (body : string → M unit) (inv : State → Prop) :
  (∀ s c', inv s → c' ⊆ _context s → inv (with_context s c')) →
  (∀ s i, inv s → is_Some (_context s !! i) →
     ∃ c', body i s = (Ok tt, with_context s c') ∧
           drops (_context s) c' (cascades reg (_context s) i)) →
  ∀ l s, inv s →
    ∃ c', for_each l (λ i, b ← contains i;
                           if b : bool then body i else mret tt) s
          = (Ok tt, with_context s c') ∧
          drops (_context s) c'
            (λ d, ∃ i, i ∈ l ∧ cascades reg (_context s) i d).
Proof.
  intros Hinv Hbody. induction l as [|i l IH]; intros s Hs.
  - exists (_context s). split; [by rewrite with_context_id|].
    eapply drops_ext; [|apply drops_nothing].
    intros d. split; [done|]. intros (i & Hi & _). by apply elem_of_nil in Hi.
  - cbn [for_each]. rewrite !bind_run, contains_run. case_bool_decide as Hi.
    + destruct (Hbody s i Hs Hi) as (c1 & -> & Hc1). cbn beta iota.
      destruct (IH (with_context s c1)) as (c2 & -> & Hc2).
      { apply Hinv; [done|]. apply Hc1. }
      exists c2. split; [done|]. cbn [with_context _context] in Hc2.
      eapply drops_ext; last first.
      * eapply (drops_seq (_context s) c1 c2 i
                  (λ c d, ∃ j, j ∈ l ∧ cascades reg c j d)); try done.
        -- intros c c' d Hsub (j & Hj & Hjd). exists j. split; [done|].
           by eapply cascades_mono.
        -- intros c d (j & _ & Hjd). eauto.
        -- intros c1' Hsub Hclosed d (j & Hj & Hjd).
           destruct (cascades_shrink reg _ _ _ _ Hsub Hclosed Hjd); eauto.
      * intros d. split.
        -- intros [Hd|(j & Hj & Hd)]; [exists i|exists j];
             (split; [set_solver|done]).
        -- intros (j & Hj & Hd). apply elem_of_cons in Hj as [->|Hj]; eauto.
    + cbn beta iota. rewrite ret_run.
      destruct (IH s Hs) as (c' & -> & Hc'). exists c'. split; [done|].
      eapply drops_ext; [|done]. intros d. split.
      * intros (j & Hj & Hd). exists j. split; [set_solver|done].
      * intros (j & Hj & Hd). apply elem_of_cons in Hj as [->|Hj]; [|eauto].
        destruct Hi. by eapply cascades_start.
Qed.

(** [drop] removes the key and everything the cascade reaches from it. *)
Lemma drop_rec_spec (n : nat) s k :
  is_Some (_context s !! k) → (size (_context s) ≤ n)%nat →
  ∃ c', drop_rec reg n k s = (Ok tt, with_context s c') ∧
        drops (_context s) c' (cascades reg (_context s) k).
Proof.
  revert s k. induction n as [|n IH]; intros s k Hk Hsize.
  - destruct Hk as [v Hk].
    assert (Hempty : _context s = ∅) by (apply map_size_empty_inv; lia).
    rewrite Hempty in Hk. by rewrite lookup_empty in Hk.
  - cbn [drop_rec]. rewrite bind_run, delitem_run by done.
    set (c0 := delete k (_context s)).
    destruct (cascade_loop (drop_rec reg n) (λ s, (size (_context s) ≤ n)%nat))
      with (l := predicated_on reg k) (s := with_context s c0)
      as (c' & Hrun & Hsub & Hgone & Hwhy).
    + intros s' c' Hs' Hsub. cbn. etrans; [|exact Hs'].
      by apply map_subseteq_size.
    + intros s' i Hs' Hi. by apply IH.
    + cbn. subst c0. destruct Hk as [v Hk].
      pose proof (map_size_delete_Some k (_context s)) as Hdel.
      rewrite Hdel by eauto. lia.
    + cbn [_context with_context] in *. subst c0. exists c'. split; [done|].
      split; [|split].
      * etrans; [done|]. apply delete_subseteq.
      * intros d Hd. destruct (cascades_delete reg _ k _ _ Hd) as [->|[Hi|[? _]]];
          [|by apply Hgone|done].
        eapply lookup_weaken_None; [|done]. apply lookup_delete_eq.
      * intros d Hd Hd'. destruct (decide (d = k)) as [->|Hne].
        { by apply cascades_here. }
        destruct (Hwhy d) as (i & Hi & Hid); [by rewrite lookup_delete_ne|done|].
        eapply cascades_step; [done..|].
        eapply cascades_mono; [|done]. apply delete_subseteq.
Qed.

Lemma drop_spec s k :
  is_Some (_context s !! k) →
  ∃ c', drop reg k s = (Ok tt, with_context s c') ∧
        drops (_context s) c' (cascades reg (_context s) k).
Proof. intros Hk. apply drop_rec_spec; [done|lia]. Qed.

(** [set] writes the value and then drops what the write invalidates. *)
Lemma set_spec s key value :
  ∃ c', set reg key value s = (Ok tt, with_context s c') ∧
        drops (<[key := value]> (_context s)) c'
          (invalidated reg (<[key := value]> (_context s)) key).
Proof.
  unfold set. rewrite bind_run, setitem_run.
  destruct (cascade_loop (drop reg) (λ _, True))
    with (l := predicated_on reg key)
         (s := with_context s (<[key := value]> (_context s)))
    as (c' & Hrun & Hdrops); [done| |done|].
  - intros s' i _ Hi. by apply drop_spec.
  - exists c'. split; [done|]. exact Hdrops.
Qed.

End cascade_run.

(** ** [State.set]: what a write invalidates *)

Section set_facts.

Context (reg : Registry).

(** The lookups of the context [set] leaves behind. *)
Lemma set_lookup s key value :
  ∃ c', set reg key value s = (Ok tt, with_context s c') ∧
    ∀ d, (invalidated reg (<[key := value]> (_context s)) key d →
          c' !! d = None) ∧
         (¬ invalidated reg (<[key := value]> (_context s)) key d →
          c' !! d = <[key := value]> (_context s) !! d).
Proof.
  destruct (set_spec reg s key value) as (c' & Hrun & Hsub & Hgone & Hwhy).
  exists c'. split; [done|]. intros d. split; [by apply Hgone|].
  intros Hd. destruct (c' !! d) as [v|] eqn:E.
  - symmetry. by eapply lookup_weaken.
  - destruct (<[key := value]> (_context s) !! d) as [v|] eqn:E'; [|done].
    destruct Hd. apply Hwhy; [by rewrite E'|done].
Qed.

Lemma invalidated_depends c key d :
  invalidated reg c key d → depends_on reg key d.
Proof. intros (i & Hi & Hd). by eapply cascades_depends. Qed.

Lemma set_subseteq s key value s' :
  set reg key value s = (Ok tt, s') →
  _context s' ⊆ <[key := value]> (_context s) ∧ checkpoint s' = checkpoint s.
Proof.
  destruct (set_spec reg s key value) as (c' & Hrun & Hsub & _).
  rewrite Hrun. intros [= <-]. done.
Qed.

(** A key that is not predicated on [key] holds after [set] what it held
    after the write. *)
Lemma set_keeps s key value :
  ∃ c', set reg key value s = (Ok tt, with_context s c') ∧
    ∀ d, ¬ depends_on reg key d → c' !! d = <[key := value]> (_context s) !! d.
Proof.
  destruct (set_lookup s key value) as (c' & Hrun & Hc').
  exists c'. split; [done|]. intros d Hd. apply Hc'.
  intros Hinv. by apply Hd, invalidated_depends with (c := <[key := value]> (_context s)).
Qed.

End set_facts.

(** A registry in which ["A"] is predicated on ["K"] and ["B"] on ["A"],
    and a context that holds ["B"] but not ["A"]. *)
Definition chain_registry : Registry := {|
  _RUNNABLE_STEPS := ∅;
  _LOADABLE_TABLES := ∅;
  _LOADABLE_OBJECTS := ∅;
  _PREDICATES := {[ "K" := ["A"]; "A" := ["B"] ]};
  _TEMP_NAMES := ∅
|}.

Definition no_checkpoints : Checkpoints :=
  {| last_checkpoint := ∅; checkpoints := []; store := ∅ |}.

Definition state_of (c : context) : State :=
  {| _context := c; checkpoint := no_checkpoints |}.

(** C1, as stated, fails: ["B"] is transitively predicated on ["K"], yet a
    write to ["K"] leaves it in the context, because the link between them,
    ["A"], is not in the context and [set] only recurses into keys that
    are. *)
Lemma set_keeps_dependent_of_absent_key :
  depends_on chain_registry "K" "B" ∧
  ∃ s', set chain_registry "K" (PyInt 1) (state_of {[ "B" := PyInt 7 ]})
        = (Ok tt, s') ∧
        _context s' !! "B" = Some (PyInt 7).
Proof.
  split.
  - apply depends_trans with "A"; [|apply depends_direct];
      vm_compute; set_solver.
  - eexists. split; [vm_compute; reflexivity|]. by vm_compute.
Qed.

(** C1 (amended).  [set key value] always succeeds; it stores [value] and
    removes exactly the keys the cascade reaches: the dependents of [key]
    that are in the context, their dependents that are in the context, and
    so on.  In particular every direct dependent of [key] is absent
    afterwards, every removed key is transitively predicated on [key], and
    every other key, [key] included, holds what it held after the write. *)
Theorem set_invalidates_present_dependents reg s key value :
  ∃ c', set reg key value s = (Ok tt, with_context s c') ∧
    (∀ d, invalidated reg (<[key := value]> (_context s)) key d →
          c' !! d = None) ∧
    (∀ d, d ∈ predicated_on reg key → c' !! d = None) ∧
    (∀ d, ¬ invalidated reg (<[key := value]> (_context s)) key d →
          c' !! d = <[key := value]> (_context s) !! d) ∧
    (∀ d, invalidated reg (<[key := value]> (_context s)) key d →
          depends_on reg key d) ∧
    (∀ d, ¬ depends_on reg key d →
          c' !! d = <[key := value]> (_context s) !! d).
Proof.
  destruct (set_lookup reg s key value) as (c' & Hrun & Hc').
  destruct (set_spec reg s key value) as (c'' & Hrun' & Hsub & _).
  assert (c'' = c') as -> by (rewrite Hrun in Hrun'; by injection Hrun').
  exists c'. split; [done|]. repeat split.
  - intros d. apply Hc'.
  - intros d Hd.
    destruct (<[key := value]> (_context s) !! d) as [v|] eqn:E.
    + apply Hc'. exists d. split; [done|]. apply cascades_here. by rewrite E.
    + by eapply lookup_weaken_None.
  - intros d. apply Hc'.
  - intros d. apply invalidated_depends.
  - intros d Hd. apply Hc'. intros Hinv. by apply Hd, invalidated_depends with (c := <[key := value]> (_context s)).
Qed.

(** ** [State.get] *)

(** An operation that never changes the state, whether it returns or
    raises. *)
Definition read_only {A} (m : M A) : Prop := ∀ s, (m s).2 = s.

Lemma read_only_ret {A} (a : A) : read_only (mret a : M A).
Proof. done. Qed.

Lemma read_only_raise {A} e : read_only (raise e : M A).
Proof. done. Qed.

Lemma read_only_lift {A} (r : result A) : read_only (lift r).
Proof. done. Qed.

Lemma read_only_read_context : read_only read_context.
Proof. done. Qed.

Lemma read_only_bind {A B} (m : M A) (f : A → M B) :
  read_only m → (∀ a, read_only (f a)) → read_only (m ≫= f).
Proof.
  intros Hm Hf s. rewrite bind_run. specialize (Hm s).
  destruct (m s) as [[a|e] s']; simpl in Hm; subst s'; [apply Hf|done].
Qed.

Lemma read_only_try_except {A} (m : M A) catches handler :
  read_only m → read_only handler → read_only (try_except m catches handler).
Proof.
  intros Hm Hh s. unfold try_except. specialize (Hm s).
  destruct (m s) as [[a|e] s']; simpl in Hm; subst s'; [done|].
  destruct (catches e); [apply Hh|done].
Qed.

Create HintDb read_only.
#[global] Hint Resolve read_only_ret read_only_raise read_only_lift
  read_only_read_context : read_only.

Ltac read_only :=
  repeat first
    [ progress intros
    | apply read_only_bind
    | apply read_only_try_except
    | solve [auto with read_only]
    | match goal with
      | |- read_only (match ?x with _ => _ end) => destruct x
      | |- read_only (if ?b then _ else _) => destruct b
      end ].

Lemma read_only_getitem key : read_only (getitem key).
Proof. unfold getitem. read_only. Qed.

Lemma read_only_context_get key : read_only (context_get key).
Proof. unfold context_get. read_only. Qed.

Lemma read_only_filesystem : read_only filesystem.
Proof. unfold filesystem. pose proof read_only_getitem. read_only. Qed.

Lemma read_only_differs default : read_only (differs_from_NO_DEFAULT default).
Proof. unfold differs_from_NO_DEFAULT. read_only. Qed.

Lemma read_only_assert_key_has_value key caller :
  read_only (assert_key_has_value key caller).
Proof. unfold assert_key_has_value. read_only. Qed.

#[global] Hint Resolve read_only_getitem read_only_context_get
  read_only_filesystem read_only_differs read_only_assert_key_has_value
  : read_only.

(** The value of [getattr(self.filesystem, key, None)], or [None] when the
    state has no filesystem. *)
Definition filesystem_attribute (c : context) (key : string) : pyval :=
  match c !! "filesystem" with
  | Some fs => py_getattr fs key
  | None => PyNone
  end.

Lemma filesystem_attribute_run key s :
  try_except (fs ← filesystem; mret (py_getattr fs key))
    is_StateAccessError (mret PyNone) s
  = (Ok (filesystem_attribute (_context s) key), s).
Proof.
  unfold filesystem_attribute, try_except, filesystem, getitem.
  rewrite !bind_run. unfold try_except. rewrite bind_run. cbn [read_context].
  by destruct (_context s !! "filesystem").
Qed.

(** The last step of [get]: tables are returned as they are, any other
    value goes through pypyr's token substitution. *)
Definition finish (get_formatted_value : context → pyval → result pyval)
    (c : context) (v : pyval) : result pyval :=
  if is_table_like v then Ok v else get_formatted_value c v.

(** The loader [get] would call for [key]: tables come first. *)
Definition registered_loader (reg : Registry) (key : string) : option loader :=
  match _LOADABLE_TABLES reg !! key with
  | Some f => Some f
  | None => _LOADABLE_OBJECTS reg !! key
  end.

(** What [get] has found before it looks for a loader: the context entry
    or else the attribute of the filesystem object. *)
Definition found (c : context) (key : string) : pyval :=
  let result := default PyNone (c !! key) in
  if is_None result then filesystem_attribute c key else result.

(** The end of [get], from the last test of [result is None] on. *)
Definition settle (get_formatted_value : context → pyval → result pyval)
    (key : string) (default : pyval) (result : pyval) : M pyval :=
  result ← (if is_None result
            then b ← differs_from_NO_DEFAULT default;
                 if b : bool then mret default
                 else assert_key_has_value key "State" ;; raise (KeyError key)
            else mret result);
  if is_table_like result then mret result
  else c ← read_context; lift (get_formatted_value c result).

(** [get] in three steps: what the context or the filesystem holds; else
    the loader, run on the state; then the default or the error. *)
Lemma get_run reg fmt key dflt s :
  get reg fmt key dflt s =
  if is_None (found (_context s) key) then
    match registered_loader reg key with
    | Some f => (f ≫= settle fmt key dflt) s
    | None => settle fmt key dflt PyNone s
    end
  else (finish fmt (_context s) (found (_context s) key), s).
Proof.
  unfold get, found, finish, registered_loader, call_loader. rewrite bind_run.
  change (context_get key s) with (Ok (default PyNone (_context s !! key)), s).
  cbn beta iota zeta. set (r0 := default PyNone (_context s !! key)).
  rewrite bind_run.
  assert ((if is_None r0
           then try_except (fs ← filesystem; mret (py_getattr fs key))
                  is_StateAccessError (mret PyNone)
           else mret r0) s
          = (Ok (if is_None r0 then filesystem_attribute (_context s) key
                 else r0), s)) as ->.
  { destruct (is_None r0); [apply filesystem_attribute_run|done]. }
  set (r1 := if is_None r0 then _ else r0).
  change (get reg fmt key dflt) with (get reg fmt key dflt).
  destruct (is_None r1) eqn:E1.
  - destruct (_LOADABLE_TABLES reg !! key) as [f|]; [done|].
    destruct (_LOADABLE_OBJECTS reg !! key) as [f|]; [done|].
    rewrite bind_run, ret_run. unfold settle.
    assert (r1 = PyNone) as -> by (by destruct r1). done.
  - rewrite bind_run, ret_run, bind_run, E1, ret_run.
    destruct (is_table_like r1); [done|]. by rewrite bind_run.
Qed.

Lemma settle_value fmt key dflt v s :
  is_None v = false → settle fmt key dflt v s = (finish fmt (_context s) v, s).
Proof.
  intros Hv. unfold settle, finish. rewrite bind_run, Hv, ret_run.
  destruct (is_table_like v); [done|]. by rewrite bind_run.
Qed.

Lemma settle_None fmt key dflt s :
  settle fmt key dflt PyNone s =
  match differs_from_NO_DEFAULT dflt s with
  | (Ok true, _) => (finish fmt (_context s) dflt, s)
  | (Ok false, _) =>
      match assert_key_has_value key "State" s with
      | (Ok _, _) => (Raise (KeyError key), s)
      | (Raise e, _) => (Raise e, s)
      end
  | (Raise e, _) => (Raise e, s)
  end.
Proof.
  unfold settle, finish. rewrite bind_run. cbn [is_None]. rewrite bind_run.
  pose proof (read_only_differs dflt s) as Hd.
  destruct (differs_from_NO_DEFAULT dflt s) as [[[]|e] s1];
    simpl in Hd; subst s1.
  - rewrite ret_run. destruct (is_table_like dflt); [done|]. by rewrite bind_run.
  - rewrite bind_run.
    pose proof (read_only_assert_key_has_value key "State" s) as Ha.
    destruct (assert_key_has_value key "State" s) as [[?|e] s1];
      simpl in Ha; by subst s1.
  - done.
Qed.

(** [get] only reads as long as no loader is called: whatever it returns
    or raises, the state it leaves is the state it found. *)
Lemma get_read_only reg fmt key default :
  registered_loader reg key = None → read_only (get reg fmt key default).
Proof.
  intros Hload s. rewrite get_run, Hload.
  destruct (is_None _); [|done]. rewrite settle_None.
  destruct (differs_from_NO_DEFAULT default s) as [[[]|e] s1]; [done| |done].
  by destruct (assert_key_has_value key "State" s) as [[?|e] s1'].
Qed.

(** *** Which names an exception carries *)

Definition message_names (msg : message) (name : string) : Prop :=
  Fmt name ∈ msg ∨ Repr name ∈ msg.

Definition names (e : exn) (name : string) : Prop :=
  match e with
  | KeyError key => key = name
  | KeyNotInContextError msg | KeyInContextHasNoValueError msg
  | StateAccessError msg | RuntimeError msg | ValueError msg
  | TypeError msg | IndexError msg | AttributeError msg
  | InvalidIndexError msg => message_names msg name
  | UnboundLocalError x | NameError x => x = name
  | AssertionError | RecursionError => False
  end.

#[global] Instance fragment_eq_dec : EqDecision fragment.
Proof. solve_decision. Defined.

#[global] Instance message_names_dec msg name : Decision (message_names msg name).
Proof. unfold message_names. apply _. Defined.

#[global] Instance names_dec e name : Decision (names e name).
Proof. destruct e; simpl; apply _. Defined.

(** Finds a field in an explicit message. *)
Ltac find_field :=
  unfold message_names;
  first [ left; solve [repeat first [apply list_elem_of_here | apply list_elem_of_further]]
        | right; solve [repeat first [apply list_elem_of_here | apply list_elem_of_further]] ].

(** The two complaints of [assert_key_has_value], as [get] words them. *)
Definition key_does_not_exist (key : string) : exn :=
  KeyNotInContextError
    [Lit "context["; Repr key; Lit "] doesn't exist. It must exist for ";
     Fmt "State"; Lit "."].

Definition key_has_no_value (key : string) : exn :=
  KeyInContextHasNoValueError
    [Lit "context["; Repr key; Lit "] must have a value for ";
     Fmt "State"; Lit "."].

Lemma key_does_not_exist_names key : names (key_does_not_exist key) key.
Proof. cbn. find_field. Qed.

Lemma key_has_no_value_names key : names (key_has_no_value key) key.
Proof. cbn. find_field. Qed.

Lemma NO_DEFAULT_not_given s : differs_from_NO_DEFAULT NO_DEFAULT s = (Ok false, s).
Proof. done. Qed.

Lemma found_nothing c key :
  default PyNone (c !! key) = PyNone →
  filesystem_attribute c key = PyNone →
  found c key = PyNone.
Proof. unfold found. by intros -> ->. Qed.

Definition empty_registry : Registry := {|
  _RUNNABLE_STEPS := ∅;
  _LOADABLE_TABLES := ∅;
  _LOADABLE_OBJECTS := ∅;
  _PREDICATES := ∅;
  _TEMP_NAMES := ∅
|}.

Lemma depends_on_inv reg k d :
  depends_on reg k d →
  ∃ i, i ∈ predicated_on reg k ∧ (d = i ∨ depends_on reg i d).
Proof. destruct 1 as [k d Hd|k i d Hi Hid]; eauto. Qed.

Lemma empty_registry_independent k d : ¬ depends_on empty_registry k d.
Proof.
  intros H. apply depends_on_inv in H as (i & Hi & _). vm_compute in Hi.
  by apply elem_of_nil in Hi.
Qed.

(** Token substitution that finds no token. *)
Definition no_tokens : context → pyval → result pyval := λ _ v, Ok v.

(** A state whose only entry is the filesystem that
    [initialize_filesystem] builds by default, reduced to its
    [settings_file_name]. *)
Definition filesystem_context : context :=
  {[ "filesystem" :=
       PyFileSystem {[ "settings_file_name" := AttrPath "settings.yaml" ]} ]}.

(** C8, as stated, fails: ["settings_file_name"] is not in the context and
    has no loader, yet [get] returns the attribute of that name of the
    filesystem object instead of raising. *)
Lemma get_absent_key_finds_filesystem_attribute :
  filesystem_context !! "settings_file_name" = None ∧
  registered_loader empty_registry "settings_file_name" = None ∧
  get empty_registry no_tokens "settings_file_name" NO_DEFAULT
    (state_of filesystem_context)
  = (Ok (PyStr "settings.yaml"), state_of filesystem_context).
Proof. split; [|split]; by vm_compute. Qed.

(** C8 (amended).  [get] without a default, on a key that is not in the
    context, that the filesystem object does not resolve and that has no
    loader, raises pypyr's [KeyNotInContextError] with a message that
    carries the key; it returns nothing and leaves the state as it was. *)
Theorem get_missing_key_raises reg fmt s key :
  _context s !! key = None →
  filesystem_attribute (_context s) key = PyNone →
  registered_loader reg key = None →
  get reg fmt key NO_DEFAULT s = (Raise (key_does_not_exist key), s) ∧
  names (key_does_not_exist key) key.
Proof.
  intros Hkey Hfs Hload. split; [|apply key_does_not_exist_names].
  rewrite get_run, found_nothing by (done || by rewrite Hkey).
  cbn [is_None]. rewrite Hload, settle_None, NO_DEFAULT_not_given.
  unfold assert_key_has_value. rewrite bind_run. cbn [read_context].
  by rewrite Hkey.
Qed.

Lemma get_missing_key_raises_witness :
  get empty_registry no_tokens "persons" NO_DEFAULT (state_of ∅)
  = (Raise (key_does_not_exist "persons"), state_of ∅) ∧
  names (key_does_not_exist "persons") "persons".
Proof. apply get_missing_key_raises; by vm_compute. Defined.

(** *** Running the table registry *)

Lemma getitem_run key v s :
  _context s !! key = Some v → getitem key s = (Ok v, s).
Proof. intros H. unfold getitem. rewrite bind_run. cbn [read_context]. by rewrite H. Qed.

Lemma existing_table_status_run m s :
  _context s !! "_salient_tables" = Some (PyStatus m) →
  existing_table_status s = (Ok m, s).
Proof.
  intros H. unfold existing_table_status. by rewrite bind_run, (getitem_run _ _ _ H).
Qed.

(** [existing_table_status] returns only what the context holds. *)
Lemma existing_table_status_inv m s s' :
  existing_table_status s = (Ok m, s') →
  s' = s ∧ _context s !! "_salient_tables" = Some (PyStatus m).
Proof.
  unfold existing_table_status, getitem. rewrite !bind_run. cbn [read_context].
  destruct (_context s !! "_salient_tables") as [[]|]; cbn; try discriminate.
  by intros [= -> ->].
Qed.

Lemma set_table_status_run m name status s :
  _context s !! "_salient_tables" = Some (PyStatus m) →
  set_table_status name status s
  = (Ok tt, with_context s (<["_salient_tables" := PyStatus (<[name := status]> m)]>
                              (_context s))).
Proof.
  intros H. unfold set_table_status.
  by rewrite bind_run, (existing_table_status_run _ _ H), setitem_run.
Qed.

Lemma add_table_run reg m name content s :
  _context s !! "_salient_tables" = Some (PyStatus m) →
  name ∉ _TEMP_NAMES reg →
  add_table reg name content None s
  = set reg name content
      (with_context s (<["_salient_tables" := PyStatus (<[name := true]> m)]>
                         (_context s))).
Proof.
  intros Hm Hname. unfold add_table. rewrite bool_decide_true by done.
  by rewrite bind_run, (set_table_status_run _ _ _ _ Hm).
Qed.

(** [add_table] stores the content under the name of the table. *)
Lemma add_table_caches reg m name content s :
  _context s !! "_salient_tables" = Some (PyStatus m) →
  name ∉ _TEMP_NAMES reg →
  ¬ depends_on reg name name →
  ∃ s', add_table reg name content None s = (Ok tt, s') ∧
        _context s' !! name = Some content.
Proof.
  intros Hm Htemp Hself. rewrite (add_table_run _ _ _ _ _ Hm Htemp).
  destruct (set_keeps reg
              (with_context s (<["_salient_tables" := PyStatus (<[name := true]> m)]>
                                 (_context s))) name content)
    as (c' & -> & Hkeep).
  eexists. split; [done|]. cbn [_context with_context].
  rewrite (Hkeep name Hself). apply lookup_insert_eq.
Qed.

(** ** [State.get]: loaders and stored [None] *)

(** A registry with a loader named like an attribute of the filesystem. *)
Definition shadowed_loader_registry : Registry := {|
  _RUNNABLE_STEPS := ∅;
  _LOADABLE_TABLES := {[ "settings_file_name" := mret (PyInt 1) ]};
  _LOADABLE_OBJECTS := ∅;
  _PREDICATES := ∅;
  _TEMP_NAMES := ∅
|}.

(** C9, as stated, fails: the key is not in the context and has a loader,
    but the filesystem object resolves it first, so [get] returns the
    attribute and never calls the loader. *)
Lemma get_prefers_filesystem_attribute_to_loader :
  filesystem_context !! "settings_file_name" = None ∧
  is_Some (registered_loader shadowed_loader_registry "settings_file_name") ∧
  get shadowed_loader_registry no_tokens "settings_file_name" NO_DEFAULT
    (state_of filesystem_context)
  = (Ok (PyStr "settings.yaml"), state_of filesystem_context).
Proof.
  split; [by vm_compute|]. split; [by eexists|]. by vm_compute.
Qed.

(** C9 (amended).  When the key is not in the context, the filesystem
    object does not resolve it and its loader returns a value other than
    [None], [get] returns that value (a table as it is, anything else
    after token substitution) and writes nothing itself: the state it
    leaves is the state the loader left.  When the loader has not written
    the state, the state is unchanged and the key is still absent; when it
    has stored something under the key, as the loaders of tables do with
    [add_table], that is what the context holds.  [add_table], by
    contrast, leaves the content in the context. *)
Theorem get_loader_value_not_cached reg fmt s key dflt f v s' :
  _context s !! key = None →
  filesystem_attribute (_context s) key = PyNone →
  registered_loader reg key = Some f →
  f s = (Ok v, s') →
  v ≠ PyNone →
  get reg fmt key dflt s = (finish fmt (_context s') v, s') ∧
  (s' = s →
   get reg fmt key dflt s = (finish fmt (_context s) v, s) ∧
   _context s !! key = None) ∧
  (∀ m, _context s !! "_salient_tables" = Some (PyStatus m) →
        key ∉ _TEMP_NAMES reg →
        ¬ depends_on reg key key →
        ∃ s1, add_table reg key v None s = (Ok tt, s1) ∧
              _context s1 !! key = Some v).
Proof.
  intros Hkey Hfs Hload Hf Hv.
  assert (get reg fmt key dflt s = (finish fmt (_context s') v, s')) as Hget.
  { rewrite get_run, found_nothing by (done || by rewrite Hkey).
    cbn [is_None]. rewrite Hload, bind_run, Hf. apply settle_value.
    by destruct v. }
  split; [done|]. split.
  - intros ->. done.
  - intros m Hm Htemp Hself. by eapply add_table_caches.
Qed.

Definition persons_frame : DataFrame :=
  {| index := [1; 2]%Z;
     columns := [("age", {| dtype_of := DInt64; values := [CNum 30; CNum 41] |})] |}.

(** A loader that only returns its table. *)
Definition persons_registry : Registry := {|
  _RUNNABLE_STEPS := ∅;
  _LOADABLE_TABLES := {[ "persons" := mret (PyFrame persons_frame) ]};
  _LOADABLE_OBJECTS := ∅;
  _PREDICATES := ∅;
  _TEMP_NAMES := ∅
|}.

(** The state [init_state] leaves: no table registered yet. *)
Definition fresh_state : State := state_of {[ "_salient_tables" := PyStatus ∅ ]}.

Lemma get_loader_value_not_cached_witness :
  get persons_registry no_tokens "persons" NO_DEFAULT fresh_state
  = (Ok (PyFrame persons_frame), fresh_state) ∧
  (fresh_state = fresh_state →
   get persons_registry no_tokens "persons" NO_DEFAULT fresh_state
   = (Ok (PyFrame persons_frame), fresh_state) ∧
   _context fresh_state !! "persons" = None) ∧
  (∀ m, _context fresh_state !! "_salient_tables" = Some (PyStatus m) →
        "persons" ∉ _TEMP_NAMES persons_registry →
        ¬ depends_on persons_registry "persons" "persons" →
        ∃ s1, add_table persons_registry "persons" (PyFrame persons_frame) None
                fresh_state = (Ok tt, s1) ∧
              _context s1 !! "persons" = Some (PyFrame persons_frame)).
Proof.
  apply (get_loader_value_not_cached persons_registry no_tokens fresh_state
           "persons" NO_DEFAULT (mret (PyFrame persons_frame))
           (PyFrame persons_frame) fresh_state);
    by vm_compute.
Defined.

(** What [get] raises for a key that resolves to nothing. *)
Definition missing_key_error (c : context) (key : string) : exn :=
  match c !! key with
  | Some _ => key_has_no_value key
  | None => key_does_not_exist key
  end.

(** What [default != NO_DEFAULT] raises for a frame. *)
Definition ambiguous_truth_value : exn :=
  ValueError [Lit "The truth value of a DataFrame is ambiguous."].

Lemma differs_from_NO_DEFAULT_given dflt s :
  is_table_like dflt = false → dflt ≠ NO_DEFAULT →
  differs_from_NO_DEFAULT dflt s = (Ok true, s).
Proof.
  intros Htable Hne. destruct dflt as [| | |d| | | |]; try done. cbn.
  destruct (String.eqb_spec d "throw error if missing") as [->|]; [|done].
  by destruct Hne.
Qed.

Lemma get_nothing reg fmt s key :
  default PyNone (_context s !! key) = PyNone →
  filesystem_attribute (_context s) key = PyNone →
  registered_loader reg key = None →
  (∀ dflt, is_table_like dflt = false → dflt ≠ NO_DEFAULT →
     get reg fmt key dflt s = (fmt (_context s) dflt, s)) ∧
  (∀ df, get reg fmt key (PyFrame df) s = (Raise ambiguous_truth_value, s)) ∧
  get reg fmt key NO_DEFAULT s = (Raise (missing_key_error (_context s) key), s).
Proof.
  intros Hkey Hfs Hload.
  assert (∀ dflt, get reg fmt key dflt s = settle fmt key dflt PyNone s) as Hget.
  { intros dflt. by rewrite get_run, found_nothing, Hload by done. }
  split; [|split].
  - intros dflt Htable Hne.
    rewrite Hget, settle_None, differs_from_NO_DEFAULT_given by done.
    unfold finish. by rewrite Htable.
  - intros df. by rewrite Hget, settle_None.
  - rewrite Hget, settle_None, NO_DEFAULT_not_given.
    unfold assert_key_has_value, missing_key_error.
    rewrite bind_run. cbn [read_context].
    destruct (_context s !! key) as [v|]; [|done].
    cbn in Hkey. by subst v.
Qed.

Lemma filesystem_attribute_after_write c c' key v :
  c' ⊆ <[key := v]> c →
  py_getattr v key = PyNone →
  filesystem_attribute c key = PyNone →
  filesystem_attribute c' key = PyNone.
Proof.
  unfold filesystem_attribute. intros Hsub Hv Hfs.
  destruct (c' !! "filesystem") as [fs|] eqn:E; [|done].
  eapply lookup_weaken in E; [|done].
  destruct (decide (key = "filesystem")) as [->|Hne].
  - rewrite lookup_insert_eq in E. by injection E as <-.
  - rewrite lookup_insert_ne in E by done. by rewrite E in Hfs.
Qed.

(** C10, as stated, fails: after [set("K", None)] a [get] without a
    default raises [KeyInContextHasNoValueError], which is not the
    [KeyNotInContextError] (a [KeyError]) that the same call raises while
    ["K"] is absent. *)
Lemma get_stored_None_raises_another_error :
  ∃ s1, set empty_registry "K" PyNone (state_of ∅) = (Ok tt, s1) ∧
        get empty_registry no_tokens "K" NO_DEFAULT s1
        = (Raise (key_has_no_value "K"), s1) ∧
        get empty_registry no_tokens "K" NO_DEFAULT (state_of ∅)
        = (Raise (key_does_not_exist "K"), state_of ∅) ∧
        key_has_no_value "K" ≠ key_does_not_exist "K".
Proof.
  eexists. split; [by vm_compute|]. split; [by vm_compute|].
  split; [by vm_compute|done].
Qed.

(** C10 (amended).  After [set(key, None)], for a key with no loader that
    the filesystem object does not resolve, [get] never returns what the
    context stores under the key.  With a default that is not a table it
    returns the default after token substitution; with a frame as default
    it raises [ValueError], because [default != NO_DEFAULT] has no truth
    value for a frame; without a default it raises an error that carries
    the key.  That error is pypyr's [KeyInContextHasNoValueError] as long
    as the key is still in the context, which is the case unless the key
    is predicated on itself, and [KeyNotInContextError] otherwise. *)
Theorem get_after_set_None reg fmt s key :
  filesystem_attribute (_context s) key = PyNone →
  registered_loader reg key = None →
  ∃ s1, set reg key PyNone s = (Ok tt, s1) ∧
    (∀ dflt, is_table_like dflt = false → dflt ≠ NO_DEFAULT →
       get reg fmt key dflt s1 = (fmt (_context s1) dflt, s1)) ∧
    (∀ df, get reg fmt key (PyFrame df) s1 = (Raise ambiguous_truth_value, s1)) ∧
    get reg fmt key NO_DEFAULT s1
    = (Raise (missing_key_error (_context s1) key), s1) ∧
    names (missing_key_error (_context s1) key) key ∧
    (¬ depends_on reg key key →
       _context s1 !! key = Some PyNone ∧
       missing_key_error (_context s1) key = key_has_no_value key).
Proof.
  intros Hfs Hload.
  destruct (set_keeps reg s key PyNone) as (c1 & Hset & Hkeep).
  destruct (set_subseteq reg s key PyNone _ Hset) as [Hsub _].
  cbn [_context with_context] in Hsub.
  exists (with_context s c1). split; [done|].
  assert (default PyNone (c1 !! key) = PyNone) as Hkey.
  { destruct (c1 !! key) as [v|] eqn:E; [|done].
    eapply lookup_weaken in E; [|done].
    rewrite lookup_insert_eq in E. by injection E as <-. }
  assert (filesystem_attribute c1 key = PyNone) as Hfs1.
  { by eapply filesystem_attribute_after_write. }
  destruct (get_nothing reg fmt (with_context s c1) key Hkey Hfs1 Hload)
    as (Hdflt & Hframe & Hraise).
  split; [done|]. split; [done|]. split; [done|]. split.
  - cbn [_context with_context]. unfold missing_key_error.
    destruct (c1 !! key);
      [apply key_has_no_value_names|apply key_does_not_exist_names].
  - intros Hself. cbn [_context with_context]. unfold missing_key_error.
    rewrite (Hkeep key Hself), lookup_insert_eq. done.
Qed.

Lemma get_after_set_None_witness :
  ∃ s1, set empty_registry "K" PyNone fresh_state = (Ok tt, s1) ∧
    (∀ dflt, is_table_like dflt = false → dflt ≠ NO_DEFAULT →
       get empty_registry no_tokens "K" dflt s1
       = (no_tokens (_context s1) dflt, s1)) ∧
    (∀ df, get empty_registry no_tokens "K" (PyFrame df) s1
           = (Raise ambiguous_truth_value, s1)) ∧
    get empty_registry no_tokens "K" NO_DEFAULT s1
    = (Raise (missing_key_error (_context s1) "K"), s1) ∧
    names (missing_key_error (_context s1) "K") "K" ∧
    (¬ depends_on empty_registry "K" "K" →
       _context s1 !! "K" = Some PyNone ∧
       missing_key_error (_context s1) "K" = key_has_no_value "K").
Proof. apply get_after_set_None; by vm_compute. Defined.

(** ** [State.get_table]: errors *)

Definition checkpoint_not_supported (name table_name : string) : message :=
  [Lit "get_table: checkpoint_name ("; Repr name;
   Lit ") not supported for non-checkpointed table "; Repr table_name].

Definition checkpoint_not_in_checkpoints (name : string) : message :=
  [Lit "checkpoint '"; Fmt name; Lit "' not in checkpoints."].

Definition table_not_in_checkpoint (table_name name : string) : message :=
  [Lit "table '"; Fmt table_name; Lit "' not in checkpoint '"; Fmt name; Lit "'."].

Lemma is_table_run m name s :
  _context s !! "_salient_tables" = Some (PyStatus m) →
  is_table name s = (Ok (bool_decide (is_Some (m !! name))), s).
Proof.
  intros H. unfold is_table. by rewrite bind_run, (existing_table_status_run _ _ H).
Qed.

(** A table registered in the state that no checkpoint has recorded. *)
Definition never_checkpointed (s : State) (m : gmap string bool) (table_name : string)
    : Prop :=
  last_checkpoint (checkpoint s) !! table_name = None ∧ is_Some (m !! table_name).

#[global] Instance never_checkpointed_dec s m table_name :
  Decision (never_checkpointed s m table_name).
Proof. unfold never_checkpointed. apply _. Defined.

(** The way [get_table] goes for a named checkpoint, when the state has
    its table status. *)
Lemma get_table_at_checkpoint_run m table_name name s :
  _context s !! "_salient_tables" = Some (PyStatus m) →
  get_table table_name (Some name) s =
  if decide (never_checkpointed s m table_name) then
    (Raise (RuntimeError (checkpoint_not_supported name table_name)), s)
  else
    match find_checkpoint (checkpoints (checkpoint s)) name with
    | Raise e => (Raise e, s)
    | Ok None => (Raise (RuntimeError (checkpoint_not_in_checkpoints name)), s)
    | Ok (Some x) =>
        match x !! table_name with
        | None | Some "" =>
            (Raise (RuntimeError (table_not_in_checkpoint table_name name)), s)
        | Some written =>
            if decide (last_checkpoint (checkpoint s) !! table_name = Some written)
            then (Ok (default PyNone (_context s !! table_name)), s)
            else _read_df table_name written s
        end
    end.
Proof.
  intros Hm. unfold get_table, never_checkpointed.
  rewrite bind_run. cbn [read_checkpoint]. rewrite bind_run.
  case_bool_decide as Hlast.
  - rewrite (is_table_run _ _ _ Hm). case_bool_decide as Htable.
    + by rewrite decide_True.
    + rewrite decide_False by tauto. rewrite bind_run. unfold lift.
      destruct (find_checkpoint _ _) as [[x|]|]; try done.
      destruct (x !! table_name) as [[]|]; try done. by case_decide.
  - rewrite ret_run. rewrite decide_False by tauto. rewrite bind_run. unfold lift.
    destruct (find_checkpoint _ _) as [[x|]|]; try done.
    destruct (x !! table_name) as [[]|]; try done. by case_decide.
Qed.

(** A state with one checkpoint, [C1], that recorded the table
    ["persons"]. *)
Definition entry_C1 : gmap string string :=
  {[ "checkpoint_name" := "C1"; "persons" := "C1" ]}.

Definition checkpointed_state : State := {|
  _context := {[ "_salient_tables" := PyStatus {[ "persons" := false ]};
                 "persons" := PyFrame persons_frame ]};
  checkpoint := {| last_checkpoint := entry_C1;
                   checkpoints := [entry_C1];
                   store := {[ "persons/C1" := persons_frame ]} |}
|}.

(** C6, as stated, fails: for a checkpoint that is not in the log the
    message carries the checkpoint but not the table. *)
Lemma get_table_unknown_checkpoint_omits_table :
  find_checkpoint (checkpoints (checkpoint checkpointed_state)) "C9" = Ok None ∧
  get_table "persons" (Some "C9") checkpointed_state
  = (Raise (RuntimeError (checkpoint_not_in_checkpoints "C9")), checkpointed_state) ∧
  ¬ names (RuntimeError (checkpoint_not_in_checkpoints "C9")) "persons".
Proof.
  split; [by vm_compute|]. split; [by vm_compute|].
  intros [H|H]; by repeat (apply elem_of_cons in H as [H|H]; [discriminate|]);
    apply elem_of_nil in H.
Qed.

(** C6 (amended).  In a state that has its table status, [get_table] for a
    checkpoint name that is not in the log, or whose entry has no version
    of the table (none, or the empty mark of a dropped table), raises a
    [RuntimeError] and changes nothing.  Its message always carries the
    checkpoint name.  It carries the table name as well when the entry
    exists, or when the table is registered but was never checkpointed;
    for a missing checkpoint it is otherwise
    ["checkpoint '<name>' not in checkpoints."], without the table. *)
Theorem get_table_missing_version_raises m table_name name s :
  _context s !! "_salient_tables" = Some (PyStatus m) →
  (find_checkpoint (checkpoints (checkpoint s)) name = Ok None ∨
   ∃ x, find_checkpoint (checkpoints (checkpoint s)) name = Ok (Some x) ∧
        default "" (x !! table_name) = "") →
  ∃ msg, get_table table_name (Some name) s = (Raise (RuntimeError msg), s) ∧
    message_names msg name ∧
    (never_checkpointed s m table_name ∨
     find_checkpoint (checkpoints (checkpoint s)) name ≠ Ok None →
     message_names msg table_name) ∧
    (¬ never_checkpointed s m table_name →
     find_checkpoint (checkpoints (checkpoint s)) name = Ok None →
     msg = checkpoint_not_in_checkpoints name).
Proof.
  intros Hm Hmissing. rewrite (get_table_at_checkpoint_run m) by done.
  case_decide as Hnever.
  - eexists. split; [done|]. split; [find_field|].
    split; [intros _; find_field|done].
  - destruct Hmissing as [Hfind|(x & Hfind & Hx)]; rewrite Hfind.
    + eexists. split; [done|]. split; [find_field|].
      split; [by intros [?|?]|done].
    + exists (table_not_in_checkpoint table_name name). split.
      { destruct (x !! table_name) as [[]|]; done. }
      split; [find_field|]. split; [intros _; find_field|done].
Qed.

Lemma get_table_missing_version_raises_witness :
  ∃ msg, get_table "tours" (Some "C1") checkpointed_state
         = (Raise (RuntimeError msg), checkpointed_state) ∧
    message_names msg "C1" ∧
    (never_checkpointed checkpointed_state {[ "persons" := false ]} "tours" ∨
     find_checkpoint (checkpoints (checkpoint checkpointed_state)) "C1" ≠ Ok None →
     message_names msg "tours") ∧
    (¬ never_checkpointed checkpointed_state {[ "persons" := false ]} "tours" →
     find_checkpoint (checkpoints (checkpoint checkpointed_state)) "C1" = Ok None →
     msg = checkpoint_not_in_checkpoints "C1").
Proof.
  apply get_table_missing_version_raises; [by vm_compute|].
  right. exists entry_C1. by vm_compute.
Defined.

(** ** Frames: columns under [concat] and [fillna] *)

Section frames.

Implicit Types (cols : list (string * Series)) (c : string).

Lemma lookup_column_map (h : string → Series → Series) cols c :
  lookup_column (map (λ '(n, col), (n, h n col)) cols) c
  = h c <$> lookup_column cols c.
Proof.
  induction cols as [|[n col] cols IH]; [done|]. cbn.
  case_decide; [by subst|done].
Qed.


Lemma lookup_column_app cols1 cols2 c :
  lookup_column (cols1 ++ cols2) c
  = match lookup_column cols1 c with
    | Some col => Some col
    | None => lookup_column cols2 c
    end.
Proof.
  induction cols1 as [|[n col] cols1 IH]; [done|]. cbn. by case_decide.
Qed.

Lemma lookup_column_None cols c : c ∉ cols.*1 → lookup_column cols c = None.
Proof.
  induction cols as [|[n col] cols IH]; [done|]. cbn.
  intros [Hne Hc]%not_elem_of_cons. rewrite decide_False by done. by apply IH.
Qed.

Lemma lookup_column_is_Some cols c : c ∈ cols.*1 → is_Some (lookup_column cols c).
Proof.
  induction cols as [|[n col] cols IH]; cbn.
  - by intros ?%elem_of_nil.
  - intros Hc. destruct (decide (n = c)) as [->|Hne]; [by exists col|].
    apply IH. apply elem_of_cons in Hc as [Hc|Hc]; [congruence|done].
Qed.





Lemma names_filter (P : string → Prop) `{!∀ n, Decision (P n)} cols :
  (filter (λ '(n, _), P n) cols).*1 = filter P cols.*1.
Proof.
  induction cols as [|[n col] cols IH]; [done|].
  rewrite fmap_cons, !filter_cons. cbn [fst].
  destruct (decide (P n)); [rewrite fmap_cons; cbn [fst]|]; by rewrite IH.
Qed.







End frames.

(** ** [State.extend_table] along the rows *)

Lemma get_dataframe_run reg tablename df s :
  _context s !! tablename = Some (PyFrame df) →
  get_dataframe reg tablename None s = (Ok df, s).
Proof.
  intros H. unfold get_dataframe. rewrite bind_run.
  change (context_get tablename s) with (Ok (default PyNone (_context s !! tablename)), s).
  rewrite H. cbn [default from_option id is_None]. by rewrite bind_run, ret_run.
Qed.


Lemma add_table_succeeds reg m name content s :
  _context s !! "_salient_tables" = Some (PyStatus m) →
  ∃ s', add_table reg name content None s = (Ok tt, s').
Proof.
  intros Hm. unfold add_table. rewrite bind_run. case_bool_decide.
  - rewrite (set_table_status_run _ _ _ _ Hm).
    destruct (set_spec reg (with_context s
                (<["_salient_tables" := PyStatus (<[name := true]> m)]> (_context s)))
                name content) as (c' & -> & _). eauto.
  - rewrite ret_run. destruct (set_spec reg s name content) as (c' & -> & _). eauto.
Qed.

(** What [add_table] leaves in the context: the content under the name of
    the table and, unless the name is temporary, the table marked as
    edited in the registry.  The cascade of the write must not reach the
    table or the registry. *)
Lemma add_table_stores reg m name content s :
  _context s !! "_salient_tables" = Some (PyStatus m) →
  name ≠ "_salient_tables" →
  ¬ depends_on reg name name →
  ¬ depends_on reg name "_salient_tables" →
  ∃ s1, add_table reg name content None s = (Ok tt, s1) ∧
        checkpoint s1 = checkpoint s ∧
        _context s1 !! name = Some content ∧
        _context s1 !! "_salient_tables"
        = Some (PyStatus (if decide (name ∈ _TEMP_NAMES reg) then m
                          else <[name := true]> m)) ∧
        ∀ d, ¬ depends_on reg name d → d ≠ name → d ≠ "_salient_tables" →
             _context s1 !! d = _context s !! d.
Proof.
  intros Hm Hname Hself Hstatus. unfold add_table. rewrite bind_run.
  case_bool_decide as Htemp.
  - rewrite (set_table_status_run _ _ _ _ Hm), decide_False by done.
    destruct (set_keeps reg
                (with_context s (<["_salient_tables" := PyStatus (<[name := true]> m)]>
                                   (_context s))) name content)
      as (c1 & -> & Hkeep).
    cbn [_context with_context] in Hkeep.
    eexists. split; [done|]. split; [done|]. cbn [_context with_context].
    split; [|split].
    + rewrite (Hkeep _ Hself). apply lookup_insert_eq.
    + rewrite (Hkeep _ Hstatus), lookup_insert_ne by done. apply lookup_insert_eq.
    + intros d Hd Hd1 Hd2. by rewrite (Hkeep _ Hd), !lookup_insert_ne.
  - rewrite ret_run, decide_True by (by destruct (decide (name ∈ _TEMP_NAMES reg))).
    destruct (set_keeps reg s name content) as (c1 & -> & Hkeep).
    eexists. split; [done|]. split; [done|]. cbn [_context with_context].
    split; [|split].
    + rewrite (Hkeep _ Hself). apply lookup_insert_eq.
    + by rewrite (Hkeep _ Hstatus), lookup_insert_ne.
    + intros d Hd Hd1 Hd2. by rewrite (Hkeep _ Hd), lookup_insert_ne.
Qed.

(** The string columns of the table that the new rows lack, and the
    frame [extend_table] builds for [axis=0] from frames with unique
    labels. *)
Definition missing_df_str_columns (table_df df : DataFrame) : list string :=
  filter (λ c, negb (has_column df c) ∧
               dtype_of <$> lookup_column (columns table_df) c = Some DObject)
    (column_names table_df).









(** A registered table of two tours, a batch of new rows without the
    string column, and a batch that reuses a label. *)
Definition tours_frame : DataFrame :=
  {| index := [1; 2]%Z;
     columns :=
       [("purpose", {| dtype_of := DObject; values := [CStr "work"; CStr "school"] |});
        ("person_id", {| dtype_of := DInt64; values := [CNum 10; CNum 11] |})] |}.

Definition new_tours : DataFrame :=
  {| index := [3]%Z;
     columns := [("person_id", {| dtype_of := DInt64; values := [CNum 12] |})] |}.


Definition tours_state : State :=
  state_of {[ "_salient_tables" := PyStatus {[ "tours" := true ]};
              "tours" := PyFrame tours_frame ]}.




(** ** Checkpoints: storage keys *)

Fixpoint has_slash (s : string) : bool :=
  match s with
  | EmptyString => false
  | String a s => bool_decide (a = "/"%char) || has_slash s
  end.

Lemma has_slash_app u v : has_slash (u +:+ "/" +:+ v) = true.
Proof.
  induction u as [|a u IH]; [done|].
  change (bool_decide (a = "/"%char) || has_slash (u +:+ "/" +:+ v) = true).
  rewrite IH. apply orb_true_r.
Qed.

Lemma string_length_app (u v : string) :
  String.length (u +:+ v) = (String.length u + String.length v)%nat.
Proof.
  induction u as [|a u IH]; [done|].
  change (S (String.length (u +:+ v)) = S (String.length u + String.length v)).
  by rewrite IH.
Qed.

Lemma string_app_inv_tail (u v x : string) : u +:+ x = v +:+ x → u = v.
Proof.
  revert v. induction u as [|a u IH]; intros [|b v] H; [done|..].
  - apply (f_equal String.length) in H.
    change (String.length x = S (String.length (v +:+ x))) in H.
    rewrite string_length_app in H. lia.
  - apply (f_equal String.length) in H.
    change (S (String.length (u +:+ x)) = String.length x) in H.
    rewrite string_length_app in H. lia.
  - change (String a (u +:+ x) = String b (v +:+ x)) in H.
    injection H as -> H. f_equal. by apply IH.
Qed.

(** Two keys of the form [table/checkpoint] whose checkpoint names have no
    slash agree only when the names do. *)
Lemma slash_free_names_inj (t1 t2 c1 c2 : string) :
  has_slash c1 = false → has_slash c2 = false →
  t1 +:+ "/" +:+ c1 = t2 +:+ "/" +:+ c2 → c1 = c2.
Proof.
  intros H1 H2. revert t2. induction t1 as [|a t1 IH]; intros [|b t2] H.
  - change (String "/" c1 = String "/" c2) in H. by injection H.
  - change (String "/" c1 = String b (t2 +:+ "/" +:+ c2)) in H.
    injection H as _ H. by rewrite H, has_slash_app in H1.
  - change (String a (t1 +:+ "/" +:+ c1) = String "/" c2) in H.
    injection H as _ H. by rewrite <- H, has_slash_app in H2.
  - change (String a (t1 +:+ "/" +:+ c1) = String b (t2 +:+ "/" +:+ c2)) in H.
    injection H as _ H. by apply (IH t2).
Qed.

Lemma pipeline_table_key_inj_table (t1 t2 name : string) :
  pipeline_table_key t1 name = pipeline_table_key t2 name → t1 = t2.
Proof.
  unfold pipeline_table_key. case_decide.
  - change (String "/" t1 = String "/" t2 → t1 = t2). by intros [= ->].
  - apply string_app_inv_tail.
Qed.

Lemma pipeline_table_key_checkpoints (t1 t2 c1 c2 : string) :
  c1 ≠ "" → c2 ≠ "" → has_slash c1 = false → has_slash c2 = false →
  c1 ≠ c2 →
  pipeline_table_key t1 c1 ≠ pipeline_table_key t2 c2.
Proof.
  intros Hc1 Hc2 H1 H2 Hne. unfold pipeline_table_key.
  rewrite !decide_False by done. intros H. by apply slash_free_names_inj in H.
Qed.

(** ** Checkpoints: what [add_checkpoint] records *)

Lemma bind_Ok_inv {A B} (m : M A) (f : A → M B) s b s' :
  (m ≫= f) s = (Ok b, s') →
  ∃ a s1, m s = (Ok a, s1) ∧ f a s1 = (Ok b, s').
Proof.
  rewrite bind_run. destruct (m s) as [[a|e] s1]; [eauto|discriminate].
Qed.

(** A table the status lists is never loaded by [get_dataframe]: the call
    returns the frame the context holds, or raises. *)
Lemma get_dataframe_registered_inv reg m tablename df s s' :
  _context s !! "_salient_tables" = Some (PyStatus m) →
  is_Some (m !! tablename) →
  get_dataframe reg tablename None s = (Ok df, s') →
  s' = s ∧ _context s !! tablename = Some (PyFrame df).
Proof.
  intros Hm Ht. unfold get_dataframe. rewrite bind_run.
  change (context_get tablename s)
    with (Ok (default PyNone (_context s !! tablename)), s).
  cbn beta iota. rewrite bind_run.
  assert (load_or_create_dataset_strict reg tablename false s
          = (Raise (ValueError [Lit "table "; Fmt tablename; Lit " already loaded"]), s))
    as Hload.
  { unfold load_or_create_dataset_strict.
    rewrite bind_run, (existing_table_status_run _ _ Hm).
    by rewrite bool_decide_true by done. }
  destruct (_context s !! tablename) as [v|] eqn:E; cbn [default from_option id].
  - destruct v; cbn [is_None]; rewrite ?Hload, ?ret_run; try discriminate.
    by intros [= -> ->].
  - cbn [is_None]. by rewrite Hload.
Qed.

Lemma write_df_run df table_name name s :
  _write_df df table_name name s
  = (Ok tt,
     {| _context := _context s;
        checkpoint :=
          {| last_checkpoint := last_checkpoint (checkpoint s);
             checkpoints := checkpoints (checkpoint s);
             store := <[pipeline_table_key table_name name := df]>
                        (store (checkpoint s)) |} |}).
Proof. done. Qed.

Lemma set_last_checkpoint_run key value s :
  set_last_checkpoint key value s
  = (Ok tt,
     {| _context := _context s;
        checkpoint :=
          {| last_checkpoint := <[key := value]> (last_checkpoint (checkpoint s));
             checkpoints := checkpoints (checkpoint s);
             store := store (checkpoint s) |} |}).
Proof. done. Qed.

Lemma checkpoint_table_inv reg name t m s s' :
  _context s !! "_salient_tables" = Some (PyStatus m) →
  is_Some (m !! t) →
  checkpoint_table reg name t s = (Ok tt, s') →
  ∃ df, _context s !! t = Some (PyFrame df) ∧
    s' = {| _context := <["_salient_tables" := PyStatus (<[t := false]> m)]> (_context s);
            checkpoint :=
              {| last_checkpoint := <[t := name]> (last_checkpoint (checkpoint s));
                 checkpoints := checkpoints (checkpoint s);
                 store := <[pipeline_table_key t name := df]> (store (checkpoint s)) |} |}.
Proof.
  intros Hm Ht H. unfold checkpoint_table in H.
  apply bind_Ok_inv in H as (df & s1 & Hdf & H).
  apply (get_dataframe_registered_inv _ _ _ _ _ _ Hm Ht) in Hdf as [-> Hdf].
  exists df. split; [done|].
  rewrite bind_run, write_df_run, bind_run, set_last_checkpoint_run in H.
  rewrite set_table_status_run with (m := m) in H by done.
  by injection H as <-.
Qed.

Lemma checkpoint_loop reg name l :
  ∀ m s s',
    _context s !! "_salient_tables" = Some (PyStatus m) →
    Forall (λ t, is_Some (m !! t)) l →
    for_each l (checkpoint_table reg name) s = (Ok tt, s') →
    checkpoints (checkpoint s') = checkpoints (checkpoint s) ∧
    (∀ t, last_checkpoint (checkpoint s') !! t
          = if decide (t ∈ l) then Some name
            else last_checkpoint (checkpoint s) !! t) ∧
    (∀ t, t ∈ l →
          ∃ df, _context s !! t = Some (PyFrame df) ∧
                store (checkpoint s') !! pipeline_table_key t name = Some df) ∧
    (∀ k, (∀ t, t ∈ l → k ≠ pipeline_table_key t name) →
          store (checkpoint s') !! k = store (checkpoint s) !! k) ∧
    (∀ k, k ≠ "_salient_tables" → _context s' !! k = _context s !! k).
Proof.
  induction l as [|t0 l IH]; intros m s s' Hm Hl H.
  - cbn in H. injection H as <-. split; [done|]. split; [|split; [|done]].
    + intros t. by rewrite decide_False by apply not_elem_of_nil.
    + by intros t ?%elem_of_nil.
  - cbn [for_each] in H. apply bind_Ok_inv in H as ([] & s1 & Hbody & H).
    apply Forall_cons in Hl as [Ht0 Hl].
    destruct (checkpoint_table_inv _ _ _ _ _ _ Hm Ht0 Hbody) as (df0 & Hdf0 & ->).
    eapply (IH (<[t0 := false]> m)) in H as (Hlog & Hlast & Hstored & Hother & Hctx).
    + cbn in *. split; [done|]. split; [|split; [|split]].
      * intros t. rewrite Hlast. destruct (decide (t ∈ l)) as [Hin|Hin].
        { by rewrite decide_True by by right. }
        destruct (decide (t = t0)) as [->|Hne].
        { rewrite decide_True by left. apply lookup_insert_eq. }
        rewrite decide_False by by intros [?|?]%elem_of_cons.
        by apply lookup_insert_ne.
      * intros t Ht. destruct (decide (t ∈ l)) as [Hin|Hin].
        { destruct (Hstored t Hin) as (df & Hdf & Hst). exists df. split; [|done].
          destruct (decide ("_salient_tables" = t)) as [<-|Hne].
          - by rewrite lookup_insert_eq in Hdf.
          - by rewrite lookup_insert_ne in Hdf. }
        apply elem_of_cons in Ht as [->|Ht]; [|done].
        exists df0. split; [done|]. rewrite Hother.
        { apply lookup_insert_eq. }
        intros t Ht Heq. apply pipeline_table_key_inj_table in Heq. by subst.
      * intros k Hk. rewrite Hother.
        { apply lookup_insert_ne. intros Heq. apply (Hk t0); [left|done]. }
        intros t Ht. apply Hk. by right.
      * intros k Hk. rewrite Hctx by done. by apply lookup_insert_ne.
    + cbn. apply lookup_insert_eq.
    + eapply Forall_impl; [done|]. intros t Ht. cbn in Ht.
      destruct (decide (t0 = t)) as [->|Hne];
        [by rewrite lookup_insert_eq|by rewrite lookup_insert_ne].
Qed.

Lemma uncheckpointed_table_names_inv reg l s s' :
  uncheckpointed_table_names reg s = (Ok l, s') →
  s' = s ∧
  ∃ m, _context s !! "_salient_tables" = Some (PyStatus m) ∧
       ∀ t, t ∈ l ↔ m !! t = Some true ∧ t ∉ _TEMP_NAMES reg.
Proof.
  unfold uncheckpointed_table_names. intros H.
  apply bind_Ok_inv in H as (m & s1 & Hm & H).
  apply existing_table_status_inv in Hm as [-> Hm]. injection H as <- <-.
  split; [done|]. exists m. split; [done|]. intros t.
  rewrite list_elem_of_fmap. split.
  - intros ([t' b] & -> & Hin). apply elem_of_map_to_list in Hin.
    apply map_lookup_filter_Some in Hin as [Hin [-> Htemp]]. done.
  - intros [Ht Htemp]. exists (t, true). split; [done|].
    apply elem_of_map_to_list, map_lookup_filter_Some. done.
Qed.

Lemma add_checkpoint_inv reg name s s' :
  add_checkpoint reg name s = (Ok tt, s') →
  ∃ m, _context s !! "_salient_tables" = Some (PyStatus m) ∧
    checkpoints (checkpoint s')
    = (checkpoints (checkpoint s) ++ [last_checkpoint (checkpoint s')])%list ∧
    last_checkpoint (checkpoint s') !! "checkpoint_name" = Some name ∧
    (∀ t, m !! t = Some true → t ∉ _TEMP_NAMES reg →
          last_checkpoint (checkpoint s') !! t = Some name ∧
          ∃ df, _context s !! t = Some (PyFrame df) ∧
                store (checkpoint s') !! pipeline_table_key t name = Some df) ∧
    (∀ t, ¬ (m !! t = Some true ∧ t ∉ _TEMP_NAMES reg) →
          t ≠ "checkpoint_name" →
          last_checkpoint (checkpoint s') !! t = last_checkpoint (checkpoint s) !! t) ∧
    (∀ k, (∀ t, k ≠ pipeline_table_key t name) →
          store (checkpoint s') !! k = store (checkpoint s) !! k) ∧
    (∀ k, k ≠ "_salient_tables" → _context s' !! k = _context s !! k).
Proof.
  unfold add_checkpoint. intros H.
  apply bind_Ok_inv in H as (l & s1 & Hl & H).
  apply uncheckpointed_table_names_inv in Hl as [-> (m & Hm & Hl)].
  apply bind_Ok_inv in H as ([] & s1 & Hloop & H).
  apply (checkpoint_loop reg name l m) in Hloop
    as (Hlog & Hlast & Hstored & Hother & Hctx); [|done|]; last first.
  { apply Forall_forall. intros t Ht. apply Hl in Ht as [Ht _]. by rewrite Ht. }
  rewrite bind_run, set_last_checkpoint_run in H. injection H as <-. cbn.
  exists m. split; [done|]. split; [by rewrite Hlog|].
  split; [apply lookup_insert_eq|]. split; [|split; [|split]].
  - intros t Ht Htemp. assert (t ∈ l) as Hin by by apply Hl. split.
    + destruct (decide ("checkpoint_name" = t)) as [<-|Hne];
        [apply lookup_insert_eq|].
      rewrite lookup_insert_ne by done. rewrite Hlast. by rewrite decide_True.
    + by apply Hstored.
  - intros t Ht Hne. rewrite lookup_insert_ne by done. rewrite Hlast.
    rewrite decide_False; [done|]. intros Hin. by apply Ht, Hl.
  - intros k Hk. apply Hother. intros t _. apply Hk.
  - done.
Qed.

Lemma add_table_inv reg name content s s' :
  add_table reg name content None s = (Ok tt, s') →
  name ∉ _TEMP_NAMES reg →
  checkpoint s' = checkpoint s ∧
  ∃ m, _context s !! "_salient_tables" = Some (PyStatus m) ∧
       _context s' ⊆ <[name := content]>
                        (<["_salient_tables" := PyStatus (<[name := true]> m)]>
                           (_context s)).
Proof.
  unfold add_table. intros H Htemp. rewrite bool_decide_true in H by done.
  apply bind_Ok_inv in H as ([] & s1 & Hstatus & H).
  unfold set_table_status in Hstatus.
  apply bind_Ok_inv in Hstatus as (m & s2 & Hm & Hstatus).
  apply existing_table_status_inv in Hm as [-> Hm].
  rewrite setitem_run in Hstatus. injection Hstatus as <-.
  apply set_subseteq in H as [Hsub Hcp]. split; [done|]. by exists m.
Qed.

(** What [add_table] leaves for a later checkpoint to find: if the status
    is still in the context, it marks the table as edited, and the table,
    if still in the context, holds the new frame. *)
Lemma add_table_then_status reg name df s s' m' :
  add_table reg name (PyFrame df) None s = (Ok tt, s') →
  name ∉ _TEMP_NAMES reg →
  _context s' !! "_salient_tables" = Some (PyStatus m') →
  m' !! name = Some true ∧
  ∀ v, _context s' !! name = Some v → v = PyFrame df.
Proof.
  intros H Htemp Hm'. apply add_table_inv in H as [_ (m & Hm & Hsub)]; [|done].
  pose proof (lookup_weaken _ _ _ _ Hm' Hsub) as Hstatus.
  destruct (decide (name = "_salient_tables")) as [->|Hne].
  - by rewrite lookup_insert_eq in Hstatus.
  - rewrite lookup_insert_ne, lookup_insert_eq in Hstatus by done.
    injection Hstatus as <-. split; [apply lookup_insert_eq|].
    intros v Hv. pose proof (lookup_weaken _ _ _ _ Hv Hsub) as H.
    rewrite lookup_insert_eq in H. by injection H.
Qed.

(** ** [State.get_table]: reading back a checkpoint *)

Lemma find_checkpoint_app log x rest name :
  Forall (λ e, ∃ n, e !! "checkpoint_name" = Some n ∧ n ≠ name) log →
  x !! "checkpoint_name" = Some name →
  find_checkpoint (log ++ x :: rest) name = Ok (Some x).
Proof.
  intros Hlog Hx. induction Hlog as [|e log (n & He & Hn) _ IH]; cbn.
  - by rewrite Hx, decide_True.
  - by rewrite He, decide_False.
Qed.

Lemma read_df_run table_name name df s :
  store (checkpoint s) !! pipeline_table_key table_name name = Some df →
  _read_df table_name name s = (Ok (PyFrame df), s).
Proof.
  intros H. unfold _read_df. rewrite bind_run. cbn [read_checkpoint]. by rewrite H.
Qed.

Definition older_persons_frame : DataFrame :=
  {| index := [1; 2]%Z;
     columns := [("age", {| dtype_of := DInt64; values := [CNum 31; CNum 42] |})] |}.

(** C4, as stated, fails: a table replaced with [set] is not marked as
    edited, so the second checkpoint does not write it and holds the
    version of the first for current; [get_table] for the first checkpoint
    then returns the frame in the context, which is the new one. *)
Lemma get_table_returns_mutated_version :
  ∃ s1 s2 s3 s4,
    add_table empty_registry "persons" (PyFrame persons_frame) None fresh_state
    = (Ok tt, s1) ∧
    add_checkpoint empty_registry "C1" s1 = (Ok tt, s2) ∧
    set empty_registry "persons" (PyFrame older_persons_frame) s2 = (Ok tt, s3) ∧
    add_checkpoint empty_registry "C2" s3 = (Ok tt, s4) ∧
    store (checkpoint s4) !! "persons/C1" = Some persons_frame ∧
    get_table "persons" (Some "C1") s4 = (Ok (PyFrame older_persons_frame), s4) ∧
    older_persons_frame ≠ persons_frame.
Proof.
  do 4 eexists.
  split; [vm_compute; reflexivity|]. split; [vm_compute; reflexivity|].
  split; [vm_compute; reflexivity|]. split; [vm_compute; reflexivity|].
  split; [by vm_compute|]. split; [by vm_compute|done].
Qed.

(** C4 (amended).  Write table [T] with [add_table], checkpoint as [C1],
    replace [T] with [add_table], which marks it as edited, checkpoint as
    [C2]: [get_table(T, checkpoint_name=C1)] then returns the frame
    written first, not the current one.  [T] is a table that is
    checkpointed (not a temporary name), [C1] is a new name in the log and
    differs from [C2], and neither name is empty or contains the slash
    that separates table and checkpoint in a storage key. *)
Theorem get_table_returns_checkpointed_version
    reg T C1 C2 v1 v2 s s1 s2 s3 s4 :
  T ∉ _TEMP_NAMES reg →
  C1 ≠ C2 → C1 ≠ "" → C2 ≠ "" →
  has_slash C1 = false → has_slash C2 = false →
  Forall (λ e, ∃ n, e !! "checkpoint_name" = Some n ∧ n ≠ C1)
    (checkpoints (checkpoint s)) →
  add_table reg T (PyFrame v1) None s = (Ok tt, s1) →
  add_checkpoint reg C1 s1 = (Ok tt, s2) →
  add_table reg T (PyFrame v2) None s2 = (Ok tt, s3) →
  add_checkpoint reg C2 s3 = (Ok tt, s4) →
  get_table T (Some C1) s4 = (Ok (PyFrame v1), s4).
Proof.
  intros Htemp Hne HC1 HC2 Hslash1 Hslash2 Hlog Hadd1 Hcp1 Hadd2 Hcp2.
  destruct (add_checkpoint_inv _ _ _ _ Hcp1)
    as (m1 & Hm1 & Hlog2 & Hname2 & Hwritten2 & _ & _ & _).
  destruct (add_table_then_status _ _ _ _ _ _ Hadd1 Htemp Hm1) as [HT1 Hv1].
  destruct (Hwritten2 T HT1 Htemp) as (Hlast2 & df & Hdf & Hstore2).
  apply Hv1 in Hdf as [= ->].
  destruct (add_table_inv _ _ _ _ _ Hadd1 Htemp) as [Hcp01 _].
  destruct (add_table_inv _ _ _ _ _ Hadd2 Htemp) as [Hcp23 _].
  destruct (add_checkpoint_inv _ _ _ _ Hcp2)
    as (m3 & Hm3 & Hlog4 & Hname4 & Hwritten4 & _ & Hstore4 & _).
  destruct (add_table_then_status _ _ _ _ _ _ Hadd2 Htemp Hm3) as [HT3 _].
  destruct (Hwritten4 T HT3 Htemp) as (Hlast4 & _).
  unfold get_table. rewrite bind_run. cbn [read_checkpoint].
  rewrite bool_decide_false by by rewrite Hlast4.
  rewrite bind_run, ret_run, bind_run.
  rewrite Hlog4, Hcp23, Hlog2, Hcp01, <- app_assoc.
  unfold lift. cbn [app].
  rewrite (find_checkpoint_app _ _ _ _ Hlog Hname2), Hlast2.
  destruct C1 as [|a C1]; [done|].
  rewrite decide_False by (rewrite Hlast4; congruence).
  apply read_df_run. rewrite Hstore4, Hcp23; [done|].
  intros t. by apply pipeline_table_key_checkpoints.
Qed.

Lemma get_table_returns_checkpointed_version_witness :
  ∃ s1 s2 s3 s4,
    add_table empty_registry "persons" (PyFrame persons_frame) None fresh_state
    = (Ok tt, s1) ∧
    add_checkpoint empty_registry "C1" s1 = (Ok tt, s2) ∧
    add_table empty_registry "persons" (PyFrame older_persons_frame) None s2
    = (Ok tt, s3) ∧
    add_checkpoint empty_registry "C2" s3 = (Ok tt, s4) ∧
    _context s4 !! "persons" = Some (PyFrame older_persons_frame) ∧
    get_table "persons" (Some "C1") s4 = (Ok (PyFrame persons_frame), s4).
Proof.
  do 4 eexists.
  split; [vm_compute; reflexivity|]. split; [vm_compute; reflexivity|].
  split; [vm_compute; reflexivity|]. split; [vm_compute; reflexivity|].
  split; [by vm_compute|].
  eapply (get_table_returns_checkpointed_version empty_registry
            "persons" "C1" "C2" persons_frame older_persons_frame fresh_state);
    [by vm_compute|done|done|done|done|done|by constructor
    |vm_compute; reflexivity|vm_compute; reflexivity
    |vm_compute; reflexivity|vm_compute; reflexivity].
Defined.

(** * More of [State]: what the operations do to each other *)

(** ** [State.drop] *)

Lemma cascades_cases reg c k d :
  cascades reg c k d → d = k ∨ depends_on reg k d.
Proof.
  destruct 1 as [|k i d _ Hi Hid]; [by left|right]. by eapply cascades_depends.
Qed.

(** X1.  [drop key] raises [KeyError] and leaves the state alone when the
    key is not in the context.  When it is, [drop] succeeds: the key and
    each of its direct dependents are absent afterwards, a key that has
    disappeared is [key] or is transitively predicated on it, and any
    other key holds what it held. *)
Theorem drop_removes_present_dependents reg s key :
  (_context s !! key = None → drop reg key s = (Raise (KeyError key), s)) ∧
  (is_Some (_context s !! key) →
   ∃ c', drop reg key s = (Ok tt, with_context s c') ∧
     c' !! key = None ∧
     (∀ d, d ∈ predicated_on reg key → c' !! d = None) ∧
     (∀ d, is_Some (_context s !! d) → c' !! d = None →
           d = key ∨ depends_on reg key d) ∧
     (∀ d, d ≠ key → ¬ depends_on reg key d → c' !! d = _context s !! d)).
Proof.
  split.
  - intros Hkey. unfold drop. cbn [drop_rec]. rewrite bind_run.
    unfold delitem. rewrite bind_run. cbn [read_context]. by rewrite Hkey.
  - intros Hkey.
    destruct (drop_spec reg s key Hkey) as (c' & Hrun & Hsub & Hgone & Hwhy).
    exists c'. split; [done|]. split; [|split; [|split]].
    + apply Hgone. by apply cascades_here.
    + intros d Hd. destruct (_context s !! d) as [v|] eqn:E.
      * apply Hgone. eapply cascades_step; [done..|].
        apply cascades_here. by rewrite E.
      * by eapply lookup_weaken_None.
    + intros d Hd Hd'. by eapply cascades_cases, Hwhy.
    + intros d Hne Hdep. destruct (c' !! d) as [v|] eqn:E.
      * symmetry. by eapply lookup_weaken.
      * destruct (_context s !! d) as [v|] eqn:E'; [|done].
        destruct (cascades_cases reg _ _ _ (Hwhy d ltac:(by rewrite E') E)); done.
Qed.

(** ** [State.set] and [State.get] *)

(** X2.  A value other than [None] that [set] stores under a key is what
    [get] returns for it afterwards (a table as it is, anything else after
    token substitution), whatever the default, the filesystem object and
    the loaders: provided the key is not predicated on itself, in which
    case the cascade may remove it again. *)
Theorem get_returns_what_set_stored reg fmt s key value dflt :
  value ≠ PyNone →
  ¬ depends_on reg key key →
  ∃ s1, set reg key value s = (Ok tt, s1) ∧
        _context s1 !! key = Some value ∧
        get reg fmt key dflt s1 = (finish fmt (_context s1) value, s1).
Proof.
  intros Hvalue Hself.
  destruct (set_keeps reg s key value) as (c1 & Hset & Hkeep).
  exists (with_context s c1). split; [done|].
  assert (c1 !! key = Some value) as Hkey
    by (rewrite (Hkeep key Hself); apply lookup_insert_eq).
  split; [done|]. rewrite get_run. unfold found. cbn [_context with_context].
  rewrite Hkey. cbn [default from_option id].
  assert (is_None value = false) as Hnone
    by (destruct value; [by destruct Hvalue|done..]).
  by repeat (rewrite Hnone; cbn beta iota).
Qed.

Lemma chain_registry_K_acyclic : ¬ depends_on chain_registry "K" "K".
Proof.
  intros H. apply depends_on_inv in H as (i & Hi & H). vm_compute in Hi.
  apply list_elem_of_singleton in Hi as ->. destruct H as [|H]; [done|].
  apply depends_on_inv in H as (i & Hi & H). vm_compute in Hi.
  apply list_elem_of_singleton in Hi as ->. destruct H as [|H]; [done|].
  apply depends_on_inv in H as (i & Hi & H). vm_compute in Hi.
  by apply elem_of_nil in Hi.
Qed.

Lemma get_returns_what_set_stored_witness :
  ∃ s1, set chain_registry "K" (PyInt 1) (state_of {[ "A" := PyInt 7 ]})
        = (Ok tt, s1) ∧
        _context s1 !! "K" = Some (PyInt 1) ∧
        get chain_registry no_tokens "K" NO_DEFAULT s1
        = (finish no_tokens (_context s1) (PyInt 1), s1).
Proof.
  apply (get_returns_what_set_stored chain_registry no_tokens
           (state_of {[ "A" := PyInt 7 ]}) "K" (PyInt 1) NO_DEFAULT).
  - done.
  - exact chain_registry_K_acyclic.
Defined.

(** ** The table registry *)

Lemma registered_tables_run m s :
  _context s !! "_salient_tables" = Some (PyStatus m) →
  registered_tables s
  = (Ok (filter (λ name, is_Some (_context s !! name)) (map_to_list m).*1), s).
Proof.
  intros Hm. unfold registered_tables.
  by rewrite bind_run, (existing_table_status_run _ _ Hm).
Qed.

Lemma uncheckpointed_table_names_run reg m s :
  _context s !! "_salient_tables" = Some (PyStatus m) →
  ∃ l, uncheckpointed_table_names reg s = (Ok l, s) ∧
       ∀ t, t ∈ l ↔ m !! t = Some true ∧ t ∉ _TEMP_NAMES reg.
Proof.
  intros Hm. unfold uncheckpointed_table_names.
  rewrite bind_run, (existing_table_status_run _ _ Hm), ret_run.
  eexists. split; [done|]. intros t. rewrite list_elem_of_fmap. split.
  - intros ([t' b] & -> & Hin). apply elem_of_map_to_list in Hin.
    apply map_lookup_filter_Some in Hin as [Hin [-> Htemp]]. done.
  - intros [Ht Htemp]. exists (t, true). split; [done|].
    apply elem_of_map_to_list, map_lookup_filter_Some. done.
Qed.

(** X3.  After [add_table] has stored a frame under a name that is not
    temporary, the table is registered ([is_table], [registered_tables]),
    it is among the tables the next checkpoint has to write, and
    [get_dataframe] returns that frame without loading anything.  The
    registry must exist, and the write must not invalidate the table or
    the registry through the predicates. *)
Theorem add_table_registers reg m name df s :
  _context s !! "_salient_tables" = Some (PyStatus m) →
  name ∉ _TEMP_NAMES reg →
  name ≠ "_salient_tables" →
  ¬ depends_on reg name name →
  ¬ depends_on reg name "_salient_tables" →
  ∃ s1 tables edited,
    add_table reg name (PyFrame df) None s = (Ok tt, s1) ∧
    get_dataframe reg name None s1 = (Ok df, s1) ∧
    is_table name s1 = (Ok true, s1) ∧
    registered_tables s1 = (Ok tables, s1) ∧ name ∈ tables ∧
    uncheckpointed_table_names reg s1 = (Ok edited, s1) ∧ name ∈ edited.
Proof.
  intros Hm Htemp Hname Hself Hstatus.
  destruct (add_table_stores reg m name (PyFrame df) s Hm Hname Hself Hstatus)
    as (s1 & Hadd & _ & Hdf & Hm1 & _).
  rewrite decide_False in Hm1 by done.
  destruct (uncheckpointed_table_names_run reg _ _ Hm1) as (edited & Hedited & Hin).
  eexists s1, _, edited. split; [done|].
  split; [by apply get_dataframe_run|]. split.
  { rewrite (is_table_run _ _ _ Hm1), bool_decide_true; [done|].
    by rewrite lookup_insert_eq. }
  split; [by apply registered_tables_run|]. split.
  { apply list_elem_of_filter. split; [by rewrite Hdf|].
    apply list_elem_of_fmap. exists (name, true). split; [done|].
    apply elem_of_map_to_list, lookup_insert_eq. }
  split; [done|]. apply Hin. split; [apply lookup_insert_eq|done].
Qed.

Lemma add_table_registers_witness :
  ∃ s1 tables edited,
    add_table empty_registry "persons" (PyFrame persons_frame) None fresh_state
    = (Ok tt, s1) ∧
    get_dataframe empty_registry "persons" None s1 = (Ok persons_frame, s1) ∧
    is_table "persons" s1 = (Ok true, s1) ∧
    registered_tables s1 = (Ok tables, s1) ∧ "persons" ∈ tables ∧
    uncheckpointed_table_names empty_registry s1 = (Ok edited, s1) ∧
    "persons" ∈ edited.
Proof.
  apply (add_table_registers empty_registry ∅ "persons" persons_frame fresh_state).
  - reflexivity.
  - vm_compute. set_solver.
  - done.
  - apply empty_registry_independent.
  - apply empty_registry_independent.
Defined.

(** A registry whose only entry marks ["trips_merged"] as temporary, as
    the [temp_table] decorator does. *)
Definition temp_registry : Registry := {|
  _RUNNABLE_STEPS := ∅;
  _LOADABLE_TABLES := ∅;
  _LOADABLE_OBJECTS := ∅;
  _PREDICATES := ∅;
  _TEMP_NAMES := {[ "trips_merged" ]}
|}.

Lemma temp_registry_independent k d : ¬ depends_on temp_registry k d.
Proof.
  intros H. apply depends_on_inv in H as (i & Hi & _). vm_compute in Hi.
  by apply elem_of_nil in Hi.
Qed.

(** X4.  [add_table] under a temporary name, with [salient] left to its
    default, caches the content but does not register it: [is_table] is
    still false for the name, no checkpoint will write it, and
    [drop_table] finds nothing to drop, so the content stays in the
    context. *)
Theorem temporary_table_is_not_registered reg m name content s :
  _context s !! "_salient_tables" = Some (PyStatus m) →
  name ∈ _TEMP_NAMES reg →
  m !! name = None →
  last_checkpoint (checkpoint s) !! name = None →
  name ≠ "_salient_tables" →
  ¬ depends_on reg name name →
  ¬ depends_on reg name "_salient_tables" →
  ∃ s1 edited,
    add_table reg name content None s = (Ok tt, s1) ∧
    _context s1 !! name = Some content ∧
    is_table name s1 = (Ok false, s1) ∧
    uncheckpointed_table_names reg s1 = (Ok edited, s1) ∧ (name ∉ edited) ∧
    drop_table name s1 = (Ok tt, s1).
Proof.
  intros Hm Htemp Hnew Hlast Hname Hself Hstatus.
  destruct (add_table_stores reg m name content s Hm Hname Hself Hstatus)
    as (s1 & Hadd & Hcp & Hcontent & Hm1 & _).
  rewrite decide_True in Hm1 by done.
  destruct (uncheckpointed_table_names_run reg _ _ Hm1) as (edited & Hedited & Hin).
  assert (is_table name s1 = (Ok false, s1)) as Htable.
  { rewrite (is_table_run _ _ _ Hm1), bool_decide_false; [done|].
    rewrite Hnew. by intros [? ?]. }
  exists s1, edited. split; [done|]. split; [done|]. split; [done|].
  split; [done|]. split.
  { intros [_ Hno]%Hin. done. }
  unfold drop_table. rewrite bind_run, Htable. cbn beta iota.
  rewrite bind_run, ret_run, bind_run. cbn [read_checkpoint].
  rewrite Hcp, Hlast. rewrite bool_decide_false by (by intros [? ?]). done.
Qed.

Lemma temporary_table_is_not_registered_witness :
  ∃ s1 edited,
    add_table temp_registry "trips_merged" (PyFrame persons_frame) None fresh_state
    = (Ok tt, s1) ∧
    _context s1 !! "trips_merged" = Some (PyFrame persons_frame) ∧
    is_table "trips_merged" s1 = (Ok false, s1) ∧
    uncheckpointed_table_names temp_registry s1 = (Ok edited, s1) ∧
    ("trips_merged" ∉ edited) ∧
    drop_table "trips_merged" s1 = (Ok tt, s1).
Proof.
  apply (temporary_table_is_not_registered temp_registry ∅ "trips_merged"
           (PyFrame persons_frame) fresh_state).
  - reflexivity.
  - vm_compute. set_solver.
  - reflexivity.
  - reflexivity.
  - done.
  - apply temp_registry_independent.
  - apply temp_registry_independent.
Defined.

(** ** [State.get_dataframe] and [State._load_or_create_dataset] *)

Definition already_loaded (table_name : string) : exn :=
  ValueError [Lit "table "; Fmt table_name; Lit " already loaded"].

Definition has_no_loading_function (table_name : string) : exn :=
  ValueError [Lit "table "; Fmt table_name; Lit " has no loading function"].

Lemma context_get_run key s :
  context_get key s = (Ok (default PyNone (_context s !! key)), s).
Proof. done. Qed.

(** A table that is registered but has no value in the context is never
    loaded again. *)
Lemma get_dataframe_already_loaded reg m name columns s :
  _context s !! "_salient_tables" = Some (PyStatus m) →
  default PyNone (_context s !! name) = PyNone →
  is_Some (m !! name) →
  get_dataframe reg name columns s = (Raise (already_loaded name), s).
Proof.
  intros Hm Hname Hreg. unfold get_dataframe.
  rewrite bind_run, context_get_run, Hname. cbn [is_None].
  unfold load_or_create_dataset_strict.
  rewrite !bind_run, (existing_table_status_run _ _ Hm).
  by rewrite bool_decide_true.
Qed.

(** X5.  [get_dataframe] on a table that has no value in the context:
    if the table is registered it raises [ValueError] "table ... already
    loaded", and if it is neither registered nor loadable, [ValueError]
    "table ... has no loading function"; both name the table and leave the
    state as it was.  If the table is not registered but loadable, the
    loader is called: when it returns [None], [get_dataframe] raises
    [KeyError] with the name of the table, and when it raises, its
    exception is passed on; the state is then as the loader left it. *)
Theorem get_dataframe_of_missing_table reg m name columns s :
  _context s !! "_salient_tables" = Some (PyStatus m) →
  default PyNone (_context s !! name) = PyNone →
  (is_Some (m !! name) →
   get_dataframe reg name columns s = (Raise (already_loaded name), s)) ∧
  (m !! name = None → _LOADABLE_TABLES reg !! name = None →
   get_dataframe reg name columns s = (Raise (has_no_loading_function name), s)) ∧
  (∀ (f : loader) s', m !! name = None → _LOADABLE_TABLES reg !! name = Some f →
     f s = (Ok PyNone, s') →
     get_dataframe reg name columns s = (Raise (KeyError name), s')) ∧
  (∀ (f : loader) e s', m !! name = None → _LOADABLE_TABLES reg !! name = Some f →
     f s = (Raise e, s') →
     get_dataframe reg name columns s = (Raise e, s')) ∧
  names (already_loaded name) name ∧ names (has_no_loading_function name) name.
Proof.
  intros Hm Hname. split; [by apply get_dataframe_already_loaded|].
  assert (∀ f : loader, m !! name = None → _LOADABLE_TABLES reg !! name = Some f →
            get_dataframe reg name columns s
            = match f s with
              | (Ok PyNone, s') => (Raise (KeyError name), s')
              | (Ok t, s') =>
                  ((t ← (add_table reg name t None ;; mret t);
                    match t with
                    | PyNone => raise (KeyError name)
                    | PyFrame df =>
                        match columns with
                        | None => mret df
                        | Some names =>
                            match select_columns df names with
                            | Some df' => mret df'
                            | None => raise (KeyError "columns")
                            end
                        end
                    | _ => raise (TypeError [Lit "cannot convert "; Fmt name;
                                             Lit " to DataFrame"])
                    end) : M DataFrame) s'
              | (Raise e, s') => (Raise e, s')
              end) as Hload.
  { intros f Hreg Hf. unfold get_dataframe.
    rewrite bind_run, context_get_run, Hname. cbn [is_None].
    unfold load_or_create_dataset_strict.
    rewrite !bind_run, (existing_table_status_run _ _ Hm), Hreg.
    rewrite bool_decide_false by (by intros [? ?]). cbn [andb]. rewrite Hf.
    rewrite !bind_run. unfold call_loader.
    destruct (f s) as [[t|e] s']; [|done].
    destruct t; cbn [is_None]; by rewrite ?bind_run, ?ret_run. }
  split; [|split; [|split]].
  - intros Hreg Hnone. unfold get_dataframe.
    rewrite bind_run, context_get_run, Hname. cbn [is_None].
    unfold load_or_create_dataset_strict.
    rewrite !bind_run, (existing_table_status_run _ _ Hm), Hreg.
    rewrite bool_decide_false by (by intros [? ?]). cbn [andb]. by rewrite Hnone.
  - intros f s' Hreg Hf Hrun. by rewrite (Hload f Hreg Hf), Hrun.
  - intros f e s' Hreg Hf Hrun. by rewrite (Hload f Hreg Hf), Hrun.
  - split; cbn; find_field.
Qed.

(** A loader that finds nothing to load. *)
Definition households_registry : Registry := {|
  _RUNNABLE_STEPS := ∅;
  _LOADABLE_TABLES := {[ "households" := mret PyNone ]};
  _LOADABLE_OBJECTS := ∅;
  _PREDICATES := ∅;
  _TEMP_NAMES := ∅
|}.

Lemma get_dataframe_of_missing_table_witness :
  get_dataframe households_registry "persons" None fresh_state
  = (Raise (has_no_loading_function "persons"), fresh_state) ∧
  get_dataframe households_registry "households" None fresh_state
  = (Raise (KeyError "households"), fresh_state).
Proof.
  destruct (get_dataframe_of_missing_table households_registry ∅ "persons" None
              fresh_state eq_refl eq_refl) as (_ & Hnone & _).
  destruct (get_dataframe_of_missing_table households_registry ∅ "households" None
              fresh_state eq_refl eq_refl) as (_ & _ & Hloader & _).
  split; [by apply Hnone|]. by apply (Hloader (mret PyNone)).
Defined.

(** The lookups of the context [drop] leaves behind. *)
Lemma drop_keeps reg s key :
  is_Some (_context s !! key) →
  ∃ c', drop reg key s = (Ok tt, with_context s c') ∧
        c' !! key = None ∧
        ∀ d, d ≠ key → ¬ depends_on reg key d → c' !! d = _context s !! d.
Proof.
  intros Hkey.
  destruct (drop_spec reg s key Hkey) as (c' & Hrun & Hsub & Hgone & Hwhy).
  exists c'. split; [done|]. split; [by apply Hgone, cascades_here|].
  intros d Hne Hdep. destruct (c' !! d) as [v|] eqn:E.
  - symmetry. by eapply lookup_weaken.
  - destruct (_context s !! d) as [v|] eqn:E'; [|done].
    destruct (cascades_cases reg _ _ _ (Hwhy d ltac:(by rewrite E') E)); done.
Qed.

(** X6.  [drop] takes a registered table out of the context but not out
    of the registry.  Afterwards the table is still a table for
    [is_table] while [registered_tables] no longer lists it,
    [get_dataframe] raises "already loaded" whatever loaders are
    registered, and [get_table], unless the table was marked as dropped
    in the latest checkpoint, returns [None]. *)
Theorem dropped_table_stays_registered reg m name s :
  _context s !! "_salient_tables" = Some (PyStatus m) →
  is_Some (m !! name) →
  is_Some (_context s !! name) →
  name ≠ "_salient_tables" →
  ¬ depends_on reg name "_salient_tables" →
  ∃ s1 tables,
    drop reg name s = (Ok tt, s1) ∧
    is_table name s1 = (Ok true, s1) ∧
    registered_tables s1 = (Ok tables, s1) ∧ (name ∉ tables) ∧
    (∀ reg' columns,
       get_dataframe reg' name columns s1 = (Raise (already_loaded name), s1)) ∧
    (last_checkpoint (checkpoint s) !! name ≠ Some "" →
     get_table name None s1 = (Ok PyNone, s1)).
Proof.
  intros Hm Hreg Hname Hne Hstatus.
  destruct (drop_keeps reg s name Hname) as (c1 & Hdrop & Hgone & Hkeep).
  assert (c1 !! "_salient_tables" = Some (PyStatus m)) as Hm1
    by (rewrite Hkeep by done; done).
  set (s1 := with_context s c1).
  assert (is_table name s1 = (Ok true, s1)) as Htable
    by (by rewrite (is_table_run m), bool_decide_true).
  eexists s1, _. split; [done|]. split; [done|].
  split; [by apply (registered_tables_run m)|]. split.
  { intros [[v Hv] _]%list_elem_of_filter. cbn in Hv. congruence. }
  split.
  { intros reg' columns. apply (get_dataframe_already_loaded reg' m); [done| |done].
    cbn. by rewrite Hgone. }
  intros Hlast. unfold get_table. rewrite bind_run. cbn [read_checkpoint].
  rewrite bind_run. cbn [checkpoint s1 with_context].
  destruct (last_checkpoint (checkpoint s) !! name) as [last|] eqn:E.
  - rewrite bool_decide_false by done. rewrite ret_run.
    destruct last as [|a last]; [done|].
    rewrite context_get_run. cbn. by rewrite Hgone.
  - rewrite bool_decide_true by done. rewrite Htable.
    rewrite context_get_run. cbn. by rewrite Hgone.
Qed.

Lemma dropped_table_stays_registered_witness :
  ∃ s1 tables,
    drop empty_registry "tours" tours_state = (Ok tt, s1) ∧
    is_table "tours" s1 = (Ok true, s1) ∧
    registered_tables s1 = (Ok tables, s1) ∧ ("tours" ∉ tables) ∧
    (∀ reg' columns,
       get_dataframe reg' "tours" columns s1
       = (Raise (already_loaded "tours"), s1)) ∧
    (last_checkpoint (checkpoint tours_state) !! "tours" ≠ Some "" →
     get_table "tours" None s1 = (Ok PyNone, s1)).
Proof.
  apply (dropped_table_stays_registered empty_registry {[ "tours" := true ]}
           "tours" tours_state).
  - reflexivity.
  - by eexists.
  - by eexists.
  - done.
  - apply empty_registry_independent.
Defined.

(** X7.  [get_dataframe] on a table that is neither in the context nor
    registered calls the loader registered for it, stores the frame the
    loader returns with [add_table], and returns it, whether or not the
    loader has stored it already.  The next [get_dataframe] finds the
    frame in the context and returns it whatever loaders are registered.
    The loader must leave the registry of tables in the context. *)
Theorem get_dataframe_loads_once reg m m0 name (f : loader) df s s0 :
  _context s !! "_salient_tables" = Some (PyStatus m) →
  default PyNone (_context s !! name) = PyNone →
  m !! name = None →
  _LOADABLE_TABLES reg !! name = Some f →
  f s = (Ok (PyFrame df), s0) →
  _context s0 !! "_salient_tables" = Some (PyStatus m0) →
  name ≠ "_salient_tables" →
  ¬ depends_on reg name name →
  ¬ depends_on reg name "_salient_tables" →
  ∃ s1, get_dataframe reg name None s = (Ok df, s1) ∧
        _context s1 !! name = Some (PyFrame df) ∧
        (name ∉ _TEMP_NAMES reg → is_table name s1 = (Ok true, s1)) ∧
        ∀ reg', get_dataframe reg' name None s1 = (Ok df, s1).
Proof.
  intros Hm Hname Hnew Hload Hf Hm0 Hne Hself Hstatus.
  destruct (add_table_stores reg m0 name (PyFrame df) s0 Hm0 Hne Hself Hstatus)
    as (s1 & Hadd & _ & Hdf & Hm1 & _).
  exists s1. split; [|split; [done|split]].
  - unfold get_dataframe. rewrite bind_run, context_get_run, Hname. cbn [is_None].
    unfold load_or_create_dataset_strict.
    rewrite !bind_run, (existing_table_status_run _ _ Hm), Hnew.
    rewrite bool_decide_false by (by intros [? ?]). cbn [andb]. rewrite Hload.
    rewrite !bind_run. unfold call_loader.
    rewrite Hf. cbn [is_None]. by rewrite bind_run, Hadd.
  - intros Htemp. rewrite decide_False in Hm1 by done.
    rewrite (is_table_run _ _ _ Hm1), bool_decide_true; [done|].
    by rewrite lookup_insert_eq.
  - intros reg'. by apply get_dataframe_run.
Qed.

(** A loader that stores its table before it returns it, as [persons]
    does. *)
Definition storing_loader : loader :=
  add_table empty_registry "persons" (PyFrame persons_frame) None ;;
  mret (PyFrame persons_frame).

Definition storing_registry : Registry := {|
  _RUNNABLE_STEPS := ∅;
  _LOADABLE_TABLES := {[ "persons" := storing_loader ]};
  _LOADABLE_OBJECTS := ∅;
  _PREDICATES := ∅;
  _TEMP_NAMES := ∅
|}.

Lemma storing_registry_independent k d : ¬ depends_on storing_registry k d.
Proof.
  intros H. apply depends_on_inv in H as (i & Hi & _). vm_compute in Hi.
  by apply elem_of_nil in Hi.
Qed.

Lemma get_dataframe_loads_once_witness :
  ∃ s1, get_dataframe storing_registry "persons" None fresh_state
        = (Ok persons_frame, s1) ∧
        _context s1 !! "persons" = Some (PyFrame persons_frame) ∧
        ("persons" ∉ _TEMP_NAMES storing_registry →
         is_table "persons" s1 = (Ok true, s1)) ∧
        ∀ reg', get_dataframe reg' "persons" None s1 = (Ok persons_frame, s1).
Proof.
  eapply (get_dataframe_loads_once storing_registry ∅ _ "persons"
            storing_loader persons_frame fresh_state).
  - reflexivity.
  - reflexivity.
  - reflexivity.
  - reflexivity.
  - vm_compute. reflexivity.
  - vm_compute. reflexivity.
  - done.
  - apply storing_registry_independent.
  - apply storing_registry_independent.
Defined.

(** ** [State.extend_table]: new columns, new tables *)

Lemma lookup_column_NoDup (cols : list (string * Series)) c col :
  NoDup cols.*1 → (c, col) ∈ cols → lookup_column cols c = Some col.
Proof.
  induction cols as [|[n col'] cols IH]; [by intros _ ?%elem_of_nil|].
  rewrite fmap_cons. cbn [fst]. intros [Hn Hnodup]%NoDup_cons Hin. cbn.
  apply elem_of_cons in Hin as [[= -> ->]|Hin]; [by rewrite decide_True|].
  rewrite decide_False; [by apply IH|]. intros ->. apply Hn.
  apply list_elem_of_fmap. by exists (c, col).
Qed.

(** [df[names]] for names picked among the columns of [df]. *)
Lemma select_columns_filter (P : string → Prop) `{!∀ n, Decision (P n)} df :
  NoDup (column_names df) →
  select_columns df (filter P (column_names df))
  = Some {| index := index df; columns := filter (λ '(n, _), P n) (columns df) |}.
Proof.
  intros Hnodup. unfold select_columns, column_names.
  rewrite <- names_filter.
  assert (mapM (λ name, (λ col, (name, col)) <$> lookup_column (columns df) name)
            (filter (λ '(n, _), P n) (columns df)).*1
          = Some (filter (λ '(n, _), P n) (columns df))) as ->; [|done].
  apply mapM_Some, Forall2_fmap_l, Forall_Forall2_diag, Forall_forall.
  intros [n col] [_ Hin]%list_elem_of_filter. cbn.
  by rewrite (lookup_column_NoDup _ _ _ Hnodup Hin).
Qed.

Lemma lookup_column_filter_out (P : string → Prop) `{!∀ n, Decision (P n)}
    (cols : list (string * Series)) c :
  P c → lookup_column (filter (λ '(n, _), P n) cols) c = lookup_column cols c.
Proof.
  intros Hc. induction cols as [|[n col] cols IH]; [done|].
  rewrite filter_cons. cbn. destruct (decide (P n)) as [Hn|Hn].
  - cbn. by rewrite IH.
  - rewrite decide_False; [done|]. by intros ->.
Qed.

(** X8.  [extend_table] with [axis=1] on a registered table held in the
    context: a frame with another index gives [AssertionError] and an
    untouched state; a frame with the same index adds, after the columns
    of the table, the columns whose names the table does not have yet.  A
    column of the new frame that the table already has is ignored, so
    every existing column keeps its values. *)
Theorem extend_table_columns reg m s table_name table_df df :
  _context s !! "_salient_tables" = Some (PyStatus m) →
  is_Some (m !! table_name) →
  _context s !! table_name = Some (PyFrame table_df) →
  NoDup (column_names df) →
  (index table_df ≠ index df →
   extend_table reg table_name df 1 s = (Raise AssertionError, s)) ∧
  (index table_df = index df →
   ∃ df' s', extend_table reg table_name df 1 s = (Ok df', s') ∧
     index df' = index table_df ∧
     columns df'
     = (columns table_df
        ++ filter (λ '(c, _), c ∉ column_names table_df) (columns df))%list ∧
     (∀ c, c ∈ column_names table_df →
           lookup_column (columns df') c = lookup_column (columns table_df) c) ∧
     (∀ c, c ∉ column_names table_df →
           lookup_column (columns df') c = lookup_column (columns df) c)).
Proof.
  intros Hm Htable Hdf Hnodup.
  assert (extend_table reg table_name df 1 s =
          if decide (index table_df = index df) then
            match add_table reg table_name
                    (PyFrame (concat_columns table_df
                       {| index := index df;
                          columns := filter (λ '(c, _), c ∉ column_names table_df)
                                       (columns df) |})) None s with
            | (Ok _, s') =>
                (Ok (concat_columns table_df
                       {| index := index df;
                          columns := filter (λ '(c, _), c ∉ column_names table_df)
                                       (columns df) |}), s')
            | (Raise e, s') => (Raise e, s')
            end
          else (Raise AssertionError, s)) as ->.
  { unfold extend_table.
    rewrite bind_run, assert_run, bool_decide_true by (right; left).
    rewrite bind_run, (is_table_run _ _ _ Hm), bool_decide_true by done.
    rewrite !bind_run, (get_dataframe_run _ _ _ _ Hdf).
    rewrite decide_False by done. rewrite bind_run, assert_run.
    case_bool_decide as Hindex; [|by rewrite decide_False].
    rewrite decide_True by done.
    rewrite (list_filter_iff _ (λ c, c ∉ column_names table_df)); cycle 1.
    { intros c. unfold has_column. by case_bool_decide. }
    rewrite select_columns_filter by done. by rewrite ret_run, bind_run. }
  split.
  - intros Hindex. by rewrite decide_False.
  - intros Hindex. rewrite decide_True by done.
    destruct (add_table_succeeds reg m table_name
                (PyFrame (concat_columns table_df
                   {| index := index df;
                      columns := filter (λ '(c, _), c ∉ column_names table_df)
                                   (columns df) |})) s Hm) as [s' ->].
    eexists _, s'. split; [done|]. split; [done|]. split; [done|].
    cbn [concat_columns columns]. split.
    + intros c Hc. rewrite lookup_column_app.
      by destruct (lookup_column_is_Some _ _ Hc) as [col ->].
    + intros c Hc. rewrite lookup_column_app, lookup_column_None by done.
      by apply (lookup_column_filter_out (λ c, c ∉ column_names table_df)).
Qed.

(** A column for the two tours, and a frame with a row too many. *)
Definition tour_modes : DataFrame :=
  {| index := [1; 2]%Z;
     columns :=
       [("mode", {| dtype_of := DObject; values := [CStr "walk"; CStr "bike"] |});
        ("purpose", {| dtype_of := DObject; values := [CStr "shop"; CStr "shop"] |})] |}.

Lemma extend_table_columns_witness :
  (index tours_frame ≠ index new_tours →
   extend_table empty_registry "tours" new_tours 1 tours_state
   = (Raise AssertionError, tours_state)) ∧
  (index tours_frame = index tour_modes →
   ∃ df' s', extend_table empty_registry "tours" tour_modes 1 tours_state
             = (Ok df', s') ∧
     index df' = index tours_frame ∧
     columns df'
     = (columns tours_frame
        ++ filter (λ '(c, _), c ∉ column_names tours_frame) (columns tour_modes))%list ∧
     (∀ c, c ∈ column_names tours_frame →
           lookup_column (columns df') c = lookup_column (columns tours_frame) c) ∧
     (∀ c, c ∉ column_names tours_frame →
           lookup_column (columns df') c = lookup_column (columns tour_modes) c)).
Proof.
  split.
  - apply (extend_table_columns empty_registry {[ "tours" := true ]} tours_state
             "tours" tours_frame new_tours);
      [reflexivity|by eexists|reflexivity|].
    apply (bool_decide_unpack _). by vm_compute.
  - apply (extend_table_columns empty_registry {[ "tours" := true ]} tours_state
             "tours" tours_frame tour_modes);
      [reflexivity|by eexists|reflexivity|].
    apply (bool_decide_unpack _). by vm_compute.
Defined.

(** X9.  [extend_table] refuses an axis other than 0 and 1 before it
    looks at anything else.  For a name that is not registered it stores
    the frame as it is, under either axis, and returns it: the table is
    created. *)
Theorem extend_table_creates reg m s table_name df axis :
  (axis ≠ 0%Z → axis ≠ 1%Z →
   extend_table reg table_name df axis s = (Raise AssertionError, s)) ∧
  (_context s !! "_salient_tables" = Some (PyStatus m) →
   m !! table_name = None →
   axis = 0%Z ∨ axis = 1%Z →
   ∃ s', add_table reg table_name (PyFrame df) None s = (Ok tt, s') ∧
         extend_table reg table_name df axis s = (Ok df, s')).
Proof.
  split.
  - intros H0 H1. unfold extend_table. rewrite bind_run, assert_run.
    rewrite bool_decide_false; [done|].
    intros [?|[?|?%elem_of_nil]%elem_of_cons]%elem_of_cons; done.
  - intros Hm Hnew Haxis.
    destruct (add_table_succeeds reg m table_name (PyFrame df) s Hm) as [s' Hadd].
    exists s'. split; [done|]. unfold extend_table.
    rewrite bind_run, assert_run, bool_decide_true
      by (destruct Haxis as [->| ->]; [left|right; left]).
    rewrite bind_run, (is_table_run _ _ _ Hm), Hnew.
    rewrite bool_decide_false by (by intros [? ?]).
    by rewrite bind_run, ret_run, bind_run, Hadd.
Qed.

(** X10.  A table under a temporary name is never registered, so
    [extend_table] does not extend it: the second call replaces the
    frame the first one stored, and the rows of the first are gone. *)
Theorem extend_table_replaces_temporary_table reg m name df1 df2 s :
  _context s !! "_salient_tables" = Some (PyStatus m) →
  name ∈ _TEMP_NAMES reg →
  m !! name = None →
  name ≠ "_salient_tables" →
  ¬ depends_on reg name name →
  ¬ depends_on reg name "_salient_tables" →
  ∃ s1 s2, extend_table reg name df1 0 s = (Ok df1, s1) ∧
           _context s1 !! name = Some (PyFrame df1) ∧
           extend_table reg name df2 0 s1 = (Ok df2, s2) ∧
           _context s2 !! name = Some (PyFrame df2).
Proof.
  intros Hm Htemp Hnew Hname Hself Hstatus.
  assert (∀ s df, _context s !! "_salient_tables" = Some (PyStatus m) →
            ∃ s', extend_table reg name df 0 s = (Ok df, s') ∧
                  _context s' !! name = Some (PyFrame df) ∧
                  _context s' !! "_salient_tables" = Some (PyStatus m)) as Hstep.
  { intros s0 df Hm0.
    destruct (add_table_stores reg m name (PyFrame df) s0 Hm0 Hname Hself Hstatus)
      as (s' & Hadd & _ & Hdf & Hm' & _).
    rewrite decide_True in Hm' by done.
    exists s'. split; [|done]. unfold extend_table.
    rewrite bind_run, assert_run, bool_decide_true by left.
    rewrite bind_run, (is_table_run _ _ _ Hm0), Hnew.
    rewrite bool_decide_false by (by intros [? ?]).
    by rewrite bind_run, ret_run, bind_run, Hadd. }
  destruct (Hstep s df1 Hm) as (s1 & Hrun1 & Hdf1 & Hm1).
  destruct (Hstep s1 df2 Hm1) as (s2 & Hrun2 & Hdf2 & _).
  by exists s1, s2.
Qed.

Lemma extend_table_replaces_temporary_table_witness :
  ∃ s1 s2,
    extend_table temp_registry "trips_merged" tours_frame 0 fresh_state
    = (Ok tours_frame, s1) ∧
    _context s1 !! "trips_merged" = Some (PyFrame tours_frame) ∧
    extend_table temp_registry "trips_merged" new_tours 0 s1 = (Ok new_tours, s2) ∧
    _context s2 !! "trips_merged" = Some (PyFrame new_tours).
Proof.
  apply (extend_table_replaces_temporary_table temp_registry ∅ "trips_merged"
           tours_frame new_tours fresh_state).
  - reflexivity.
  - vm_compute. set_solver.
  - reflexivity.
  - done.
  - apply temp_registry_independent.
  - apply temp_registry_independent.
Defined.

(** ** [State.drop_table] *)

Definition was_dropped (table_name : string) : exn :=
  RuntimeError [Lit "table '"; Fmt table_name; Lit "' was dropped."].

Definition was_never_checkpointed (table_name : string) : exn :=
  RuntimeError [Lit "table '"; Fmt table_name; Lit "' never checkpointed."].

(** X11.  [drop_table] on a registered table removes it from the context
    and from the registry and touches no other key: unlike [drop], it does
    not follow the predicates.  [get_table] for the current version then
    raises "was dropped" if a checkpoint had recorded the table, and
    "never checkpointed" if none had; asking for a checkpoint that
    recorded it is still possible. *)
Theorem drop_table_unregisters m name s :
  _context s !! "_salient_tables" = Some (PyStatus m) →
  is_Some (m !! name) →
  name ≠ "_salient_tables" →
  ∃ s1, drop_table name s = (Ok tt, s1) ∧
    _context s1 !! name = None ∧
    _context s1 !! "_salient_tables" = Some (PyStatus (delete name m)) ∧
    is_table name s1 = (Ok false, s1) ∧
    (∀ d, d ≠ name → d ≠ "_salient_tables" → _context s1 !! d = _context s !! d) ∧
    checkpoints (checkpoint s1) = checkpoints (checkpoint s) ∧
    store (checkpoint s1) = store (checkpoint s) ∧
    get_table name None s1
    = (Raise (match last_checkpoint (checkpoint s) !! name with
              | Some _ => was_dropped name
              | None => was_never_checkpointed name
              end), s1).
Proof.
  intros Hm Hreg Hname.
  set (c1 := <["_salient_tables" := PyStatus (delete name m)]>
               (delete name (_context s))).
  assert (c1 !! "_salient_tables" = Some (PyStatus (delete name m))) as Hm1
    by apply lookup_insert_eq.
  assert (c1 !! name = None) as Hgone
    by (subst c1; rewrite lookup_insert_ne by done; apply lookup_delete_eq).
  set (cp1 := match last_checkpoint (checkpoint s) !! name with
              | Some _ =>
                  {| last_checkpoint := <[name := ""]> (last_checkpoint (checkpoint s));
                     checkpoints := checkpoints (checkpoint s);
                     store := store (checkpoint s) |}
              | None => checkpoint s
              end).
  set (s1 := {| _context := c1; checkpoint := cp1 |}).
  assert (drop_table name s = (Ok tt, s1)) as Hrun.
  { unfold drop_table. rewrite bind_run, (is_table_run _ _ _ Hm).
    rewrite bool_decide_true by done. cbn beta iota.
    rewrite !bind_run. unfold context_pop at 1. rewrite bind_run.
    cbn [read_context write_context].
    rewrite bind_run, (existing_table_status_run m); cycle 1.
    { cbn. by rewrite lookup_delete_ne. }
    rewrite setitem_run, bind_run.
    cbn [read_checkpoint checkpoint with_context _context].
    subst s1 cp1 c1. destruct (last_checkpoint (checkpoint s) !! name) as [last|].
    - by rewrite bool_decide_true.
    - rewrite bool_decide_false by (by intros [? ?]). by destruct s. }
  assert (is_table name s1 = (Ok false, s1)) as Htable.
  { rewrite (is_table_run (delete name m)) by done.
    rewrite bool_decide_false; [done|]. rewrite lookup_delete_eq. by intros [? ?]. }
  exists s1. split; [done|]. split; [done|]. split; [done|]. split; [done|].
  split.
  { intros d Hd1 Hd2. cbn. subst c1. by rewrite lookup_insert_ne, lookup_delete_ne. }
  split; [by subst s1 cp1; cbn; destruct (last_checkpoint (checkpoint s) !! name)|].
  split; [by subst s1 cp1; cbn; destruct (last_checkpoint (checkpoint s) !! name)|].
  unfold get_table. rewrite bind_run. cbn [read_checkpoint]. rewrite bind_run.
  subst s1 cp1. cbn [checkpoint].
  destruct (last_checkpoint (checkpoint s) !! name) as [last|] eqn:E;
    cbn [last_checkpoint].
  - rewrite lookup_insert_eq, bool_decide_false by done. by rewrite ret_run.
  - rewrite E, bool_decide_true by done. by rewrite Htable.
Qed.

Lemma drop_table_unregisters_witness :
  ∃ s1, drop_table "tours" tours_state = (Ok tt, s1) ∧
    _context s1 !! "tours" = None ∧
    _context s1 !! "_salient_tables"
    = Some (PyStatus (delete "tours" {[ "tours" := true ]})) ∧
    is_table "tours" s1 = (Ok false, s1) ∧
    (∀ d, d ≠ "tours" → d ≠ "_salient_tables" →
          _context s1 !! d = _context tours_state !! d) ∧
    checkpoints (checkpoint s1) = checkpoints (checkpoint tours_state) ∧
    store (checkpoint s1) = store (checkpoint tours_state) ∧
    get_table "tours" None s1
    = (Raise (match last_checkpoint (checkpoint tours_state) !! "tours" with
              | Some _ => was_dropped "tours"
              | None => was_never_checkpointed "tours"
              end), s1).
Proof.
  apply (drop_table_unregisters {[ "tours" := true ]} "tours" tours_state).
  - reflexivity.
  - by eexists.
  - done.
Defined.

(** ** [State.access] *)

(** X12.  [access key initializer] returns the value the context holds for
    the key and writes nothing when there is one.  When there is none it
    stores the initializer (with the cascade of [set]) and returns it, and
    from then on every [access] returns that first initializer, whatever
    initializer it is given. *)
Theorem access_initializes_once reg s key initializer :
  (∀ v, _context s !! key = Some v →
        access reg key initializer s = (Ok v, s)) ∧
  (_context s !! key = None → ¬ depends_on reg key key →
   ∃ s1, access reg key initializer s = (Ok initializer, s1) ∧
         set reg key initializer s = (Ok tt, s1) ∧
         ∀ other, access reg key other s1 = (Ok initializer, s1)).
Proof.
  assert (∀ s v other, _context s !! key = Some v →
            access reg key other s = (Ok v, s)) as Hpresent.
  { intros s0 v other Hv. unfold access.
    rewrite bind_run, contains_run, bool_decide_true by by rewrite Hv.
    by rewrite bind_run, ret_run, (getitem_run _ _ _ Hv). }
  split; [intros v; apply Hpresent|].
  intros Hkey Hself.
  destruct (set_keeps reg s key initializer) as (c1 & Hset & Hkeep).
  assert (c1 !! key = Some initializer) as Hkey1
    by (rewrite (Hkeep key Hself); apply lookup_insert_eq).
  exists (with_context s c1). split; [|split; [done|]].
  - unfold access. rewrite bind_run, contains_run, bool_decide_false
      by (rewrite Hkey; by intros [? ?]).
    by rewrite bind_run, Hset, (getitem_run key initializer (with_context s c1)).
  - intros other. by apply Hpresent.
Qed.

(** ** [State.pipeline_table_key] *)

Lemma pipeline_table_key_names (t1 t2 c1 c2 : string) :
  has_slash t1 = false → has_slash t2 = false →
  has_slash c1 = false → has_slash c2 = false →
  t1 ≠ "" → t2 ≠ "" →
  pipeline_table_key t1 c1 = pipeline_table_key t2 c2 →
  t1 = t2 ∧ c1 = c2.
Proof.
  intros Ht1 Ht2 Hc1 Hc2 Hn1 Hn2. unfold pipeline_table_key.
  destruct (decide (c1 = "")) as [->|Hne1], (decide (c2 = "")) as [->|Hne2].
  - change (String "/" t1 = String "/" t2 → t1 = t2 ∧ "" = ""). by intros [= ->].
  - destruct t2 as [|a t2]; [done|].
    change (String "/" t1 = String a (t2 +:+ "/" +:+ c2)
            → t1 = String a t2 ∧ "" = c2).
    intros [= <- ->]. by rewrite has_slash_app in Ht1.
  - destruct t1 as [|a t1]; [done|].
    change (String a (t1 +:+ "/" +:+ c1) = String "/" t2
            → String a t1 = t2 ∧ c1 = "").
    intros [= -> <-]. by rewrite has_slash_app in Ht2.
  - intros H. assert (c1 = c2) as <- by by eapply slash_free_names_inj.
    split; [|done]. by apply string_app_inv_tail in H.
Qed.

(** X13.  The storage keys of two versions of tables differ as soon as
    the table names or the checkpoint names do, provided none of the names
    contains the separator and the table names are not empty.  (An empty
    checkpoint name gives the key of the unversioned table.) *)
Theorem pipeline_table_key_inj (t1 t2 c1 c2 : string) :
  has_slash t1 = false → has_slash t2 = false →
  has_slash c1 = false → has_slash c2 = false →
  t1 ≠ "" → t2 ≠ "" →
  t1 ≠ t2 ∨ c1 ≠ c2 →
  pipeline_table_key t1 c1 ≠ pipeline_table_key t2 c2.
Proof.
  intros Ht1 Ht2 Hc1 Hc2 Hn1 Hn2 Hne Hkey.
  destruct (pipeline_table_key_names t1 t2 c1 c2) as [-> ->]; try done.
  by destruct Hne.
Qed.

Lemma pipeline_table_key_inj_witness :
  pipeline_table_key "tours" "school_location"
  ≠ pipeline_table_key "tours" "" ∧
  pipeline_table_key "tours" "school_location"
  ≠ pipeline_table_key "trips" "school_location".
Proof.
  split.
  - apply (pipeline_table_key_inj "tours" "tours" "school_location" "");
      [reflexivity..|done|done|by right].
  - apply (pipeline_table_key_inj "tours" "trips" "school_location" "school_location");
      [reflexivity..|done|done|by left].
Defined.

(** * Tour origin and destination choice ([tour_od.py]) *)

#[global] Instance result_ret : MRet result := λ A a, Ok a.

#[global] Instance result_bind : MBind result := λ A B f r,
  match r with
  | Ok a => f a
  | Raise e => Raise e
  end.

Module TourOD.

(** ** [run_tour_od] *)

(** A tour with the person who makes it and the value of its
    [CHOOSER_SEGMENT_COLUMN_NAME] column. *)
Record tour := { tour_id : Z; person_id : Z; segment : string }.

(** The two columns of [persons] the choosers are merged with. *)
Record person := { is_university : bool; demographic_segment : Z }.

(** The settings [run_tour_od] starts with and branches on;
    [SIZE_TERM_SELECTOR] is [None] when the settings have no such key.
    The column names it reads from the settings later on are taken to be
    there. *)
Record model_settings := {
  SIZE_TERM_SELECTOR : option string;
  SEGMENTS : list string;
  ORIG_FILTER : string;
  preprocessor : bool
}.

Record estimator := { want_unsampled_alternatives : bool }.

Definition index_le (a b : tour) : Prop := (tour_id a ≤ tour_id b)%Z.

#[global] Instance index_le_dec : RelDecision index_le.
Proof. intros a b. unfold index_le. apply _. Defined.

Section run_tour_od.

(** The tables the collaborators exchange, and the collaborators, all of
    which may raise: [inject.get_table], the chooser annotation, the
    sample and logsums stages, the relabelling of origins, and
    [set_index(ALT_DEST_COL_NAME, append=True, inplace=True)] on a
    sample. *)
Context {land_use size_terms sample_row choice_row : Type}.
Context (get_table : string → result land_use).
Context (assign_columns : list (tour * person) → result unit).
Context (run_od_sample :
           string → list (tour * person) → size_terms → result (list sample_row)).
Context (map_maz_to_ext_maz : list sample_row → result (list sample_row)).
Context (run_od_logsums :
           string → list (tour * person) → list sample_row → result (list sample_row)).
Context (set_index : list sample_row → result (list sample_row)).

(** [SizeTermCalculator.__init__] (lines 647-656).  Its second statement
    reads [whale], which is not a parameter of [__init__] and not a name
    of the module ([whale] is only ever a parameter of other functions):
    the lookup raises [NameError], and the statements after it, which
    would build the size terms, are never reached.  A calculator is given
    by its method [dest_size_terms_df]. *)
Definition SizeTermCalculator (size_term_selector : string)
    : result (string → result size_terms) :=
  get_table "land_use" ;;
  Raise (NameError "whale").

(** The call of [run_od_simulate] at lines 1145-1158: three positional
    arguments and seven keywords for a function of eleven parameters.
    The first parameter, [whale], is left out, so the positional
    arguments bind [whale], [spec_segment_name] and [tours], no argument
    binds [od_sample], and the call raises [TypeError] before the body of
    the function runs. *)
Definition run_od_simulate_call : result (list choice_row) :=
  Raise (TypeError
           [Lit "run_od_simulate() missing 1 required positional argument: 'od_sample'"]).

(** [tours.sort_index()] *)
Definition sort_index (tours : list tour) : list tour :=
  merge_sort index_le tours.

(** [pd.merge(tours[tours[column] == segment_name], persons,
    left_on="person_id", right_index=True)]: an inner join. *)
Definition choosers_of (tours : list tour) (persons : gmap Z person)
    (segment_name : string) : list (tour * person) :=
  omap (λ t, (λ p, (t, p)) <$> persons !! person_id t)
    (filter (λ t, segment t = segment_name) tours).

(** The body of [for segment_name in segments], with the two lists it
    appends to. *)
Fixpoint segment_loop (size_term_calculator : string → result size_terms)
    (ms : model_settings) (est : option estimator)
    (want_sample_table : bool) (tours : list tour) (persons : gmap Z person)
    (segments : list string)
    (choices_list : list (list choice_row)) (sample_list : list (list sample_row))
    : result (list (list choice_row) * list (list sample_row)) :=
  match segments with
  | [] => Ok (choices_list, sample_list)
  | segment_name :: segments =>
      let choosers := choosers_of tours persons segment_name in
      (if preprocessor ms then assign_columns choosers else Ok tt) ;;
      segment_destination_size_terms ← size_term_calculator segment_name;
      if decide (length choosers = 0%nat) then
        segment_loop size_term_calculator ms est want_sample_table tours persons
          segments choices_list sample_list
      else
        od_sample_df ← run_od_sample segment_name choosers
                          segment_destination_size_terms;
        od_sample_df ←
          (if decide (ORIG_FILTER ms = "original_MAZ > 0") then Ok od_sample_df
           else if decide (ORIG_FILTER ms = "external_TAZ > 0")
                then map_maz_to_ext_maz od_sample_df
                else Raise (ValueError
                  [Lit "Not sure how you identified tour origins but you probably need to choose a different ORIG_FILTER setting"]));
        od_sample_df ← run_od_logsums segment_name choosers od_sample_df;
        choices ← run_od_simulate_call;
        let choices_list := choices_list ++ [choices] in
        match est with
        | Some e => if want_unsampled_alternatives e then Ok tt
                    else Raise AssertionError
        | None => Ok tt
        end ;;
        sample_list ←
          (if want_sample_table
           then od_sample_df ← set_index od_sample_df;
                Ok (sample_list ++ [od_sample_df])
           else Ok sample_list);
        segment_loop size_term_calculator ms est want_sample_table tours persons
          segments choices_list sample_list
  end.

(** [run_tour_od].  [choices_df] is bound only when [choices_list] is not
    empty; returning it unbound raises [UnboundLocalError]. *)
Definition run_tour_od (tours : list tour) (persons : gmap Z person)
    (want_sample_table : bool) (ms : model_settings) (est : option estimator)
    : result (list choice_row * option (list sample_row)) :=
  size_term_selector ← match SIZE_TERM_SELECTOR ms with
                       | Some selector => Ok selector
                       | None => Raise (KeyError "SIZE_TERM_SELECTOR")
                       end;
  size_term_calculator ← SizeTermCalculator size_term_selector;
  let tours := sort_index tours in
  '(choices_list, sample_list) ←
    segment_loop size_term_calculator ms est want_sample_table tours persons
      (SEGMENTS ms) [] [];
  let choices_df :=
    if decide (0 < length choices_list)%nat then Some (concat choices_list)
    else None in
  let save_sample_df :=
    if decide (0 < length sample_list)%nat then Some (concat sample_list)
    else None in
  match choices_df with
  | Some choices_df => Ok (choices_df, save_sample_df)
  | None => Raise (UnboundLocalError "choices_df")
  end.

(** *** What [run_tour_od] does *)

(** C7: [run_tour_od] never returns.  Before it looks at a segment it
    raises [KeyError] if the settings name no size term selector, else
    what [inject.get_table] raises for ["land_use"], else [NameError] for
    [whale]. *)
Theorem run_tour_od_never_returns tours persons want ms est :
  run_tour_od tours persons want ms est
  = match SIZE_TERM_SELECTOR ms, get_table "land_use" with
    | None, _ => Raise (KeyError "SIZE_TERM_SELECTOR")
    | Some _, Raise e => Raise e
    | Some _, Ok _ => Raise (NameError "whale")
    end ∧
  ∀ r, run_tour_od tours persons want ms est ≠ Ok r.
Proof.
  unfold run_tour_od, SizeTermCalculator.
  by destruct (SIZE_TERM_SELECTOR ms), (get_table "land_use").
Qed.



End run_tour_od.

(** Three tours of two persons, in two of three segments, and
    collaborators that hand on what they are given. *)
Definition example_tours : list tour :=
  [ {| tour_id := 3; person_id := 1; segment := "school" |};
    {| tour_id := 1; person_id := 1; segment := "work" |};
    {| tour_id := 2; person_id := 2; segment := "work" |} ].

Definition example_persons : gmap Z person :=
  {[ 1%Z := {| is_university := true; demographic_segment := 1 |};
     2%Z := {| is_university := false; demographic_segment := 2 |} ]}.

Definition example_settings : model_settings :=
  {| SIZE_TERM_SELECTOR := Some "tour_od";
     SEGMENTS := ["work"; "shop"; "school"]; ORIG_FILTER := "original_MAZ > 0";
     preprocessor := true |}.

Definition tours_of (choosers : list (tour * person)) : list Z :=
  (λ c, tour_id c.1) <$> choosers.

(** [run_tour_od] on the example. *)
Lemma run_tour_od_raises_NameError :
  run_tour_od (choice_row := Z) (λ _, Ok tt) (λ _, Ok tt)
    (λ _ choosers (_ : unit), Ok (tours_of choosers)) (λ s, Ok s) (λ _ _ s, Ok s)
    (λ s, Ok s) example_tours example_persons true example_settings None
  = Raise (NameError "whale").
Proof. reflexivity. Qed.

(** ** [choose_MAZ_for_TAZ] *)

(** numpy's floats are idealised as rationals: sums, quotients and
    products are exact here, where float64 rounds them, so the theorems
    below do not state the value of a probability or which of the
    candidates a draw selects; they are about the rows, the zones and the
    counts that come out, about nulls, and about which computed value a
    result is.  [None] stands for NaN, which
    the left merge introduces for a TAZ without MAZ and which any
    operation propagates.  A division by zero gives NaN (as 0/0 does; a
    non-zero numerator over zero needs size terms of both signs). *)
Abbreviation num := (option Qc).

Definition nadd (x y : num) : num := a ← x; b ← y; Some (a + b)%Qc.

Definition nmul (x y : num) : num := a ← x; b ← y; Some (a * b)%Qc.

Definition ndiv (x y : num) : num :=
  a ← x; b ← y; if decide (b = 0%Qc) then None else Some (a / b)%Qc.

(** [(c - r) > 0.0]; a comparison with NaN is false. *)
Definition exceeds (c : num) (r : Qc) : bool :=
  match c with
  | Some a => bool_decide (0 < a - r)%Qc
  | None => false
  end.

(** *** numpy *)

(** [a.sum()] *)
Definition np_sum (a : list num) : num := foldl nadd (Some 0%Qc) a.

(** [a.cumsum()], for floats and for counts. *)
Fixpoint cumsum_from (acc : num) (a : list num) : list num :=
  match a with
  | [] => []
  | x :: a => nadd acc x :: cumsum_from (nadd acc x) a
  end.

Definition np_cumsum (a : list num) : list num := cumsum_from (Some 0%Qc) a.

Fixpoint offsets_from (acc : nat) (counts : list nat) : list nat :=
  match counts with
  | [] => []
  | c :: counts => (acc + c)%nat :: offsets_from (acc + c) counts
  end.

(** [np.argmax(flags)]: the position of the first [True], or 0. *)
Definition np_argmax (flags : list bool) : nat :=
  from_option fst 0%nat (list_find (λ b, b = true) flags).

(** [np.repeat(a, repeats)] *)
Definition np_repeat {A} (a : list A) (repeats : list nat) : list A :=
  concat (zip_with (λ x n, replicate n x) a repeats).

(** [np.insert(a, obj, value)] for a list of positions [obj]: each
    position counts in [a], and the value goes in front of the element
    there (or at the end), once for each time the position is listed. *)
Definition occurrences (obj : list nat) (pos : nat) : nat :=
  length (filter (λ i, i = pos) obj).

Fixpoint np_insert_from {A} (pos : nat) (a : list A) (obj : list nat) (value : A)
    : list A :=
  replicate (occurrences obj pos) value ++
  match a with
  | [] => []
  | x :: a => x :: np_insert_from (S pos) a obj value
  end.

Definition np_insert {A} (a : list A) (obj : list nat) (value : A) : list A :=
  np_insert_from 0 a obj value.

(** [a.reshape(-1, width)] *)
Fixpoint rows_of {A} (n width : nat) (a : list A) : list (list A) :=
  match n with
  | O => []
  | S n => take width a :: rows_of n width (skipn width a)
  end.

Definition reshape {A} (width : nat) (a : list A) : list (list A) :=
  rows_of (length a `div` width) width a.

(** *** The tables *)

(** A row of [taz_sample]: the chooser (the index), the sampled TAZ with
    its probability and pick count, and the column that
    [addtl_col_for_unique_key] names, if any. *)
Record taz_sample_row := {
  chooser_id : Z;
  dest_TAZ : Z;
  prob : Qc;
  pick_count : nat;
  addtl_col : Z
}.

(** A row of [MAZ_size_terms]. *)
Record maz_size_row := { zone_id : Z; maz_dest_TAZ : Z; size_term : Qc }.

(** A row of [taz_choices] once a MAZ has been chosen for it (line 485):
    the row of the sample it repeats, the chosen zone, its conditional
    probability and the joint probability. *)
Record maz_choice := {
  taz_draw : taz_sample_row;
  dest_MAZ : option Z;
  MAZ_prob : num;
  joint_prob : num
}.

(** A row of the result: the columns of the group key, the first
    probability and the count of the probabilities of the group. *)
Record maz_sample_row := {
  out_chooser_id : Z;
  out_dest_MAZ : Z;
  out_addtl_col : option Z;
  out_prob : num;
  out_pick_count : nat
}.

(** [taz_sample.index[~taz_sample.index.duplicated()]]: each chooser
    once, in the order of first appearance. *)
Fixpoint first_occurrences (ids : list Z) : list Z :=
  match ids with
  | [] => []
  | x :: ids => x :: filter (λ y, y ≠ x) (first_occurrences ids)
  end.

(** The rows of [taz_sample] repeated [pick_count] times. *)
Definition taz_choices (taz_sample : list taz_sample_row) : list taz_sample_row :=
  np_repeat taz_sample (pick_count <$> taz_sample).

(** The rows that the left merge on [DEST_TAZ] gives for one row of
    [taz_choices]: the MAZs of its TAZ, or a single row of nulls. *)
Definition candidates (MAZ_size_terms : list maz_size_row) (row : taz_sample_row)
    : list (option Z * num) :=
  match filter (λ m, maz_dest_TAZ m = dest_TAZ row) MAZ_size_terms with
  | [] => [(None, None)]
  | ms => (λ m, (Some (zone_id m), Some (size_term m))) <$> ms
  end.

(** [maz_sizes], as the list of its groups by index: one group for each
    row of [taz_choices]. *)
Definition maz_sizes (MAZ_size_terms : list maz_size_row)
    (choices : list taz_sample_row) : list (list (option Z * num)) :=
  candidates MAZ_size_terms <$> choices.

(** [maz_sizes.groupby(maz_sizes.index).size().values] *)
Definition maz_counts (sizes : list (list (option Z * num))) : list nat :=
  length <$> sizes.

(** Lines 446 to 465: the size terms padded with zeros to the width of
    the largest group, and each row divided by its sum. *)
Definition padded_maz_sizes (sizes : list (list (option Z * num))) : list (list num) :=
  let maz_counts := maz_counts sizes in
  let max_maz_count := max_list maz_counts in
  let last_row_offsets := offsets_from 0 maz_counts in
  let inserts := np_repeat last_row_offsets ((λ c, max_maz_count - c)%nat <$> maz_counts) in
  reshape max_maz_count (np_insert (concat sizes).*2 inserts (Some 0%Qc)).

Definition maz_probs (sizes : list (list (option Z * num))) : list (list num) :=
  let padded_maz_sizes := padded_maz_sizes sizes in
  let row_sums := np_sum <$> padded_maz_sizes in
  zip_with (λ row s, (λ x, ndiv x s) <$> row) padded_maz_sizes row_sums.

(** Line 476: for each row, the first column whose cumulative
    probability exceeds the draw. *)
Definition positions (sizes : list (list (option Z * num))) (rands : list Qc)
    : list nat :=
  zip_with (λ row r, np_argmax ((λ c, exceeds c r) <$> np_cumsum row))
    (maz_probs sizes) rands.


(** [taz_choices.groupby(chooser_id_col)[DEST_TAZ].count().max()] *)
Definition taz_sample_size (choosers : list Z) (choices : list taz_sample_row) : nat :=
  max_list ((λ c, length (filter (λ row, chooser_id row = c) choices)) <$> choosers).

(** Lines 483 to 485 for one row: the zone taken from the flat
    [maz_sizes] at [position + first_row_offset], the probability read
    from the row of [maz_probs] at [position], and their product with the
    probability of the TAZ. *)
Definition choose_row (zones : list (option Z))
    (draw : taz_sample_row) (probs : list num) (position first_row_offset : nat)
    : result maz_choice :=
  match zones !! (position + first_row_offset)%nat, probs !! position with
  | Some zone, Some p =>
      Ok {| taz_draw := draw; dest_MAZ := zone; MAZ_prob := p;
            joint_prob := nmul (Some (prob draw)) p |}
  | _, _ => Raise (IndexError [Lit "index out of bounds"])
  end.

Fixpoint choose_rows (zones : list (option Z)) (draws : list taz_sample_row)
    (probs : list (list num)) (positions first_row_offsets : list nat)
    : result (list maz_choice) :=
  match draws, probs, positions, first_row_offsets with
  | draw :: draws, p :: probs, position :: positions, offset :: first_row_offsets =>
      row ← choose_row zones draw p position offset;
      rows ← choose_rows zones draws probs positions first_row_offsets;
      Ok (row :: rows)
  | _, _, _, _ => Ok []
  end.

(** [choose_MAZ_for_TAZ] up to line 485, with tracing off.  [rands] is
    what [random_for_df(chooser_df, n=taz_sample_size)] returns, row after
    row. *)
Definition choose_MAZ (taz_sample : list taz_sample_row)
    (MAZ_size_terms : list maz_size_row) (rands : list Qc)
    : result (list maz_choice) :=
  let taz_choices := taz_choices taz_sample in
  let chooser_df := first_occurrences (chooser_id <$> taz_sample) in
  let num_choosers := length chooser_df in
  if decide (taz_choices = []) then
    Raise (TypeError [Lit "Cannot cast array data from dtype('float64') to dtype('int64')"])
  else
    let taz_sample_size := taz_sample_size chooser_df taz_choices in
    let repeated := np_repeat chooser_df (replicate num_choosers taz_sample_size) in
    if decide (length taz_choices ≠ length repeated) then
      Raise (ValueError [Lit "Lengths must match to compare"])
    else if decide (chooser_id <$> taz_choices ≠ repeated) then Raise AssertionError
    else
      let maz_sizes := maz_sizes MAZ_size_terms taz_choices in
      let maz_counts := maz_counts maz_sizes in
      let max_maz_count := max_list maz_counts in
      let last_row_offsets := offsets_from 0 maz_counts in
      let first_row_offsets := 0%nat :: removelast last_row_offsets in
      let maz_probs := maz_probs maz_sizes in
      if decide (length maz_probs ≠ (num_choosers * taz_sample_size)%nat ∨
                 ¬ Forall (λ row, length row = max_maz_count) maz_probs)
      then Raise AssertionError
      else if decide (length rands ≠ (num_choosers * taz_sample_size)%nat)
      then Raise AssertionError
      else if decide (length rands ≠ length maz_probs) then Raise AssertionError
      else
        let positions := positions maz_sizes rands in
        if decide (Forall2 lt positions maz_counts) then
          choose_rows (concat maz_sizes).*1 taz_choices maz_probs positions
            first_row_offsets
        else Raise AssertionError.

(** *** The final grouping *)

(** The key of a row: chooser and MAZ, with the additional column when one
    was named.  A row whose MAZ is null has none: [groupby] drops it. *)
Definition group_key (use_addtl : bool) (row : maz_choice) : option (Z * Z * option Z) :=
  zone ← dest_MAZ row;
  Some (chooser_id (taz_draw row), zone,
        if use_addtl then Some (addtl_col (taz_draw row)) else None).

(** The order in which [groupby] lists its groups. *)
Definition key_le (a b : Z * Z * option Z) : Prop :=
  (a.1.1 < b.1.1 ∨
   (a.1.1 = b.1.1 ∧
    (a.1.2 < b.1.2 ∨
     (a.1.2 = b.1.2 ∧ default 0 a.2 ≤ default 0 b.2))))%Z.

#[global] Instance key_le_dec : RelDecision key_le.
Proof. intros a b. unfold key_le. apply _. Defined.

(** The rows of one group, in the order of [taz_choices]. *)
Definition group_rows (use_addtl : bool) (rows : list maz_choice)
    (key : Z * Z * option Z) : list maz_choice :=
  filter (λ row, group_key use_addtl row = Some key) rows.

(** [.agg(prob=("prob", "first"), pick_count=("prob", "count"))]: the
    first probability that is not null and the number of those that are
    not. *)
Definition aggregate (key : Z * Z * option Z) (group : list maz_choice) : maz_sample_row :=
  let probs := omap joint_prob group in
  {| out_chooser_id := key.1.1;
     out_dest_MAZ := key.1.2;
     out_addtl_col := key.2;
     out_prob := head probs;
     out_pick_count := length probs |}.

(** Lines 554 to 562. *)
Definition group_choices (use_addtl : bool) (rows : list maz_choice)
    : list maz_sample_row :=
  let keys := merge_sort key_le (remove_dups (omap (group_key use_addtl) rows)) in
  (λ key, aggregate key (group_rows use_addtl rows key)) <$> keys.

(** [choose_MAZ_for_TAZ]; [use_addtl] tells whether
    [addtl_col_for_unique_key] names a column. *)
Definition choose_MAZ_for_TAZ (taz_sample : list taz_sample_row)
    (MAZ_size_terms : list maz_size_row) (rands : list Qc) (use_addtl : bool)
    : result (list maz_sample_row) :=
  rows ← choose_MAZ taz_sample MAZ_size_terms rands;
  Ok (group_choices use_addtl rows).


(** ** Padding: numpy's flat insertions against row-wise padding *)

Section padding.

Context {A : Type}.
Implicit Types (a : list A) (obj : list nat) (groups : list (list A)).

(** A group brought to a given width. *)
Definition pad (width : nat) (value : A) (group : list A) : list A :=
  group ++ replicate (width - length group) value.

Lemma pad_length width value group :
  (length group ≤ width)%nat → length (pad width value group) = width.
Proof. intros H. unfold pad. rewrite length_app, length_replicate. lia. Qed.

Lemma occurrences_app obj1 obj2 pos :
  occurrences (obj1 ++ obj2) pos = (occurrences obj1 pos + occurrences obj2 pos)%nat.
Proof. unfold occurrences. by rewrite filter_app, length_app. Qed.

Lemma occurrences_none obj pos :
  (∀ i, i ∈ obj → i ≠ pos) → occurrences obj pos = 0%nat.
Proof.
  intros H. unfold occurrences. induction obj as [|i obj IH]; [done|].
  rewrite filter_cons, decide_False by (apply H; left).
  apply IH. intros j Hj. apply H. by right.
Qed.

Lemma occurrences_replicate n pos :
  occurrences (replicate n pos) pos = n.
Proof.
  unfold occurrences. induction n as [|n IH]; [done|]. cbn [replicate].
  rewrite filter_cons, decide_True by done. cbn. by rewrite IH.
Qed.

(** Where nothing is to be inserted, the elements pass through. *)
Lemma np_insert_from_pass pos a rest obj value :
  (∀ q, (pos ≤ q < pos + length a)%nat → occurrences obj q = 0%nat) →
  np_insert_from pos (a ++ rest) obj value
  = a ++ np_insert_from (pos + length a) rest obj value.
Proof.
  revert pos. induction a as [|x a IH]; intros pos H.
  - cbn. by rewrite Nat.add_0_r.
  - cbn [app np_insert_from length]. rewrite H by (cbn; lia). cbn [replicate app].
    rewrite IH; [by rewrite Nat.add_succ_r|].
    intros q Hq. apply H. cbn. lia.
Qed.

(** The positions [np.repeat(last_row_offsets, width - counts)] lists:
    behind each group, once for each cell it lacks. *)
Fixpoint inserts_from (width base : nat) (counts : list nat) : list nat :=
  match counts with
  | [] => []
  | c :: counts =>
      replicate (width - c) (base + c)%nat ++ inserts_from width (base + c) counts
  end.

Lemma np_repeat_offsets width base counts :
  np_repeat (offsets_from base counts) ((λ c, width - c)%nat <$> counts)
  = inserts_from width base counts.
Proof.
  revert base. induction counts as [|c counts IH]; intros base; [done|].
  unfold np_repeat in *. cbn. by rewrite IH.
Qed.

Lemma inserts_from_after width base counts i :
  Forall (λ c, 0 < c)%nat counts →
  i ∈ inserts_from width base counts → (base < i)%nat.
Proof.
  intros Hpos. revert base. induction Hpos as [|c counts Hc _ IH]; intros base.
  - by intros ?%elem_of_nil.
  - cbn. intros [Hi|Hi]%elem_of_app.
    + apply elem_of_replicate in Hi as [-> _]. lia.
    + apply IH in Hi. lia.
Qed.

Lemma np_insert_groups width value groups :
  Forall (λ g, 0 < length g)%nat groups →
  ∀ base pre,
    (∀ i, i ∈ pre → (i ≤ base)%nat) →
    np_insert_from base (concat groups)
      (pre ++ inserts_from width base (length <$> groups)) value
    = replicate (occurrences pre base) value ++ concat (pad width value <$> groups).
Proof.
  induction 1 as [|g groups Hg Hgroups IH]; intros base pre Hpre.
  - cbn. by rewrite !app_nil_r.
  - destruct g as [|x g]; [cbn in Hg; lia|].
    assert (Forall (λ c, 0 < c)%nat (length <$> groups)) as Hcounts.
    { by apply Forall_fmap. }
    cbn [concat fmap list_fmap inserts_from app np_insert_from].
    rewrite occurrences_app.
    rewrite (occurrences_none (_ ++ _) base); last first.
    { intros i [Hi|Hi]%elem_of_app.
      - apply elem_of_replicate in Hi as [-> _]. cbn. lia.
      - apply inserts_from_after in Hi; [|done]. cbn in Hi. lia. }
    rewrite Nat.add_0_r. f_equal. cbn [pad app]. f_equal.
    set (n := length (x :: g)).
    rewrite np_insert_from_pass; last first.
    { intros q Hq. rewrite !occurrences_app.
      rewrite (occurrences_none pre) by (intros i Hi%Hpre; lia).
      rewrite (occurrences_none (replicate _ _)); last first.
      { intros i Hi. apply elem_of_replicate in Hi as [-> _]. subst n. cbn. lia. }
      rewrite occurrences_none; [done|].
      intros i Hi%inserts_from_after; [|done]. subst n. cbn in Hi. lia. }
    rewrite (app_assoc pre).
    replace (S base + length g)%nat with (base + n)%nat by (subst n; cbn; lia).
    rewrite IH; last first.
    { intros i [Hi%Hpre|Hi]%elem_of_app; [lia|].
      apply elem_of_replicate in Hi as [-> _]. lia. }
    rewrite occurrences_app, (occurrences_none pre); last first.
    { intros i Hi%Hpre. subst n. cbn. lia. }
    rewrite occurrences_replicate. cbn [plus]. by rewrite <- app_assoc.
Qed.

Lemma rows_of_concat width (rows : list (list A)) a :
  Forall (λ row, length row = width) rows →
  rows_of (length rows) width (concat rows ++ a) = rows.
Proof.
  induction 1 as [|row rows Hrow _ IH]; [done|].
  cbn [length rows_of concat]. rewrite <- app_assoc.
  rewrite take_app_length' by done. rewrite drop_app_length' by done.
  by rewrite IH.
Qed.

Lemma reshape_concat width (rows : list (list A)) :
  (0 < width)%nat →
  Forall (λ row, length row = width) rows →
  reshape width (concat rows) = rows.
Proof.
  intros Hwidth Hrows. unfold reshape.
  assert (length (concat rows) = (length rows * width)%nat) as ->.
  { induction Hrows as [|row rows Hrow _ IH]; [done|].
    cbn. rewrite length_app, IH, Hrow. lia. }
  rewrite Nat.div_mul by lia.
  rewrite <- (app_nil_r (concat rows)). by apply rows_of_concat.
Qed.

(** [np.insert] at the ends of the groups, then [reshape]: each group
    padded to the width. *)
Lemma insert_reshape_pads width value groups :
  Forall (λ g, 0 < length g ≤ width)%nat groups →
  reshape width
    (np_insert (concat groups)
       (np_repeat (offsets_from 0 (length <$> groups))
          ((λ c, width - c)%nat <$> (length <$> groups))) value)
  = pad width value <$> groups.
Proof.
  intros Hgroups. destruct groups as [|g groups]; [by destruct width|].
  assert (0 < width)%nat as Hwidth.
  { apply Forall_cons in Hgroups as [? _]. lia. }
  rewrite np_repeat_offsets. unfold np_insert.
  change (inserts_from width 0 (length <$> g :: groups))
    with ([] ++ inserts_from width 0 (length <$> g :: groups)).
  assert (Forall (λ g, 0 < length g)%nat (g :: groups)) as Hpos.
  { eapply Forall_impl; [done|]. intros g' Hg'. cbn in *. lia. }
  rewrite (np_insert_groups width value (g :: groups) Hpos 0 []);
    [|by intros i ?%elem_of_nil].
  apply reshape_concat; [done|]. apply Forall_fmap.
  eapply Forall_impl; [exact Hgroups|]. intros g' [_ Hg']. by apply pad_length.
Qed.

End padding.


(** ** One row: the choice never falls on the padding *)

(** A row divided by its sum, and the column line 476 picks in it. *)
Definition normalized (row : list num) : list num :=
  (λ x, ndiv x (np_sum row)) <$> row.

Definition position_in (row : list num) (r : Qc) : nat :=
  np_argmax ((λ c, exceeds c r) <$> np_cumsum (normalized row)).

Lemma nadd_zero (a : num) : nadd a (Some 0%Qc) = a.
Proof. destruct a as [a|]; [|done]. cbn. by rewrite Qcplus_0_r. Qed.

Lemma nadd_nan (a : num) : nadd a None = None.
Proof. by destruct a. Qed.

(** A padding cell divided by the sum is still zero, or NaN. *)
Lemma ndiv_zero (s : num) :
  ndiv (Some 0%Qc) s = Some 0%Qc ∨ ndiv (Some 0%Qc) s = None.
Proof.
  destruct s as [b|]; [|by right]. cbn. case_decide; [by right|left].
  f_equal. unfold Qcdiv. apply Qcmult_0_l.
Qed.

Lemma cumsum_from_app acc a b :
  cumsum_from acc (a ++ b)
  = cumsum_from acc a ++ cumsum_from (foldl nadd acc a) b.
Proof.
  revert acc. induction a as [|x a IH]; intros acc; [done|].
  cbn. by rewrite IH.
Qed.

Lemma cumsum_from_length acc a : length (cumsum_from acc a) = length a.
Proof. revert acc. induction a as [|x a IH]; intros acc; [done|]. cbn. by rewrite IH. Qed.

Lemma cumsum_from_last acc a :
  a ≠ [] → last (cumsum_from acc a) = Some (foldl nadd acc a).
Proof.
  revert acc. induction a as [|x a IH]; intros acc Ha; [done|].
  destruct a as [|y a]; [done|].
  change (cumsum_from acc (x :: y :: a))
    with (nadd acc x :: cumsum_from (nadd acc x) (y :: a)).
  change (cumsum_from (nadd acc x) (y :: a))
    with (nadd (nadd acc x) y :: cumsum_from (nadd (nadd acc x) y) a).
  rewrite last_cons_cons. by apply IH.
Qed.

(** The running sum does not move over cells that are all zero, or all
    NaN. *)
Lemma cumsum_from_padding acc z k :
  z = Some 0%Qc ∨ z = None →
  cumsum_from acc (replicate k z) = replicate k (nadd acc z).
Proof.
  intros Hz. revert acc. induction k as [|k IH]; intros acc; [done|].
  cbn. rewrite IH. f_equal. f_equal.
  destruct Hz as [->| ->]; by rewrite ?nadd_zero, ?nadd_nan.
Qed.

Lemma np_argmax_lt (flags : list bool) (b : bool) k :
  flags ≠ [] →
  (b = true → last flags = Some true) →
  (np_argmax (flags ++ replicate k b) < length flags)%nat.
Proof.
  intros Hne Hb. unfold np_argmax.
  destruct (list_find (λ b, b = true) flags) as [[i x]|] eqn:Hfind.
  - rewrite (list_find_app_l _ _ _ _ _ Hfind). cbn.
    apply list_find_Some in Hfind as (Hi & _). by apply lookup_lt_Some in Hi.
  - assert (0 < length flags)%nat by (destruct flags; [done|cbn; lia]).
    rewrite (proj2 (list_find_app_None _ _ _)); [done|]. split; [done|].
    apply list_find_None, Forall_forall. intros x [-> _]%elem_of_replicate Htrue.
    apply Hb in Htrue. apply last_Some_elem_of in Htrue.
    apply list_find_None in Hfind. rewrite Forall_forall in Hfind.
    by apply (Hfind true).
Qed.

(** The choice in a padded row is one of its real cells, whatever the
    size terms and the draw. *)
Lemma position_in_pad (g : list num) width r :
  g ≠ [] → (position_in (pad width (Some 0%Qc) g) r < length g)%nat.
Proof.
  intros Hg. unfold position_in, normalized, pad, np_cumsum.
  set (s := np_sum _). rewrite fmap_app, fmap_replicate, cumsum_from_app.
  rewrite cumsum_from_padding by apply ndiv_zero.
  rewrite fmap_app, fmap_replicate.
  set (real := (λ x, ndiv x s) <$> g).
  assert (real ≠ []) as Hreal by (subst real; by destruct g).
  eapply Nat.lt_le_trans; [apply np_argmax_lt|].
  - intros Hnil. apply (f_equal length) in Hnil.
    rewrite length_fmap, cumsum_from_length in Hnil. by destruct real.
  - intros Hb. rewrite fmap_last, (cumsum_from_last _ _ Hreal). cbn. f_equal.
    destruct (ndiv_zero s) as [Hz|Hz]; rewrite Hz in Hb.
    + by rewrite nadd_zero in Hb.
    + by rewrite nadd_nan in Hb.
  - rewrite length_fmap, cumsum_from_length. subst real. by rewrite length_fmap.
Qed.

(** ** The matrix of [choose_MAZ_for_TAZ], row by row *)

(** The left merge gives every row of [taz_choices] at least one row. *)
Lemma candidates_nonempty MAZ_size_terms row : candidates MAZ_size_terms row ≠ [].
Proof.
  unfold candidates. destruct (filter _ MAZ_size_terms); [done|].
  by rewrite fmap_cons.
Qed.

Lemma maz_sizes_nonempty MAZ_size_terms choices :
  Forall (λ g, g ≠ []) (maz_sizes MAZ_size_terms choices).
Proof.
  apply Forall_fmap, Forall_forall. intros row _. apply candidates_nonempty.
Qed.

Lemma maz_counts_bounded sizes :
  Forall (λ g, g ≠ []) sizes →
  Forall (λ g, 0 < length g ≤ max_list (maz_counts sizes))%nat sizes.
Proof.
  intros Hne. apply Forall_forall. intros g Hg. split.
  - rewrite Forall_forall in Hne. specialize (Hne g Hg). destruct g; [done|cbn; lia].
  - apply max_list_elem_of_le. unfold maz_counts. by apply list_elem_of_fmap_2.
Qed.

(** Lines 450 to 461 pad each group of size terms on its own. *)
Lemma padded_maz_sizes_rows sizes :
  Forall (λ g, g ≠ []) sizes →
  padded_maz_sizes sizes
  = (λ g, pad (max_list (maz_counts sizes)) (Some 0%Qc) g.*2) <$> sizes.
Proof.
  intros Hne. unfold padded_maz_sizes.
  assert ((concat sizes).*2 = concat ((λ g, g.*2) <$> sizes)) as ->.
  { clear Hne. induction sizes as [|g sizes IH]; [done|].
    cbn [concat]. rewrite fmap_app, IH. done. }
  assert (maz_counts sizes = length <$> ((λ g, g.*2) <$> sizes)) as Hcounts.
  { unfold maz_counts. rewrite <- list_fmap_compose. apply list_fmap_ext.
    intros i g _. cbn. by rewrite length_fmap. }
  pose proof (maz_counts_bounded sizes Hne) as Hbound.
  rewrite Hcounts in Hbound |- *. rewrite insert_reshape_pads.
  - by rewrite <- list_fmap_compose.
  - apply Forall_fmap. eapply Forall_impl; [exact Hbound|].
    intros g Hg. cbn. by rewrite length_fmap.
Qed.

Lemma maz_probs_rows sizes :
  Forall (λ g, g ≠ []) sizes →
  maz_probs sizes
  = (λ g, normalized (pad (max_list (maz_counts sizes)) (Some 0%Qc) g.*2)) <$> sizes.
Proof.
  intros Hne. unfold maz_probs.
  rewrite zip_with_fmap_r, zip_with_diag, padded_maz_sizes_rows by done.
  by rewrite <- list_fmap_compose.
Qed.

Lemma positions_rows sizes rands :
  Forall (λ g, g ≠ []) sizes →
  positions sizes rands
  = zip_with (λ g r, position_in (pad (max_list (maz_counts sizes)) (Some 0%Qc) g.*2) r)
      sizes rands.
Proof.
  intros Hne. unfold positions.
  by rewrite maz_probs_rows, zip_with_fmap_l by done.
Qed.

Lemma positions_below sizes rands :
  Forall (λ g, g ≠ []) sizes → length rands = length sizes →
  Forall2 lt (positions sizes rands) (maz_counts sizes).
Proof.
  intros Hne Hlen. rewrite positions_rows by done.
  generalize (max_list (maz_counts sizes)). intros width.
  unfold maz_counts. revert rands Hlen.
  induction Hne as [|g sizes Hg Hne IH]; intros [|r rands] Hlen; try done.
  cbn. constructor.
  - pose proof (position_in_pad g.*2 width r) as Hpos.
    rewrite length_fmap in Hpos. apply Hpos. by destruct g.
  - apply IH. cbn in Hlen. lia.
Qed.

(** ** The rows that lines 483 to 485 write *)

(** [first_row_offsets]: where each group starts in the flat [maz_sizes]. *)
Fixpoint starts_from (base : nat) (counts : list nat) : list nat :=
  match counts with
  | [] => []
  | c :: counts => base :: starts_from (base + c) counts
  end.

Lemma first_row_offsets_starts base counts :
  counts ≠ [] →
  base :: removelast (offsets_from base counts) = starts_from base counts.
Proof.
  revert base. induction counts as [|c counts IH]; intros base Hne; [done|].
  destruct counts as [|c' counts]; [done|].
  change (starts_from base (c :: c' :: counts))
    with (base :: starts_from (base + c) (c' :: counts)).
  by rewrite <- IH.
Qed.

(** The row written for one draw of a TAZ: the cell that the draw picks in
    the padded row of its candidates. *)
Definition chosen (MAZ_size_terms : list maz_size_row) (width : nat)
    (draw : taz_sample_row) (r : Qc) : maz_choice :=
  let g := candidates MAZ_size_terms draw in
  let row := pad width (Some 0%Qc) g.*2 in
  let position := position_in row r in
  let p := default None (normalized row !! position) in
  {| taz_draw := draw; dest_MAZ := default None (g.*1 !! position);
     MAZ_prob := p; joint_prob := nmul (Some (prob draw)) p |}.

Lemma choose_row_run MAZ_size_terms width pre rest draw r :
  (length (candidates MAZ_size_terms draw) ≤ width)%nat →
  let g := candidates MAZ_size_terms draw in
  let row := pad width (Some 0%Qc) g.*2 in
  choose_row (pre ++ (g ++ rest).*1) draw (normalized row) (position_in row r)
    (length pre)
  = Ok (chosen MAZ_size_terms width draw r).
Proof.
  intros Hwidth g row. change (length g ≤ width)%nat in Hwidth.
  assert (position_in row r < length g)%nat as Hpos.
  { pose proof (position_in_pad g.*2 width r) as Hpos.
    rewrite length_fmap in Hpos. apply Hpos.
    pose proof (candidates_nonempty MAZ_size_terms draw). subst g.
    by destruct (candidates MAZ_size_terms draw). }
  unfold choose_row, chosen. fold g. fold row.
  rewrite lookup_app_r by lia.
  replace (position_in row r + length pre - length pre)%nat
    with (position_in row r) by lia.
  rewrite fmap_app, lookup_app_l by (rewrite length_fmap; lia).
  destruct (g.*1 !! position_in row r) as [zone|] eqn:Hzone.
  - destruct (normalized row !! position_in row r) as [p|] eqn:Hp; [done|].
    apply lookup_ge_None in Hp. unfold normalized in Hp.
    rewrite length_fmap in Hp. subst row. rewrite pad_length in Hp.
    + lia.
    + rewrite length_fmap. exact Hwidth.
  - apply lookup_ge_None in Hzone. rewrite length_fmap in Hzone. lia.
Qed.

Lemma choose_rows_run MAZ_size_terms width pre draws rands :
  Forall (λ d, length (candidates MAZ_size_terms d) ≤ width)%nat draws →
  length rands = length draws →
  choose_rows (pre ++ (concat (maz_sizes MAZ_size_terms draws)).*1) draws
    ((λ g, normalized (pad width (Some 0%Qc) g.*2)) <$> maz_sizes MAZ_size_terms draws)
    (zip_with (λ g r, position_in (pad width (Some 0%Qc) g.*2) r)
       (maz_sizes MAZ_size_terms draws) rands)
    (starts_from (length pre) (maz_counts (maz_sizes MAZ_size_terms draws)))
  = Ok (zip_with (chosen MAZ_size_terms width) draws rands).
Proof.
  intros Hwidth. revert pre rands.
  induction Hwidth as [|d draws Hd Hwidth IH]; intros pre [|r rands] Hlen; try done.
  unfold maz_sizes, maz_counts in *. rewrite !fmap_cons.
  cbn [concat zip_with starts_from choose_rows].
  rewrite choose_row_run by done.
  specialize (IH (pre ++ (candidates MAZ_size_terms d).*1) rands).
  rewrite length_app, length_fmap in IH.
  rewrite fmap_app, (assoc_L (++)), IH by (cbn in Hlen; lia).
  done.
Qed.

Lemma np_repeat_length {A} (a : list A) k :
  length (np_repeat a (replicate (length a) k)) = (length a * k)%nat.
Proof.
  unfold np_repeat. induction a as [|x a IH]; [done|].
  cbn. rewrite length_app, length_replicate. cbn in IH. rewrite IH. lia.
Qed.

(** What [choose_MAZ] returns when the assertions of lines 406 and 470
    hold: the others follow, and so does the one of line 479. *)
Lemma choose_MAZ_run taz_sample MAZ_size_terms rands :
  let choices := taz_choices taz_sample in
  let chooser_df := first_occurrences (chooser_id <$> taz_sample) in
  choices ≠ [] →
  chooser_id <$> choices
  = np_repeat chooser_df
      (replicate (length chooser_df) (taz_sample_size chooser_df choices)) →
  length rands = length choices →
  choose_MAZ taz_sample MAZ_size_terms rands
  = Ok (zip_with
          (chosen MAZ_size_terms
             (max_list (maz_counts (maz_sizes MAZ_size_terms choices))))
          choices rands).
Proof.
  intros choices chooser_df Hne Hrepeat Hrands. unfold choose_MAZ.
  fold choices. fold chooser_df.
  pose proof (maz_sizes_nonempty MAZ_size_terms choices) as Hgroups.
  pose proof (maz_counts_bounded _ Hgroups) as Hbound.
  assert (length choices
          = (length chooser_df * taz_sample_size chooser_df choices)%nat) as Hlen.
  { rewrite <- np_repeat_length, <- Hrepeat. by rewrite length_fmap. }
  assert (length (maz_sizes MAZ_size_terms choices) = length choices) as Hsizes.
  { unfold maz_sizes. by rewrite length_fmap. }
  rewrite decide_False by done.
  rewrite decide_False by (intros H; apply H; rewrite np_repeat_length; exact Hlen).
  rewrite decide_False by (intros H; by apply H).
  rewrite maz_probs_rows by done.
  rewrite decide_False; cycle 1.
  { intros [H|H].
    - apply H. rewrite length_fmap. etrans; [exact Hsizes|exact Hlen].
    - apply H, Forall_fmap. eapply Forall_impl; [exact Hbound|].
      intros g [_ Hg]. unfold compose, normalized.
      rewrite length_fmap, pad_length; [done|]. by rewrite length_fmap. }
  rewrite decide_False by (intros H; apply H; etrans; [exact Hrands|exact Hlen]).
  rewrite decide_False
    by (intros H; apply H; rewrite length_fmap; etrans; [exact Hrands|done]).
  rewrite decide_True by (apply positions_below; [done|by etrans]).
  rewrite positions_rows by done.
  rewrite first_row_offsets_starts; cycle 1.
  { unfold maz_counts, maz_sizes. by destruct choices. }
  pose proof (choose_rows_run MAZ_size_terms
                (max_list (maz_counts (maz_sizes MAZ_size_terms choices)))
                [] choices rands) as Hrun.
  cbn [app length] in Hrun. apply Hrun; [|done].
  clear -Hbound. unfold maz_sizes in Hbound at 2. apply Forall_fmap in Hbound.
  eapply Forall_impl; [exact Hbound|]. intros d Hd. cbn in Hd. lia.
Qed.

(** [choose_MAZ] returns nothing else. *)
Lemma choose_MAZ_inv taz_sample MAZ_size_terms rands rows :
  choose_MAZ taz_sample MAZ_size_terms rands = Ok rows →
  let choices := taz_choices taz_sample in
  length rands = length choices ∧
  rows = zip_with
           (chosen MAZ_size_terms
              (max_list (maz_counts (maz_sizes MAZ_size_terms choices))))
           choices rands.
Proof.
  intros Hrun choices.
  pose proof (choose_MAZ_run taz_sample MAZ_size_terms rands) as Hspec.
  cbn zeta in Hspec. fold choices in Hspec.
  pose proof Hrun as Hrows.
  unfold choose_MAZ in Hrun. fold choices in Hrun.
  destruct (decide (choices = [])) as [|Hne]; [done|].
  destruct (decide (length choices ≠ _)) as [|_]; [done|].
  destruct (decide (chooser_id <$> choices ≠ _)) as [|Hrepeat]; [done|].
  apply dec_stable in Hrepeat.
  destruct (decide (_ ∨ _)) as [|_]; [done|].
  destruct (decide (length rands ≠ _)) as [|_]; [done|].
  destruct (decide (length rands ≠ _)) as [|Hrands]; [done|].
  apply dec_stable in Hrands.
  rewrite maz_probs_rows, length_fmap in Hrands by apply maz_sizes_nonempty.
  unfold maz_sizes in Hrands. rewrite length_fmap in Hrands.
  split; [done|]. specialize (Hspec Hne Hrepeat Hrands).
  rewrite Hspec in Hrows. by injection Hrows as <-.
Qed.

(** C2: in [choose_MAZ_for_TAZ], for every row of the expanded
    [taz_choices], the position that line 476 selects is strictly below the
    number of candidate MAZ of that row, so that a padding cell is never
    selected.  It holds for every table of size terms and for all draws, one
    for each row; in particular for positive size terms and draws in
    [0, 1).  This is the condition that line 479 asserts. *)
Theorem choose_MAZ_positions_below_maz_counts taz_sample MAZ_size_terms rands :
  let maz_sizes := maz_sizes MAZ_size_terms (taz_choices taz_sample) in
  length rands = length (taz_choices taz_sample) →
  Forall2 lt (positions maz_sizes rands) (maz_counts maz_sizes).
Proof.
  intros sizes Hlen. apply positions_below; [apply maz_sizes_nonempty|].
  subst sizes. unfold maz_sizes. by rewrite length_fmap.
Qed.

(** Two choosers with three draws each, over two TAZ of two and one MAZ. *)
Definition example_taz_sample : list taz_sample_row :=
  [ {| chooser_id := 1; dest_TAZ := 10; prob := Q2Qc (1 # 2); pick_count := 2;
       addtl_col := 7 |};
    {| chooser_id := 1; dest_TAZ := 20; prob := Q2Qc (1 # 4); pick_count := 1;
       addtl_col := 7 |};
    {| chooser_id := 2; dest_TAZ := 10; prob := Q2Qc (1 # 3); pick_count := 3;
       addtl_col := 8 |} ].

Definition example_MAZ_size_terms : list maz_size_row :=
  [ {| zone_id := 101; maz_dest_TAZ := 10; size_term := Q2Qc 1 |};
    {| zone_id := 201; maz_dest_TAZ := 20; size_term := Q2Qc 2 |};
    {| zone_id := 102; maz_dest_TAZ := 10; size_term := Q2Qc 3 |} ].

Definition example_rands : list Qc :=
  [ Q2Qc (1 # 10); Q2Qc (9 # 10); Q2Qc (1 # 2);
    Q2Qc (1 # 5); Q2Qc (1 # 4); Q2Qc (3 # 4) ].

Lemma choose_MAZ_positions_below_maz_counts_witness :
  length example_rands = length (taz_choices example_taz_sample) ∧
  Forall2 lt
    (positions (maz_sizes example_MAZ_size_terms (taz_choices example_taz_sample))
       example_rands)
    (maz_counts (maz_sizes example_MAZ_size_terms (taz_choices example_taz_sample))).
Proof.
  split; [reflexivity|].
  apply (choose_MAZ_positions_below_maz_counts example_taz_sample
           example_MAZ_size_terms example_rands).
  reflexivity.
Defined.

(** ** Probabilities *)

(** The total of the size terms of the MAZ of a TAZ. *)
Definition taz_size (MAZ_size_terms : list maz_size_row) (taz : Z) : Qc :=
  foldl Qcplus 0%Qc
    (size_term <$> filter (λ m, maz_dest_TAZ m = taz) MAZ_size_terms).

Lemma np_sum_pad width (g : list num) :
  np_sum (pad width (Some 0%Qc) g) = np_sum g.
Proof.
  unfold np_sum, pad. rewrite foldl_app. generalize (foldl nadd (Some 0%Qc) g).
  induction (width - length g)%nat as [|k IH]; intros acc; [done|].
  cbn. by rewrite nadd_zero.
Qed.

Lemma foldl_nadd_Some acc (l : list Qc) :
  foldl nadd (Some acc) (Some <$> l) = Some (foldl Qcplus acc l).
Proof. revert acc. induction l as [|x l IH]; intros acc; [done|]. cbn. apply IH. Qed.

Lemma foldl_Qcplus_pos acc (l : list Qc) :
  (0 ≤ acc)%Qc → Forall (λ x, 0 < x)%Qc l → l ≠ [] → (0 < foldl Qcplus acc l)%Qc.
Proof.
  intros Hacc Hl. revert acc Hacc.
  induction Hl as [|x l Hx Hl IH]; intros acc Hacc Hne; [done|].
  assert (0 < acc + x)%Qc as Hpos.
  { apply Qclt_le_trans with x; [done|].
    rewrite <- (Qcplus_0_l x) at 1. apply Qcplus_le_compat; [done|apply Qcle_refl]. }
  cbn. destruct l as [|y l]; [done|].
  apply IH; [by apply Qclt_le_weak|done].
Qed.

(** What [chosen] holds when the size terms are positive: the zone is a
    MAZ of the TAZ of the draw, with its share of the size of the TAZ. *)
Lemma chosen_zone MAZ_size_terms width draw r zone :
  Forall (λ m, 0 < size_term m)%Qc MAZ_size_terms →
  (length (candidates MAZ_size_terms draw) ≤ width)%nat →
  dest_MAZ (chosen MAZ_size_terms width draw r) = Some zone →
  ∃ m, m ∈ MAZ_size_terms ∧ zone_id m = zone ∧ maz_dest_TAZ m = dest_TAZ draw ∧
       MAZ_prob (chosen MAZ_size_terms width draw r)
       = Some (size_term m / taz_size MAZ_size_terms (dest_TAZ draw))%Qc.
Proof.
  intros Hpositive Hwidth Hzone. unfold chosen in *. cbn [dest_MAZ MAZ_prob] in *.
  set (g := candidates MAZ_size_terms draw) in *.
  set (row := pad width (Some 0%Qc) g.*2) in *.
  assert (position_in row r < length g)%nat as Hpos.
  { pose proof (position_in_pad g.*2 width r) as Hpos.
    rewrite length_fmap in Hpos. apply Hpos.
    pose proof (candidates_nonempty MAZ_size_terms draw). subst g.
    by destruct (candidates MAZ_size_terms draw). }
  assert (np_sum row = np_sum g.*2) as Hsum by apply np_sum_pad.
  assert (normalized row !! position_in row r
          = (λ x, ndiv x (np_sum g.*2)) <$> (g.*2 !! position_in row r)) as Hp.
  { unfold normalized. rewrite list_lookup_fmap, Hsum. f_equal.
    revert Hpos. generalize (position_in row r). intros i Hi.
    subst row. unfold pad. apply lookup_app_l. by rewrite length_fmap. }
  rewrite Hp. clear Hp Hsum. revert Hzone Hpos. generalize (position_in row r).
  clear row. subst g. unfold candidates, taz_size.
  destruct (filter _ MAZ_size_terms) as [|m0 ms] eqn:Hfilter.
  { intros [|i] Hzone Hpos; [done|cbn in Hpos; lia]. }
  rewrite <- Hfilter. clear m0 ms Hfilter. intros i Hzone _.
  rewrite <- !list_fmap_compose in *.
  rewrite list_lookup_fmap in Hzone. rewrite list_lookup_fmap.
  destruct (filter _ MAZ_size_terms !! i) as [m|] eqn:Hm; [|done].
  apply list_elem_of_lookup_2, list_elem_of_filter in Hm as [Htaz Hm].
  cbn in Hzone. injection Hzone as <-.
  exists m. split_and!; try done. cbn.
  change (snd ∘ _) with (Some ∘ size_term). rewrite list_fmap_compose.
  unfold np_sum. rewrite foldl_nadd_Some. cbn. rewrite decide_False; [done|].
  apply not_eq_sym, Qclt_not_eq, foldl_Qcplus_pos.
  - apply Qcle_refl.
  - apply Forall_fmap, Forall_forall. intros x [_ Hx]%list_elem_of_filter.
    rewrite Forall_forall in Hpositive. by apply Hpositive.
  - intros Hnil. apply fmap_nil_inv in Hnil.
    assert (m ∈ filter (λ m, maz_dest_TAZ m = dest_TAZ draw) MAZ_size_terms) as Hin
      by by apply list_elem_of_filter.
    rewrite Hnil in Hin. by apply not_elem_of_nil in Hin.
Qed.

(** ** [choose_MAZ_for_TAZ]: when it returns, and what *)

Lemma np_repeat_length_sum {A} (a : list A) (repeats : list nat) :
  length a = length repeats →
  length (np_repeat a repeats) = sum_list repeats.
Proof.
  unfold np_repeat. revert repeats.
  induction a as [|x a IH]; intros [|n repeats] Hlen; try done.
  cbn. rewrite length_app, length_replicate, IH; [done|]. cbn in Hlen. lia.
Qed.

Lemma taz_choices_length taz_sample :
  length (taz_choices taz_sample) = sum_list (pick_count <$> taz_sample).
Proof. unfold taz_choices. apply np_repeat_length_sum. by rewrite length_fmap. Qed.

Lemma chosen_draws MAZ_size_terms width choices rands :
  length rands = length choices →
  taz_draw <$> zip_with (chosen MAZ_size_terms width) choices rands = choices.
Proof.
  revert rands. induction choices as [|d choices IH]; intros [|r rands] Hlen; try done.
  cbn. f_equal. apply IH. cbn in Hlen. lia.
Qed.

(** X14.  [choose_MAZ_for_TAZ] gets past its assertions exactly when the
    sample is not empty, the choosers of the expanded sample come in
    blocks of one size, one block for each chooser in the order of first
    appearance (the assertion of line 406), and there is one draw for
    each expanded row.  The assertion of line 479 never fails and the
    lookups of lines 483 and 484 never leave their arrays. *)
Theorem choose_MAZ_returns_iff taz_sample MAZ_size_terms rands :
  let choices := taz_choices taz_sample in
  let chooser_df := first_occurrences (chooser_id <$> taz_sample) in
  (∃ rows, choose_MAZ taz_sample MAZ_size_terms rands = Ok rows) ↔
  choices ≠ [] ∧
  chooser_id <$> choices
  = np_repeat chooser_df
      (replicate (length chooser_df) (taz_sample_size chooser_df choices)) ∧
  length rands = length choices.
Proof.
  intros choices chooser_df. split.
  - intros [rows Hrun]. unfold choose_MAZ in Hrun.
    fold choices in Hrun. fold chooser_df in Hrun.
    destruct (decide (choices = [])) as [|Hne]; [done|].
    destruct (decide (length choices ≠ _)) as [|_]; [done|].
    destruct (decide (chooser_id <$> choices ≠ _)) as [|Hrepeat]; [done|].
    apply dec_stable in Hrepeat.
    destruct (decide (_ ∨ _)) as [|_]; [done|].
    destruct (decide (length rands ≠ _)) as [|_]; [done|].
    destruct (decide (length rands ≠ _)) as [|Hrands]; [done|].
    apply dec_stable in Hrands.
    rewrite maz_probs_rows, length_fmap in Hrands by apply maz_sizes_nonempty.
    unfold maz_sizes in Hrands. rewrite length_fmap in Hrands. done.
  - intros (Hne & Hrepeat & Hrands). eexists.
    by apply choose_MAZ_run.
Qed.

(** X15.  When it returns, [choose_MAZ] has one row for each row of the
    expanded sample, in the same order: as many rows as the pick counts of
    [taz_sample] add up to, each carrying the chooser, the TAZ and the
    probability of the sample row it repeats. *)
Theorem choose_MAZ_one_row_per_draw taz_sample MAZ_size_terms rands rows :
  choose_MAZ taz_sample MAZ_size_terms rands = Ok rows →
  taz_draw <$> rows = taz_choices taz_sample ∧
  length rows = sum_list (pick_count <$> taz_sample) ∧
  length rows = length rands.
Proof.
  intros [Hlen ->]%choose_MAZ_inv.
  rewrite chosen_draws by done. split; [done|].
  rewrite length_zip_with, Hlen, taz_choices_length. lia.
Qed.

Lemma choose_MAZ_one_row_per_draw_witness :
  ∃ rows, choose_MAZ example_taz_sample example_MAZ_size_terms example_rands = Ok rows ∧
    taz_draw <$> rows = taz_choices example_taz_sample ∧
    length rows = sum_list (pick_count <$> example_taz_sample) ∧
    length rows = length example_rands.
Proof.
  destruct (choose_MAZ example_taz_sample example_MAZ_size_terms example_rands)
    as [rows|e] eqn:Hrun; [|by vm_compute in Hrun].
  exists rows. split; [done|].
  exact (choose_MAZ_one_row_per_draw _ _ _ _ Hrun).
Defined.

(** ** [choose_MAZ_for_TAZ]: the zone and the probabilities of a row *)

(** A row without a zone belongs to a TAZ without MAZ, and has no
    probability either. *)
Lemma chosen_no_zone MAZ_size_terms width draw r :
  (length (candidates MAZ_size_terms draw) ≤ width)%nat →
  dest_MAZ (chosen MAZ_size_terms width draw r) = None →
  filter (λ m, maz_dest_TAZ m = dest_TAZ draw) MAZ_size_terms = [] ∧
  MAZ_prob (chosen MAZ_size_terms width draw r) = None.
Proof.
  intros Hwidth Hzone. unfold chosen in *. cbn [dest_MAZ MAZ_prob] in *.
  set (g := candidates MAZ_size_terms draw) in *.
  set (row := pad width (Some 0%Qc) g.*2) in *.
  assert (position_in row r < length g)%nat as Hpos.
  { pose proof (position_in_pad g.*2 width r) as Hpos.
    rewrite length_fmap in Hpos. apply Hpos.
    pose proof (candidates_nonempty MAZ_size_terms draw). subst g.
    by destruct (candidates MAZ_size_terms draw). }
  revert Hzone Hpos. subst row. generalize (position_in (pad width (Some 0%Qc) g.*2) r).
  intros i Hzone Hi. subst g. unfold candidates in *.
  destruct (filter _ MAZ_size_terms) as [|m0 ms] eqn:Hfilter.
  - split; [done|]. destruct i as [|i]; [|cbn in Hi; lia].
    unfold normalized, pad. cbn [fmap list_fmap app]. by destruct width.
  - rewrite <- list_fmap_compose, list_lookup_fmap in Hzone.
    destruct ((m0 :: ms) !! i) as [m|] eqn:Hm; [done|].
    apply lookup_ge_None in Hm. rewrite length_fmap in Hi. lia.
Qed.

(** A row with a zone has one of the MAZ of its TAZ, wherever the
    position came from. *)
Lemma chosen_zone_member MAZ_size_terms width draw r zone :
  dest_MAZ (chosen MAZ_size_terms width draw r) = Some zone →
  ∃ m, m ∈ MAZ_size_terms ∧ zone_id m = zone ∧ maz_dest_TAZ m = dest_TAZ draw.
Proof.
  unfold chosen. cbn [dest_MAZ].
  generalize (position_in
                (pad width (Some 0%Qc) (candidates MAZ_size_terms draw).*2) r).
  intros i Hzone. unfold candidates in Hzone.
  destruct (filter _ MAZ_size_terms) as [|m0 ms] eqn:Hfilter.
  - by destruct i as [|[|i]].
  - rewrite <- Hfilter in Hzone. clear m0 ms Hfilter.
    rewrite <- list_fmap_compose, list_lookup_fmap in Hzone.
    destruct (filter _ MAZ_size_terms !! i) as [m|] eqn:Hm; [|done].
    apply list_elem_of_lookup_2, list_elem_of_filter in Hm as [Htaz Hm].
    cbn in Hzone. injection Hzone as <-. by exists m.
Qed.

(** X16.  Whatever the size terms and the draws, every row [choose_MAZ]
    returns that has a zone has one of the MAZ of the TAZ it was drawn
    for.  A row without a zone was drawn for a TAZ that has no MAZ, and
    has no probability. *)
Theorem choose_MAZ_picks_within_TAZ taz_sample MAZ_size_terms rands rows :
  choose_MAZ taz_sample MAZ_size_terms rands = Ok rows →
  Forall (λ c,
    match dest_MAZ c with
    | Some zone =>
        ∃ m, m ∈ MAZ_size_terms ∧ zone_id m = zone ∧
             maz_dest_TAZ m = dest_TAZ (taz_draw c)
    | None =>
        (∀ m, m ∈ MAZ_size_terms → maz_dest_TAZ m ≠ dest_TAZ (taz_draw c)) ∧
        MAZ_prob c = None ∧ joint_prob c = None
    end) rows.
Proof.
  intros [Hlen ->]%choose_MAZ_inv.
  set (choices := taz_choices taz_sample) in *.
  pose proof (maz_counts_bounded _ (maz_sizes_nonempty MAZ_size_terms choices)) as Hbound.
  unfold maz_sizes in Hbound at 2. apply Forall_fmap in Hbound.
  revert Hbound. generalize (max_list (maz_counts (maz_sizes MAZ_size_terms choices))).
  intros width Hbound. clear Hlen. revert rands.
  induction Hbound as [|d choices [_ Hd] _ IH]; intros [|r rands]; try by constructor.
  cbn [zip_with]. constructor; [|apply IH]. cbn in Hd.
  destruct (dest_MAZ (chosen MAZ_size_terms width d r)) as [zone|] eqn:Hzone.
  - by apply (chosen_zone_member MAZ_size_terms width d r).
  - destruct (chosen_no_zone MAZ_size_terms width d r Hd Hzone) as [Hfilter Hprob].
    split; [|split; [done|]].
    + intros m Hm Htaz.
      assert (m ∈ filter (λ m, maz_dest_TAZ m = dest_TAZ d) MAZ_size_terms) as Hin
        by by apply list_elem_of_filter.
      rewrite Hfilter in Hin. by apply elem_of_nil in Hin.
    + change (joint_prob (chosen MAZ_size_terms width d r))
        with (nmul (Some (prob d)) (MAZ_prob (chosen MAZ_size_terms width d r))).
      by rewrite Hprob.
Qed.

Lemma example_MAZ_size_terms_positive :
  Forall (λ m, 0 < size_term m)%Qc example_MAZ_size_terms.
Proof. repeat constructor. Qed.

Lemma choose_MAZ_picks_within_TAZ_witness :
  ∃ rows, choose_MAZ example_taz_sample example_MAZ_size_terms example_rands = Ok rows ∧
  Forall (λ c,
    match dest_MAZ c with
    | Some zone =>
        ∃ m, m ∈ example_MAZ_size_terms ∧ zone_id m = zone ∧
             maz_dest_TAZ m = dest_TAZ (taz_draw c)
    | None =>
        (∀ m, m ∈ example_MAZ_size_terms → maz_dest_TAZ m ≠ dest_TAZ (taz_draw c)) ∧
        MAZ_prob c = None ∧ joint_prob c = None
    end) rows.
Proof.
  destruct (choose_MAZ example_taz_sample example_MAZ_size_terms example_rands)
    as [rows|e] eqn:Hrun; [|by vm_compute in Hrun].
  exists rows. split; [done|].
  exact (choose_MAZ_picks_within_TAZ _ _ _ _ Hrun).
Defined.

(** ** [choose_MAZ_for_TAZ]: the final grouping *)(** ** [choose_MAZ_for_TAZ]: the final grouping *)

(** The key columns of a row of the result. *)
Definition key_of (out : maz_sample_row) : Z * Z * option Z :=
  (out_chooser_id out, out_dest_MAZ out, out_addtl_col out).

Lemma key_of_aggregate key group : key_of (aggregate key group) = key.
Proof. by destruct key as [[a b] c]. Qed.

#[global] Instance key_le_total : Total key_le.
Proof. intros [[a b] c] [[a' b'] c']. unfold key_le. cbn. lia. Qed.

#[global] Instance key_le_trans : Transitive key_le.
Proof.
  intros [[a b] c] [[a' b'] c'] [[a'' b''] c'']. unfold key_le. cbn. lia.
Qed.

Lemma keys_of_group_choices use rows :
  key_of <$> group_choices use rows
  = merge_sort key_le (remove_dups (omap (group_key use) rows)).
Proof.
  unfold group_choices. rewrite <- list_fmap_compose.
  etrans; [|apply list_fmap_id]. apply list_fmap_ext.
  intros i key _. apply key_of_aggregate.
Qed.

Lemma omap_all_Some {A B} (f : A → option B) (l : list A) :
  Forall (λ x, is_Some (f x)) l →
  length (omap f l) = length l ∧ head (omap f l) = head l ≫= f.
Proof.
  intros Hl. split.
  - induction Hl as [|x l [y Hy] _ IH]; [done|]. cbn. rewrite Hy. cbn. by rewrite IH.
  - destruct Hl as [|x l [y Hy] _]; [done|]. cbn. by rewrite Hy.
Qed.

(** What the grouping makes of a list of rows whose probability is not
    null wherever the zone is not. *)
Lemma group_choices_spec use rows :
  Forall (λ c, is_Some (dest_MAZ c) → is_Some (joint_prob c)) rows →
  NoDup (key_of <$> group_choices use rows) ∧
  StronglySorted key_le (key_of <$> group_choices use rows) ∧
  (∀ c key, c ∈ rows → group_key use c = Some key →
            key ∈ key_of <$> group_choices use rows) ∧
  Forall (λ out, ∃ first rest,
            group_rows use rows (key_of out) = first :: rest ∧
            out_prob out = joint_prob first ∧
            out_pick_count out = S (length rest))
    (group_choices use rows).
Proof.
  intros Hprob. rewrite keys_of_group_choices. split; [|split; [|split]].
  - rewrite merge_sort_Permutation. apply NoDup_remove_dups.
  - apply StronglySorted_merge_sort; apply _.
  - intros c key Hc Hkey. rewrite merge_sort_Permutation.
    apply elem_of_remove_dups, list_elem_of_omap. eauto.
  - unfold group_choices. apply Forall_fmap, Forall_forall. intros key Hkey.
    rewrite merge_sort_Permutation in Hkey.
    apply elem_of_remove_dups, list_elem_of_omap in Hkey as (c & Hc & Hkey).
    cbn. rewrite key_of_aggregate.
    assert (c ∈ group_rows use rows key) as Hin by by apply list_elem_of_filter.
    destruct (group_rows use rows key) as [|first rest] eqn:Hgroup;
      [by apply elem_of_nil in Hin|].
    exists first, rest. split; [done|].
    assert (Forall (λ c, is_Some (joint_prob c)) (first :: rest)) as Hall.
    { rewrite <- Hgroup. apply Forall_forall.
      intros x [Hx Hxin]%list_elem_of_filter.
      rewrite Forall_forall in Hprob. apply Hprob; [done|].
      unfold group_key in Hx. destruct (dest_MAZ x); [by eexists|done]. }
    destruct (omap_all_Some joint_prob _ Hall) as [Hlen Hhead].
    unfold aggregate. cbn [out_prob out_pick_count].
    rewrite Hlen, Hhead. cbn. split; [|done].
    apply Forall_inv in Hall as [p Hp]. by rewrite Hp.
Qed.

Lemma choose_MAZ_rows_have_prob taz_sample MAZ_size_terms rands rows :
  Forall (λ m, 0 < size_term m)%Qc MAZ_size_terms →
  choose_MAZ taz_sample MAZ_size_terms rands = Ok rows →
  Forall (λ c, is_Some (dest_MAZ c) → is_Some (joint_prob c)) rows.
Proof.
  intros Hpositive [Hlen ->]%choose_MAZ_inv.
  set (choices := taz_choices taz_sample) in *.
  pose proof (maz_counts_bounded _ (maz_sizes_nonempty MAZ_size_terms choices)) as Hbound.
  unfold maz_sizes in Hbound at 2. apply Forall_fmap in Hbound.
  revert Hbound. generalize (max_list (maz_counts (maz_sizes MAZ_size_terms choices))).
  intros width Hbound. clear Hlen. revert rands.
  induction Hbound as [|d choices [_ Hd] _ IH]; intros [|r rands]; try by constructor.
  cbn [zip_with]. constructor; [|apply IH]. cbn in Hd. intros [zone Hzone].
  destruct (chosen_zone MAZ_size_terms width d r zone Hpositive Hd Hzone)
    as (m & _ & _ & _ & Hprob).
  change (joint_prob (chosen MAZ_size_terms width d r))
    with (nmul (Some (prob d)) (MAZ_prob (chosen MAZ_size_terms width d r))).
  rewrite Hprob. by eexists.
Qed.

Lemma choose_MAZ_for_TAZ_inv taz_sample MAZ_size_terms rands use out :
  choose_MAZ_for_TAZ taz_sample MAZ_size_terms rands use = Ok out →
  ∃ rows, choose_MAZ taz_sample MAZ_size_terms rands = Ok rows ∧
          out = group_choices use rows.
Proof.
  unfold choose_MAZ_for_TAZ.
  destruct (choose_MAZ taz_sample MAZ_size_terms rands) as [rows|e]; [|done].
  cbn. intros [= <-]. by exists rows.
Qed.

(** X19.  With positive size terms, the result of [choose_MAZ_for_TAZ]
    has one row for each key (chooser, MAZ and, when one is named, the
    additional column) that occurs among the rows with a zone, the keys in
    ascending order.  The pick count of a row is the number of rows with
    its key, and its probability is the probability of the first of them:
    the probabilities of a group are not added up. *)
Theorem choose_MAZ_for_TAZ_groups taz_sample MAZ_size_terms rands use out :
  Forall (λ m, 0 < size_term m)%Qc MAZ_size_terms →
  choose_MAZ_for_TAZ taz_sample MAZ_size_terms rands use = Ok out →
  ∃ rows, choose_MAZ taz_sample MAZ_size_terms rands = Ok rows ∧
    NoDup (key_of <$> out) ∧
    StronglySorted key_le (key_of <$> out) ∧
    (∀ c key, c ∈ rows → group_key use c = Some key → key ∈ key_of <$> out) ∧
    Forall (λ o, ∃ first rest,
              group_rows use rows (key_of o) = first :: rest ∧
              out_prob o = joint_prob first ∧
              out_pick_count o = S (length rest)) out.
Proof.
  intros Hpositive (rows & Hrows & ->)%choose_MAZ_for_TAZ_inv.
  exists rows. split; [done|].
  apply group_choices_spec. by eapply choose_MAZ_rows_have_prob.
Qed.

Lemma choose_MAZ_for_TAZ_groups_witness :
  ∃ out rows,
    choose_MAZ_for_TAZ example_taz_sample example_MAZ_size_terms example_rands true
    = Ok out ∧
    choose_MAZ example_taz_sample example_MAZ_size_terms example_rands = Ok rows ∧
    NoDup (key_of <$> out) ∧
    StronglySorted key_le (key_of <$> out) ∧
    (∀ c key, c ∈ rows → group_key true c = Some key → key ∈ key_of <$> out) ∧
    Forall (λ o, ∃ first rest,
              group_rows true rows (key_of o) = first :: rest ∧
              out_prob o = joint_prob first ∧
              out_pick_count o = S (length rest)) out.
Proof.
  destruct (choose_MAZ_for_TAZ example_taz_sample example_MAZ_size_terms
              example_rands true) as [out|e] eqn:Hrun; [|by vm_compute in Hrun].
  exists out.
  destruct (choose_MAZ_for_TAZ_groups _ _ _ _ _ example_MAZ_size_terms_positive Hrun)
    as (rows & Hrows).
  by exists rows.
Defined.

(** ** [choose_MAZ_for_TAZ]: joint probabilities and collapsed rows *)







(** ** [choose_MAZ_for_TAZ]: the picks are conserved *)

(** The TAZ of a row of the sample has a MAZ in [MAZ_size_terms]. *)
Definition has_MAZ (MAZ_size_terms : list maz_size_row) (row : taz_sample_row) : Prop :=
  filter (λ m, maz_dest_TAZ m = dest_TAZ row) MAZ_size_terms ≠ [].

#[global] Instance has_MAZ_dec MAZ_size_terms row : Decision (has_MAZ MAZ_size_terms row).
Proof. unfold has_MAZ. apply _. Defined.

Lemma chosen_has_zone MAZ_size_terms width draw r :
  (length (candidates MAZ_size_terms draw) ≤ width)%nat →
  is_Some (dest_MAZ (chosen MAZ_size_terms width draw r))
  ↔ has_MAZ MAZ_size_terms draw.
Proof.
  intros Hwidth. split.
  - intros [zone Hzone] Hnil.
    destruct (dest_MAZ (chosen MAZ_size_terms width draw r)) as [z|] eqn:E; [|done].
    clear Hzone zone. unfold chosen in E. cbn [dest_MAZ] in E.
    unfold candidates in E. rewrite Hnil in E.
    cbn [fmap list_fmap] in E.
    destruct (position_in _ r) as [|i]; [done|]. by destruct i.
  - intros Hne.
    destruct (dest_MAZ (chosen MAZ_size_terms width draw r)) as [z|] eqn:E;
      [by eexists|].
    by destruct (chosen_no_zone MAZ_size_terms width draw r Hwidth E) as [Hnil _].
Qed.

Lemma sum_list_with_fmap {A} (f : A → nat) (l : list A) :
  sum_list (f <$> l) = sum_list_with f l.
Proof. induction l as [|x l IH]; [done|]. cbn. by rewrite IH. Qed.

Lemma sum_list_with_add {A} (f g : A → nat) (l : list A) :
  sum_list_with (λ x, f x + g x)%nat l = (sum_list_with f l + sum_list_with g l)%nat.
Proof. induction l as [|x l IH]; [done|]. cbn. rewrite IH. lia. Qed.

Lemma sum_list_with_zero {A} (f : A → nat) (l : list A) :
  (∀ x, x ∈ l → f x = 0%nat) → sum_list_with f l = 0%nat.
Proof.
  induction l as [|x l IH]; intros Hf; [done|]. cbn.
  rewrite (Hf x) by left. apply IH. intros y Hy. apply Hf. by right.
Qed.

Lemma sum_list_with_indicator `{EqDecision A} (x : A) (l : list A) :
  NoDup l → x ∈ l →
  sum_list_with (λ y, if decide (y = x) then 1 else 0)%nat l = 1%nat.
Proof.
  induction 1 as [|y l Hy Hnodup IH]; [by intros ?%elem_of_nil|].
  intros Hx. cbn. destruct (decide (y = x)) as [->|Hne].
  - rewrite sum_list_with_zero; [done|].
    intros z Hz. rewrite decide_False; [done|]. by intros ->.
  - apply elem_of_cons in Hx as [->|Hx]; [done|]. by rewrite IH.
Qed.

Lemma sum_list_with_ext {A} (f g : A → nat) (l : list A) :
  (∀ x, x ∈ l → f x = g x) → sum_list_with f l = sum_list_with g l.
Proof.
  induction l as [|x l IH]; intros Hfg; [done|]. cbn.
  rewrite (Hfg x) by left. f_equal. apply IH. intros y Hy. apply Hfg. by right.
Qed.

(** Every row with a key is counted once, in the group of its key. *)
Lemma group_counts_sum use rows (keys : list (Z * Z * option Z)) :
  NoDup keys →
  (∀ c key, c ∈ rows → group_key use c = Some key → key ∈ keys) →
  sum_list_with (λ key, length (group_rows use rows key)) keys
  = length (filter (λ c, is_Some (group_key use c)) rows).
Proof.
  intros Hnodup. induction rows as [|c rows IH]; intros Hkeys.
  - by apply sum_list_with_zero.
  - assert (∀ c' key, c' ∈ rows → group_key use c' = Some key → key ∈ keys) as Hrest
      by (intros c' key Hc'; apply Hkeys; by right).
    specialize (IH Hrest). rewrite filter_cons.
    destruct (group_key use c) as [k0|] eqn:Hc.
    + rewrite decide_True by by eexists. cbn [length]. rewrite <- IH.
      rewrite (sum_list_with_ext _
                 (λ key, (if decide (key = k0) then 1 else 0)
                         + length (group_rows use rows key))%nat).
      * rewrite sum_list_with_add, sum_list_with_indicator; [done..|].
        apply (Hkeys c); [left|done].
      * intros key _. unfold group_rows. rewrite filter_cons, Hc.
        destruct (decide (key = k0)) as [->|Hne].
        -- by rewrite decide_True.
        -- rewrite decide_False; [done|]. by intros [= ->].
    + rewrite decide_False by (by intros [? ?]). rewrite <- IH.
      apply sum_list_with_ext. intros key _. unfold group_rows.
      by rewrite filter_cons, Hc, decide_False.
Qed.

Lemma filter_all {A} (P : A → Prop) `{!∀ x, Decision (P x)} (l : list A) :
  Forall P l → filter P l = l.
Proof.
  induction 1 as [|x l Hx _ IH]; [done|]. by rewrite filter_cons_True, IH.
Qed.

Lemma filter_none {A} (P : A → Prop) `{!∀ x, Decision (P x)} (l : list A) :
  Forall (λ x, ¬ P x) l → filter P l = [].
Proof. induction 1 as [|x l Hx _ IH]; [done|]. by rewrite filter_cons_False. Qed.

Lemma filter_np_repeat {A} (P : A → Prop) `{!∀ x, Decision (P x)}
    (a : list A) (count : A → nat) :
  length (filter P (np_repeat a (count <$> a)))
  = sum_list (count <$> filter P a).
Proof.
  unfold np_repeat. induction a as [|x a IH]; [done|].
  cbn [fmap list_fmap zip_with concat]. rewrite filter_app, length_app, IH.
  rewrite filter_cons. destruct (decide (P x)) as [Hx|Hx].
  - cbn. f_equal. rewrite filter_all; [apply length_replicate|].
    apply Forall_forall. by intros y [-> _]%elem_of_replicate.
  - rewrite filter_none; [done|].
    apply Forall_forall. by intros y [-> _]%elem_of_replicate.
Qed.

Lemma chosen_zones_count MAZ_size_terms width choices rands :
  Forall (λ d, length (candidates MAZ_size_terms d) ≤ width)%nat choices →
  length rands = length choices →
  length (filter (λ c, is_Some (dest_MAZ c))
            (zip_with (chosen MAZ_size_terms width) choices rands))
  = length (filter (has_MAZ MAZ_size_terms) choices).
Proof.
  intros Hwidth. revert rands.
  induction Hwidth as [|d choices Hd _ IH]; intros [|r rands] Hlen; try done.
  cbn [zip_with]. rewrite !filter_cons.
  pose proof (chosen_has_zone MAZ_size_terms width d r Hd) as Hiff.
  destruct (decide (has_MAZ MAZ_size_terms d)) as [Hmaz|Hmaz].
  - rewrite decide_True by by apply Hiff. cbn. f_equal. apply IH. cbn in Hlen. lia.
  - rewrite decide_False by (by intros ?%Hiff). apply IH. cbn in Hlen. lia.
Qed.

(** X20.  With positive size terms, the pick counts of the result of
    [choose_MAZ_for_TAZ] add up to the pick counts of the rows of the
    sample whose TAZ has a MAZ.  Every pick of such a row survives the
    grouping; the picks of a TAZ without MAZ are dropped without notice.
    When every sampled TAZ has a MAZ the total pick count is that of the
    sample. *)
Theorem choose_MAZ_for_TAZ_conserves_picks taz_sample MAZ_size_terms rands use out :
  Forall (λ m, 0 < size_term m)%Qc MAZ_size_terms →
  choose_MAZ_for_TAZ taz_sample MAZ_size_terms rands use = Ok out →
  sum_list (out_pick_count <$> out)
  = sum_list (pick_count <$> filter (has_MAZ MAZ_size_terms) taz_sample) ∧
  (Forall (has_MAZ MAZ_size_terms) taz_sample →
   sum_list (out_pick_count <$> out) = sum_list (pick_count <$> taz_sample)).
Proof.
  intros Hpositive (rows & Hrows & ->)%choose_MAZ_for_TAZ_inv.
  assert (sum_list (out_pick_count <$> group_choices use rows)
          = sum_list (pick_count <$> filter (has_MAZ MAZ_size_terms) taz_sample))
    as Hsum; cycle 1.
  { split; [done|]. intros Hall. rewrite Hsum.
    by rewrite filter_all. }
  pose proof (choose_MAZ_rows_have_prob _ _ _ _ Hpositive Hrows) as Hprob.
  destruct (group_choices_spec use rows Hprob) as (Hnodup & _ & Hkeys & Hout).
  rewrite sum_list_with_fmap.
  rewrite (sum_list_with_ext _ (λ o, length (group_rows use rows (key_of o)))); cycle 1.
  { intros o Ho. rewrite Forall_forall in Hout.
    destruct (Hout o Ho) as (first & rest & -> & _ & ->). done. }
  rewrite <- (sum_list_with_fmap (λ o, length (group_rows use rows (key_of o)))).
  rewrite (list_fmap_compose key_of (λ key, length (group_rows use rows key))).
  rewrite sum_list_with_fmap, group_counts_sum by done.
  rewrite (list_filter_iff _ (λ c, is_Some (dest_MAZ c))); cycle 1.
  { intros c. unfold group_key. destruct (dest_MAZ c); [|by split; intros [? ?]].
    split; intros _; by eexists. }
  apply choose_MAZ_inv in Hrows as [Hlen ->].
  rewrite chosen_zones_count; [|..|done].
  - unfold taz_choices. apply filter_np_repeat.
  - pose proof (maz_counts_bounded _
                  (maz_sizes_nonempty MAZ_size_terms (taz_choices taz_sample))) as Hbound.
    unfold maz_sizes in Hbound at 2. apply Forall_fmap in Hbound.
    eapply Forall_impl; [exact Hbound|]. by intros d [_ Hd].
Qed.

Lemma choose_MAZ_for_TAZ_conserves_picks_witness :
  ∃ out,
    choose_MAZ_for_TAZ example_taz_sample example_MAZ_size_terms example_rands true
    = Ok out ∧
    sum_list (out_pick_count <$> out)
    = sum_list (pick_count <$> filter (has_MAZ example_MAZ_size_terms)
                                 example_taz_sample) ∧
    (Forall (has_MAZ example_MAZ_size_terms) example_taz_sample →
     sum_list (out_pick_count <$> out) = sum_list (pick_count <$> example_taz_sample)).
Proof.
  destruct (choose_MAZ_for_TAZ example_taz_sample example_MAZ_size_terms
              example_rands true) as [out|e] eqn:Hrun; [|by vm_compute in Hrun].
  exists out. split; [done|].
  exact (choose_MAZ_for_TAZ_conserves_picks _ _ _ _ _
           example_MAZ_size_terms_positive Hrun).
Defined.

(** ** Origin-destination identifiers *)

(** [get_od_id_col], [create_od_id_col] and [_get_od_cols_from_od_id]
    write a pair of zones as ["<origin>_<destination>"] and read it back.
    Strings are ASCII. *)

(** The exceptions of this part: a column that is missing, the [.str]
    accessor on a column that does not hold Python objects, and
    [astype(int)] on a cell that is not the text of an integer ([None]
    for a null cell). *)
Inductive od_exn :=
| OdKeyError (column : string)
| OdAttributeError
| OdValueError (text : option string).

(** [str(z)] *)
Definition py_str (z : Z) : string := DecimalString.NilEmpty.string_of_int (Z.to_int z).

Definition is_space (a : ascii) : bool :=
  let n := N_of_ascii a in
  ((9 <=? n) && (n <=? 13) || (28 <=? n) && (n <=? 32))%N.

Definition is_digit (a : ascii) : bool :=
  let n := N_of_ascii a in ((48 <=? n) && (n <=? 57))%N.

Fixpoint lstrip (s : string) : string :=
  match s with
  | EmptyString => EmptyString
  | String a s' => if is_space a then lstrip s' else s
  end.

Fixpoint rstrip (s : string) : string :=
  match s with
  | EmptyString => EmptyString
  | String a s' =>
      match rstrip s' with
      | EmptyString => if is_space a then EmptyString else String a EmptyString
      | r => String a r
      end
  end.

(** The digits of a numeral in which single underscores may stand
    between digits. *)
Fixpoint digits (after_digit : bool) (s : string) : option string :=
  match s with
  | EmptyString => if after_digit then Some EmptyString else None
  | String a s' =>
      if is_digit a then String a <$> digits true s'
      else if Ascii.eqb a "_" then
        if after_digit then digits false s' else None
      else None
  end.

Definition py_int_unsigned (s : string) : option Z :=
  d ← digits false s; Z.of_uint <$> DecimalString.NilEmpty.uint_of_string d.

(** [int(s)] for a string, in base ten: white space around the numeral, a
    sign, digits; [None] stands for [ValueError]. *)
Definition py_int (s : string) : option Z :=
  match lstrip (rstrip s) with
  | EmptyString => None
  | String a s' =>
      if Ascii.eqb a "-" then Z.opp <$> py_int_unsigned s'
      else if Ascii.eqb a "+" then py_int_unsigned s'
      else py_int_unsigned (String a s')
  end.

(** [s.split(sep)] for a separator of one character. *)
Fixpoint split_on (sep : ascii) (s : string) : list string :=
  match s with
  | EmptyString => [EmptyString]
  | String a s' =>
      if Ascii.eqb a sep then EmptyString :: split_on sep s'
      else match split_on sep s' with
           | part :: parts => String a part :: parts
           | [] => [String a EmptyString]
           end
  end.

(** [get_od_id_col] *)
Definition get_od_id_col (origin_col destination_col : string) : string :=
  origin_col +:+ "_" +:+ destination_col.

(** A cell of [s.astype(str)], for a column of the given dtype. *)
Definition astype_str (dt : dtype) (c : cell) : string :=
  match c with
  | NaN => "nan"
  | CStr s => s
  | CNum z => if decide (dt = DFloat64) then py_str z +:+ ".0" else py_str z
  | CBool true => "True"
  | CBool false => "False"
  end.

(** [create_od_id_col] *)
Definition create_od_id_col (df : DataFrame) (origin_col destination_col : string)
    : od_exn + Series :=
  match lookup_column (columns df) origin_col with
  | None => inl (OdKeyError origin_col)
  | Some o =>
      match lookup_column (columns df) destination_col with
      | None => inl (OdKeyError destination_col)
      | Some d =>
          inr {| dtype_of := DObject;
                 values := zip_with (λ a b, CStr (astype_str (dtype_of o) a +:+ "_"
                                                   +:+ astype_str (dtype_of d) b))
                             (values o) (values d) |}
      end
  end.

(** [s.str.split("_").str[i]] for one cell: null when the cell is not a
    string or has no such part. *)
Definition str_split_get (i : nat) (c : cell) : option string :=
  match c with
  | CStr s => split_on "_" s !! i
  | _ => None
  end.

(** [astype(int)] for one cell. *)
Definition astype_int (text : option string) : od_exn + Z :=
  match text with
  | Some s => match py_int s with
              | Some z => inr z
              | None => inl (OdValueError (Some s))
              end
  | None => inl (OdValueError None)
  end.

Fixpoint astype_int_all (texts : list (option string)) : od_exn + list Z :=
  match texts with
  | [] => inr []
  | text :: texts =>
      match astype_int text with
      | inl e => inl e
      | inr z => match astype_int_all texts with
                 | inl e => inl e
                 | inr zs => inr (z :: zs)
                 end
      end
  end.

(** [df[od_id_col].str.split("_").str[i].astype(int)] *)
Definition od_part (df : DataFrame) (od_id_col : string) (i : nat) : od_exn + Series :=
  match lookup_column (columns df) od_id_col with
  | None => inl (OdKeyError od_id_col)
  | Some col =>
      if decide (dtype_of col = DObject) then
        match astype_int_all (str_split_get i <$> values col) with
        | inl e => inl e
        | inr zs => inr {| dtype_of := DInt64; values := CNum <$> zs |}
        end
      else inl OdAttributeError
  end.

(** [df[name] = col]: the column is replaced where it stands, or added
    after the others. *)
Definition set_column (df : DataFrame) (name : string) (col : Series) : DataFrame :=
  {| index := index df;
     columns :=
       if decide (name ∈ column_names df)
       then map (λ '(n, c), (n, if decide (n = name) then col else c)) (columns df)
       else columns df ++ [(name, col)] |}.

(** [_get_od_cols_from_od_id]: the frame is updated in place, so it is
    returned whether or not an exception was raised on the way. *)
Definition _get_od_cols_from_od_id (df : DataFrame)
    (orig_col_name dest_col_name od_id_col : string) : option od_exn * DataFrame :=
  match od_part df od_id_col 0 with
  | inl e => (Some e, df)
  | inr o =>
      let df := set_column df orig_col_name o in
      match od_part df od_id_col 1 with
      | inl e => (Some e, df)
      | inr d => (None, set_column df dest_col_name d)
      end
  end.

(** *** Reading back what was written *)

Definition no_char (P : ascii → bool) (s : string) : Prop :=
  Forall (λ a, P a = false) (String.list_ascii_of_string s).

Lemma uint_digits d :
  Forall (λ a, is_digit a = true) (String.list_ascii_of_string (DecimalString.NilEmpty.string_of_uint d)).
Proof. induction d; cbn; by constructor. Qed.

Lemma digits_of_digits s :
  Forall (λ a, is_digit a = true) (String.list_ascii_of_string s) →
  s ≠ EmptyString → digits false s = Some s ∧ digits true s = Some s.
Proof.
  induction s as [|a s IH]; [done|]. cbn. intros [Ha Hs]%Forall_cons _.
  rewrite Ha. destruct s as [|b s]; [done|].
  destruct IH as [_ ->]; done.
Qed.

Lemma py_int_unsigned_uint d :
  d ≠ Decimal.Nil → py_int_unsigned (DecimalString.NilEmpty.string_of_uint d) = Some (Z.of_uint d).
Proof.
  intros Hd. unfold py_int_unsigned.
  destruct (digits_of_digits (DecimalString.NilEmpty.string_of_uint d)) as [-> _].
  - apply uint_digits.
  - by destruct d.
  - cbn. by rewrite DecimalString.NilEmpty.usu.
Qed.

Lemma rstrip_no_space s :
  Forall (λ a, is_space a = false) (String.list_ascii_of_string s) → rstrip s = s.
Proof.
  induction s as [|a s IH]; [done|]. cbn. intros [Ha Hs]%Forall_cons.
  rewrite IH, Ha by done. by destruct s.
Qed.

Lemma digit_not_space a : is_digit a = true → is_space a = false.
Proof.
  unfold is_digit, is_space. cbn zeta. intros H.
  apply andb_true_iff in H as [H1%N.leb_le H2%N.leb_le].
  apply orb_false_iff. split; apply andb_false_iff.
  - right. apply N.leb_gt. lia.
  - right. apply N.leb_gt. lia.
Qed.

Lemma digit_not_underscore a : is_digit a = true → Ascii.eqb a "_" = false.
Proof.
  intros H. destruct (Ascii.eqb_spec a "_") as [->|]; [done|done].
Qed.

Lemma uint_no_space d :
  Forall (λ a, is_space a = false) (String.list_ascii_of_string (DecimalString.NilEmpty.string_of_uint d)).
Proof. eapply Forall_impl; [apply uint_digits|]. apply digit_not_space. Qed.

Lemma uint_no_underscore d :
  Forall (λ a, Ascii.eqb a "_" = false)
    (String.list_ascii_of_string (DecimalString.NilEmpty.string_of_uint d)).
Proof. eapply Forall_impl; [apply uint_digits|]. apply digit_not_underscore. Qed.

Lemma py_str_no_underscore z :
  Forall (λ a, Ascii.eqb a "_" = false) (String.list_ascii_of_string (py_str z)).
Proof.
  unfold py_str. destruct (Z.to_int z) as [d|d]; cbn.
  - apply uint_no_underscore.
  - constructor; [done|apply uint_no_underscore].
Qed.

(** [int(str(z))] is [z]. *)
Lemma py_int_py_str z : py_int (py_str z) = Some z.
Proof.
  unfold py_int, py_str.
  assert (∀ d, d ≠ Decimal.Nil →
            lstrip (rstrip (DecimalString.NilEmpty.string_of_uint d)) = DecimalString.NilEmpty.string_of_uint d
            ∧ ∃ a s, DecimalString.NilEmpty.string_of_uint d = String a s ∧ is_digit a = true)
    as Huint.
  { intros d Hd. rewrite rstrip_no_space by apply uint_no_space.
    pose proof (uint_digits d) as Hdigits.
    destruct (DecimalString.NilEmpty.string_of_uint d) as [|a s] eqn:E; [by destruct d|].
    apply Forall_cons in Hdigits as [Ha _]. split; [|by eauto].
    cbn. by rewrite (digit_not_space a Ha). }
  pose proof (DecimalZ.of_to z) as Hz. unfold Z.of_int in Hz.
  destruct z as [|p|p]; cbn [Z.to_int DecimalString.NilEmpty.string_of_int] in *.
  - done.
  - destruct (Huint (Pos.to_uint p) (DecimalPos.Unsigned.to_uint_nonnil p))
      as [-> (a & s & Hs & Ha)].
    rewrite Hs. rewrite (digit_not_underscore a Ha) || idtac.
    assert (Ascii.eqb a "-" = false) as ->
      by (destruct (Ascii.eqb_spec a "-") as [->|]; done).
    assert (Ascii.eqb a "+" = false) as ->
      by (destruct (Ascii.eqb_spec a "+") as [->|]; done).
    rewrite <- Hs, py_int_unsigned_uint by apply DecimalPos.Unsigned.to_uint_nonnil.
    by rewrite Hz.
  - rewrite rstrip_no_space by (constructor; [done|apply uint_no_space]).
    cbn [lstrip]. change (is_space "-") with false. cbn iota.
    change (Ascii.eqb "-" "-") with true. cbn iota.
    rewrite py_int_unsigned_uint by apply DecimalPos.Unsigned.to_uint_nonnil.
    cbn [fmap option_fmap option_map]. by rewrite Hz.
Qed.

Lemma split_on_none sep s :
  Forall (λ a, Ascii.eqb a sep = false) (String.list_ascii_of_string s) →
  split_on sep s = [s].
Proof.
  induction s as [|a s IH]; [done|]. intros [Ha Hs]%Forall_cons.
  cbn [split_on]. by rewrite Ha, IH.
Qed.

Lemma split_on_app sep u v :
  Forall (λ a, Ascii.eqb a sep = false) (String.list_ascii_of_string u) →
  split_on sep (u +:+ String sep v) = u :: split_on sep v.
Proof.
  induction u as [|a u IH].
  - intros _. change (EmptyString +:+ String sep v) with (String sep v).
    cbn [split_on]. by rewrite Ascii.eqb_refl.
  - intros [Ha Hu]%Forall_cons.
    change (String a u +:+ String sep v) with (String a (u +:+ String sep v)).
    cbn [split_on]. by rewrite Ha, IH.
Qed.

(** The parts of an identifier written from two integers. *)
Lemma split_od_id o d :
  split_on "_" (py_str o +:+ "_" +:+ py_str d) = [py_str o; py_str d].
Proof.
  change (py_str o +:+ "_" +:+ py_str d) with (py_str o +:+ String "_" (py_str d)).
  rewrite split_on_app by apply py_str_no_underscore.
  by rewrite split_on_none by apply py_str_no_underscore.
Qed.

Lemma lookup_set_column_eq df name col :
  lookup_column (columns (set_column df name col)) name = Some col.
Proof.
  unfold set_column. cbn [columns]. case_decide as Hin.
  - rewrite (lookup_column_map (λ n c, if decide (n = name) then col else c)).
    destruct (lookup_column_is_Some _ _ Hin) as [c ->]. cbn.
    by rewrite decide_True.
  - rewrite lookup_column_app, lookup_column_None by done. cbn.
    by rewrite decide_True.
Qed.

Lemma lookup_set_column_ne df name col other :
  other ≠ name →
  lookup_column (columns (set_column df name col)) other
  = lookup_column (columns df) other.
Proof.
  intros Hne. unfold set_column. cbn [columns]. case_decide as Hin.
  - rewrite (lookup_column_map (λ n c, if decide (n = name) then col else c)).
    destruct (lookup_column (columns df) other) as [c|]; [|done]. cbn.
    by rewrite decide_False.
  - rewrite lookup_column_app.
    destruct (lookup_column (columns df) other) as [c|]; [done|]. cbn.
    by rewrite decide_False.
Qed.

(** The identifiers [create_od_id_col] writes for two columns of ints. *)
Definition od_ids (os ds : list Z) : Series :=
  {| dtype_of := DObject;
     values := zip_with (λ o d, CStr (py_str o +:+ "_" +:+ py_str d)) os ds |}.

Lemma astype_int_all_parts (i : nat) (os ds zs : list Z) :
  length os = length ds →
  (∀ o d, split_on "_" (py_str o +:+ "_" +:+ py_str d) !! i
          = Some (py_str (if decide (i = 0%nat) then o else d))) →
  zs = (if decide (i = 0%nat) then os else ds) →
  astype_int_all (str_split_get i <$> values (od_ids os ds)) = inr zs.
Proof.
  intros Hlen Hpart ->. cbn [od_ids values]. revert ds Hlen.
  induction os as [|o os IH]; intros [|d ds] Hlen; try done.
  - by destruct (decide (i = 0%nat)).
  - cbn [zip_with fmap list_fmap astype_int_all str_split_get].
    rewrite Hpart. cbn [astype_int]. rewrite py_int_py_str.
    rewrite IH by (cbn in Hlen; lia).
    by destruct (decide (i = 0%nat)).
Qed.

(** X22.  The zones written into an identifier column by
    [create_od_id_col] are read back by [_get_od_cols_from_od_id]: for two
    integer columns without nulls, the frame with the identifiers gets
    back, under the names asked for, the origins and the destinations it
    was built from, for all integers, negative ones included.  The origin
    must not be written over the identifier column, which is read a second
    time. *)
Theorem od_id_round_trip df origin_col destination_col od_id_col os ds
    orig_col_name dest_col_name :
  lookup_column (columns df) origin_col
  = Some {| dtype_of := DInt64; values := CNum <$> os |} →
  lookup_column (columns df) destination_col
  = Some {| dtype_of := DInt64; values := CNum <$> ds |} →
  length os = length ds →
  orig_col_name ≠ od_id_col →
  create_od_id_col df origin_col destination_col = inr (od_ids os ds) ∧
  ∃ df', _get_od_cols_from_od_id (set_column df od_id_col (od_ids os ds))
           orig_col_name dest_col_name od_id_col = (None, df') ∧
    index df' = index df ∧
    lookup_column (columns df') dest_col_name
    = Some {| dtype_of := DInt64; values := CNum <$> ds |} ∧
    (orig_col_name ≠ dest_col_name →
     lookup_column (columns df') orig_col_name
     = Some {| dtype_of := DInt64; values := CNum <$> os |}).
Proof.
  intros Ho Hd Hlen Hne. split.
  - unfold create_od_id_col. rewrite Ho, Hd. cbn [dtype_of values]. f_equal.
    unfold od_ids. f_equal. rewrite zip_with_fmap_l, zip_with_fmap_r.
    apply zip_with_ext; [|done..]. intros o d. cbn.
    by rewrite !decide_False.
  - set (df1 := set_column df od_id_col (od_ids os ds)).
    assert (∀ df0 i zs,
              lookup_column (columns df0) od_id_col = Some (od_ids os ds) →
              (∀ o d, split_on "_" (py_str o +:+ "_" +:+ py_str d) !! i
                      = Some (py_str (if decide (i = 0%nat) then o else d))) →
              zs = (if decide (i = 0%nat) then os else ds) →
              od_part df0 od_id_col i
              = inr {| dtype_of := DInt64; values := CNum <$> zs |}) as Hpart.
    { intros df0 i zs Hids Hsplit Hzs. unfold od_part. rewrite Hids.
      rewrite decide_True by done.
      by rewrite (astype_int_all_parts i os ds zs). }
    unfold _get_od_cols_from_od_id.
    rewrite (Hpart df1 0%nat os); [|apply lookup_set_column_eq| |done]; cycle 1.
    { intros o d. by rewrite split_od_id. }
    cbn zeta.
    rewrite (Hpart _ 1%nat ds); [| |intros o d; by rewrite split_od_id|done]; cycle 1.
    { rewrite lookup_set_column_ne by done. apply lookup_set_column_eq. }
    eexists. split; [done|]. split; [done|].
    split; [apply lookup_set_column_eq|].
    intros Hnames. rewrite lookup_set_column_ne by done.
    apply lookup_set_column_eq.
Qed.

(** Two tours between zones, one of them outside the region. *)
Definition od_frame : DataFrame :=
  {| index := [7; 8]%Z;
     columns :=
       [("origin", {| dtype_of := DInt64; values := CNum <$> [12; -1]%Z |});
        ("destination", {| dtype_of := DInt64; values := CNum <$> [305; 40]%Z |})] |}.

Lemma od_id_round_trip_witness :
  create_od_id_col od_frame "origin" "destination"
  = inr (od_ids [12; -1]%Z [305; 40]%Z) ∧
  ∃ df', _get_od_cols_from_od_id
           (set_column od_frame (get_od_id_col "origin" "destination")
              (od_ids [12; -1]%Z [305; 40]%Z))
           "origin" "destination" (get_od_id_col "origin" "destination")
         = (None, df') ∧
    index df' = index od_frame ∧
    lookup_column (columns df') "destination"
    = Some {| dtype_of := DInt64; values := CNum <$> [305; 40]%Z |} ∧
    ("origin" ≠ "destination" →
     lookup_column (columns df') "origin"
     = Some {| dtype_of := DInt64; values := CNum <$> [12; -1]%Z |}).
Proof.
  apply (od_id_round_trip od_frame "origin" "destination"
           (get_od_id_col "origin" "destination") [12; -1]%Z [305; 40]%Z
           "origin" "destination").
  - reflexivity.
  - reflexivity.
  - reflexivity.
  - done.
Defined.

End TourOD.
